(** * Discovery-1: the elevation-to-terrain pipeline

    A shallow embedding of the tools of the repository,
    - [tools/srtm-parser.ts]            (module [Srtm]),
    - [tools/terrain-generator.ts]      (modules [Terrain], [Exporter]),
    - the terrain loader generator      (modules [Heightmap], [Emitter], [Loader]),
    - [tools/world-manager.ts]          (module [WorldManager]),
    and of the host that runs the emitted [.mcfunction] scripts (module [Host]).

    JavaScript numbers are IEEE 754 binary64 values; they are modelled by Rocq's
    primitive floats, so every arithmetic step of the tile store and of the
    height field builder is the one the program performs.  Quantities the program
    only ever uses as integers (loop counters, array indices, Int16 samples,
    block coordinates) are modelled in [Z].  Node's [path.join], whose result
    depends on the platform, is a parameter of the definitions that build
    paths. *)

From Stdlib Require Import ZArith Floats Uint63 String Ascii List Lia Bool.
From Stdlib.Strings Require Import Byte.
From stdpp Require Import base option list gmap strings pretty.

Local Open Scope Z_scope.

(** ** JavaScript numbers and the [Math] functions the tools call *)
Module Js.

Definition number := float.

(** The sign-carrying integer significand of a finite double. *)
Definition signed (s : bool) (m : positive) : Z := if s then Z.neg m else Z.pos m.

(** An integer as a double: exact up to 2^53 in magnitude. *)
Definition of_Z (z : Z) : number :=
  if z <? 0 then (- PrimFloat.of_uint63 (Uint63.of_Z (- z)))%float
  else PrimFloat.of_uint63 (Uint63.of_Z z).

(** The integer a finite integer-valued double holds ([None] for fractions,
    infinities and NaN). *)
Definition to_int (x : number) : option Z :=
  match Prim2SF x with
  | S754_zero _ => Some 0
  | S754_finite s m e =>
      if 0 <=? e then Some (signed s m * 2 ^ e)
      else if signed s m mod 2 ^ (- e) =? 0 then Some (signed s m / 2 ^ (- e))
      else None
  | _ => None
  end.

(** The floor and the ceiling of a finite double, as integers. *)
Definition floor_int (x : number) : option Z :=
  match Prim2SF x with
  | S754_zero _ => Some 0
  | S754_finite s m e =>
      Some (if 0 <=? e then signed s m * 2 ^ e else signed s m / 2 ^ (- e))
  | _ => None
  end.

Definition ceil_int (x : number) : option Z :=
  match Prim2SF x with
  | S754_zero _ => Some 0
  | S754_finite s m e =>
      Some (if 0 <=? e then signed s m * 2 ^ e else - ((- signed s m) / 2 ^ (- e)))
  | _ => None
  end.

(** [Math.floor]: a double with a non-negative exponent is an integer already;
    otherwise the floor of [m / 2^-e] is below 2^53 and converts exactly. *)
Definition Math_floor (x : number) : number :=
  match Prim2SF x with
  | S754_finite s m e => if 0 <=? e then x else of_Z (signed s m / 2 ^ (- e))
  | _ => x
  end.

(** [Math.ceil]; a negative argument above -1 gives -0. *)
Definition Math_ceil (x : number) : number :=
  match Prim2SF x with
  | S754_finite s m e =>
      if 0 <=? e then x
      else
        let q := - ((- signed s m) / 2 ^ (- e)) in
        if (q =? 0) && s then neg_zero else of_Z q
  | _ => x
  end.

(** [Math.round]: the nearest integer, ties towards +Infinity; an argument in
    [-0.5, 0) gives -0. *)
Definition Math_round (x : number) : number :=
  match Prim2SF x with
  | S754_finite s m e =>
      if 0 <=? e then x
      else
        let q := (2 * signed s m + 2 ^ (- e)) / 2 ^ (- e + 1) in
        if (q =? 0) && s then neg_zero else of_Z q
  | _ => x
  end.

Definition Math_abs (x : number) : number := PrimFloat.abs x.

(** [Math.min] and [Math.max] of two arguments: NaN is contagious and -0 is
    below +0. *)
Definition Math_min (a b : number) : number :=
  if is_nan a || is_nan b then nan
  else if (a <? b)%float then a
  else if (b <? a)%float then b
  else if get_sign a then a else b.

Definition Math_max (a b : number) : number :=
  if is_nan a || is_nan b then nan
  else if (a <? b)%float then b
  else if (b <? a)%float then a
  else if get_sign a then b else a.

(** [x >= y], [x > y], [x <= y], [x === y] and [x !== y] on numbers. *)
Definition ge (x y : number) : bool := (y <=? x)%float.
Definition gt (x y : number) : bool := (y <? x)%float.
Definition le (x y : number) : bool := (x <=? y)%float.
Definition strict_eq (x y : number) : bool := (x =? y)%float.

(** [Number.prototype.toString] on the values the tools print: the three
    special values and integers below 1e21 in magnitude (JavaScript prints
    larger magnitudes and fractions in exponent or fraction notation, which
    this embedding does not produce: such a value is shown by its integer
    part). *)
Definition Number_toString (x : number) : string :=
  match Prim2SF x with
  | S754_nan => "NaN"
  | S754_infinity s => if s then "-Infinity" else "Infinity"
  | S754_zero _ => "0"
  | S754_finite s m e =>
      if 0 <=? e then pretty (signed s m * 2 ^ e)
      else pretty (Z.quot (signed s m) (2 ^ (- e)))
  end.

(** [s.padStart(n, "0")]. *)
Definition padStart (s : string) (n : nat) : string :=
  String.concat "" (replicate (n - String.length s) "0") +:+ s.

(** The values [k] that the counter of
    [for (let k = start; k < bound; k++)] (or [k <= bound] when [inclusive])
    takes, for an integer-valued [start].  [None] stands for a loop with no
    last iteration in this embedding: the bound is +Infinity, or the counter
    leaves the doubles on which [k++] is exact (magnitudes beyond 2^53). *)
Definition counter_values (start bound : number) (inclusive : bool) : option (list Z) :=
  let enters := if inclusive then (start <=? bound)%float else (start <? bound)%float in
  if negb enters then Some []
  else
    match to_int start, (if inclusive then floor_int bound else ceil_int bound) with
    | Some a, Some c =>
        let stop := if inclusive then c + 1 else c in
        if (- 2 ^ 53 <=? a) && (stop <=? 2 ^ 53) then Some (seqZ a (stop - a)) else None
    | _, _ => None
    end.

(** The length [new Int16Array(width * height)] gets, [ToIndex] of the
    product, for [width] and [height] that are results of [Math.ceil]:
    integers, whose product is exact below 2^53 and otherwise at least 2^53,
    or an infinity or NaN.  [None] is the RangeError for a negative or too
    large length; NaN gives length 0.  The bound is the one of [ToIndex]; an
    engine's own, smaller limit on the size of an array is not modelled. *)
Definition Int16Array_length (width height : number) : option nat :=
  match ceil_int width, ceil_int height with
  | Some w, Some h =>
      if (0 <=? w * h) && (w * h <? 2 ^ 53) then Some (Z.to_nat (w * h)) else None
  | _, _ => if is_nan (width * height)%float then Some 0%nat else None
  end.

(** A quotient or a product of integers: an integer, an infinity or NaN. *)
Inductive count :=
  | Count (n : Z)
  | PlusInfinity
  | MinusInfinity
  | NotANumber.

Definition count_toString (c : count) : string :=
  match c with
  | Count n => pretty n
  | PlusInfinity => "Infinity"
  | MinusInfinity => "-Infinity"
  | NotANumber => "NaN"
  end.

Definition count_sgn (c : count) : Z :=
  match c with
  | Count n => Z.sgn n
  | PlusInfinity => 1
  | MinusInfinity => -1
  | NotANumber => 0
  end.

(** [a * b]. *)
Definition count_mul (a b : count) : count :=
  match a, b with
  | Count x, Count y => Count (x * y)
  | NotANumber, _ | _, NotANumber => NotANumber
  | _, _ =>
      if count_sgn a * count_sgn b =? 0 then NotANumber
      else if 0 <? count_sgn a * count_sgn b then PlusInfinity
      else MinusInfinity
  end.

(** The indices of [Array.from({ length }, ...)]: none for a length that is
    negative or NaN; [None] is the RangeError of a length over 2^32 - 1. *)
Definition Array_from_length (length : count) : option (list Z) :=
  match length with
  | Count n => if n <? 2 ^ 32 then Some (seqZ 0 n) else None
  | PlusInfinity => None
  | MinusInfinity | NotANumber => Some []
  end.

(** [ToInt16]: the value an [Int16Array] cell keeps of an integer. *)
Definition ToInt16 (z : Z) : Z := (z + 32768) mod 65536 - 32768.

End Js.

(** ** The run-time the tools share: exceptions, the console, loops *)
Module Node.
Import Js.

(** A loaded tile, the [Int16Array] of 3601 * 3601 cells, as the function from
    a cell's index to its value. *)
Definition Tile := Z → Z.

Inductive error :=
  | Error (message : string)
  | RangeError (message : string)
  | TypeError (message : string).

(** What [console.log] and [console.warn] print, by call site. *)
Inductive line :=
  | LoadedTile (tileName : string)
  | CouldNotLoadTile (tileName : string)
  | BoundingBoxSize (width height : number)
  | ElevationRange (minElev maxElev : number)
  | GeneratingHeightmap (width length : number)
  | HeightmapElevation (minElev maxElev : number)
  | HeightmapYRange (minY maxY : number)
  | GeneratingTerrain (width length : number)
  | TerrainSampleStep (sampleStep scale : number)
  | TerrainElevationRange (minElevation maxElevation elevRange : number)
  | TerrainYRange (yRange baseY : number)
  | TerrainProgress (z length : number)
  | GeneratedBlocks (count : nat)
  | TerrainFinalYRange (minY maxY : number)
  | Text (text : string).

(** The state of a run: the tile cache of the one [SRTMParser] the tools
    create, the console, and the files [fs.writeFileSync] wrote (path and
    content), in order. *)
Record State := mkState {
  tiles : gmap string Tile;
  console : list line;
  written : list (string * string)
}.

Inductive outcome (A : Type) :=
  | Returns (a : A)
  | Throws (e : error)
  | Diverges.
Arguments Returns {A} a.
Arguments Throws {A} e.
Arguments Diverges {A}.

(** Computations of the tools: they read and extend the state, and return,
    throw or run forever. *)
Definition M (A : Type) : Type := State → outcome A * State.

#[global] Instance M_ret : MRet M := λ A a st, (Returns a, st).
#[global] Instance M_bind : MBind M := λ A B f m st,
  match m st with
  | (Returns a, st') => f a st'
  | (Throws e, st') => (Throws e, st')
  | (Diverges, st') => (Diverges, st')
  end.

Definition throw {A} (e : error) : M A := λ st, (Throws e, st).
Definition diverge {A} : M A := λ st, (Diverges, st).

(** [try { body } catch (e) { handler }]. *)
Definition try_catch {A} (body : M A) (handler : error → M A) : M A := λ st,
  match body st with
  | (Throws e, st') => handler e st'
  | r => r
  end.

Definition print (l : line) : M () := λ st,
  (Returns (), {| tiles := tiles st; console := console st ++ [l]; written := written st |}).

(** [fs.writeFileSync(path, content)]. *)
Definition writeFileSync (path content : string) : M () := λ st,
  (Returns (),
   {| tiles := tiles st; console := console st; written := written st ++ [(path, content)] |}).

(** A [for] loop over the counter values [ks], threading the variables [s]
    the body assigns. *)
Fixpoint for_each {S : Type} (ks : list Z) (body : Z → S → M S) (s : S) : M S :=
  match ks with
  | [] => mret s
  | k :: ks' => s' ← body k s; for_each ks' body s'
  end.

Definition for_counter {S : Type} (start bound : number) (inclusive : bool)
    (body : Z → S → M S) (s : S) : M S :=
  match counter_values start bound inclusive with
  | Some ks => for_each ks body s
  | None => diverge
  end.

(** [for (let k = 0; k < bound; k++)] for a [bound] that is a quotient of
    integers: no iteration under NaN or -Infinity, no last one under
    +Infinity. *)
Definition for_count {A : Type} (bound : count) (body : Z → A → M A) (init : A) : M A :=
  match bound with
  | Count n => for_each (seqZ 0 n) body init
  | PlusInfinity => diverge
  | MinusInfinity | NotANumber => mret init
  end.

End Node.

(** ** The elevation tile store: [tools/srtm-parser.ts] *)
Module Srtm.
Import Js Node.

Record BoundingBox := mkBoundingBox {
  west : number;
  east : number;
  south : number;
  north : number
}.

(** [ElevationData]; its [getElevation] member is the parser's own method
    ([getElevation] below), so the record does not repeat it. *)
Record ElevationData := mkElevationData {
  width : number;
  height : number;
  minLat : number;
  maxLat : number;
  minLon : number;
  maxLon : number;
  minElevation : number;
  maxElevation : number;
  data : list Z
}.

(** A file read by [fs.readFileSync]: its length and its bytes. *)
Record Buffer := mkBuffer {
  byteLength : Z;
  byteAt : Z → Byte.byte
}.

(** [buffer.readInt16BE(offset)]: [None] is the RangeError of a read past the
    end. *)
Definition readInt16BE (buffer : Buffer) (offset : Z) : option Z :=
  if (0 <=? offset) && (offset + 2 <=? byteLength buffer) then
    Some (ToInt16 (256 * Z.of_N (Byte.to_N (byteAt buffer offset))
                   + Z.of_N (Byte.to_N (byteAt buffer (offset + 1)))))
  else None.

(** SRTM1: 3601 x 3601 samples per tile. *)
Definition samples : Z := 3601.

(** [tile[idx]] for a number [idx]: [None] is [undefined]. *)
Definition tile_get (tile : Tile) (idx : number) : option Z :=
  match to_int idx with
  | Some i => if (0 <=? i) && (i <? samples * samples) then Some (tile i) else None
  | None => None
  end.

(** The parsing loop of [loadTile],
    [for (i = 0; i < data.length; i++) data[i] = buffer.readInt16BE(i * 2)],
    on [n] cells from cell [i] on. *)
Fixpoint readSamples (buffer : Buffer) (n : nat) (i : Z) : option (list Z) :=
  match n with
  | O => Some []
  | S n' =>
      v ← readInt16BE buffer (i * 2);
      rest ← readSamples buffer n' (i + 1);
      Some (v :: rest)
  end.

(** The same loop in closed form, for the 12,967,201 cells of a tile: it
    throws when the file is shorter than two bytes per cell
    ([parseTile_readSamples] below relates the two). *)
Definition parseTile (buffer : Buffer) : option Tile :=
  if samples * samples * 2 <=? byteLength buffer then
    Some (λ i, default 0 (readInt16BE buffer (i * 2)))
  else None.

(** [new Int16Array(width * height)]: that many zero cells. *)
Definition new_Int16Array (width height : number) : M (list Z) :=
  match Int16Array_length width height with
  | Some len => mret (replicate len 0)
  | None => throw (RangeError "Invalid typed array length")
  end.

(** [data[i] = v] on an [Int16Array], [v] a number or [undefined]. *)
Definition store (data : list Z) (i : Z) (v : option Z) : list Z :=
  if i <? 0 then data else <[Z.to_nat i := ToInt16 (default 0 v)]> data.

Definition getTileName (lat lon : number) : string :=
  let latPrefix := if ge lat 0%float then "N" else "S" in
  let lonPrefix := if ge lon 0%float then "E" else "W" in
  let latNum := padStart (Number_toString (Math_floor (Math_abs lat))) 2 in
  let lonNum := padStart (Number_toString (Math_floor (Math_abs lon))) 3 in
  latPrefix +:+ latNum +:+ lonPrefix +:+ lonNum.

Section Parser.

(** Node's [path.join], the files [fs.existsSync] and [fs.readFileSync] see,
    by path, and the parser's [dataDir]. *)
Variable path_join : list string → string.
Variable fs : string → option Buffer.
Variable dataDir : string.

Definition loadTile (tileName : string) : M Tile := λ st,
  match tiles st !! tileName with
  | Some tile => (Returns tile, st)
  | None =>
      let filePath := path_join [dataDir; tileName +:+ ".hgt"] in
      match fs filePath with
      | None => (Throws (Error ("SRTM tile not found: " +:+ filePath)), st)
      | Some buffer =>
          match parseTile buffer with
          | None => (Throws (RangeError "The value of offset is out of range"), st)
          | Some data =>
              (Returns data,
               {| tiles := <[tileName := data]> (tiles st);
                  console := console st ++ [LoadedTile tileName];
                  written := written st |})
          end
      end
  end.

Definition getElevation (lat lon : number) : M (option Z) :=
  let tileName := getTileName lat lon in
  tile ← loadTile tileName;
  let samples : number := 3601%float in
  let tileLat := Math_floor lat in
  let tileLon := Math_floor lon in
  let latOffset := (lat - tileLat)%float in
  let lonOffset := (lon - tileLon)%float in
  let row := Math_floor ((1 - latOffset) * (samples - 1))%float in
  let col := Math_floor (lonOffset * (samples - 1))%float in
  let idx := (row * samples + col)%float in
  let elevation := tile_get tile idx in
  mret (match elevation with
        | Some e => if e =? -32768 then Some 0 else Some e
        | None => None
        end).

(** [elev > -1000], false for [undefined]. *)
Definition above_nodata (elev : option Z) : bool :=
  match elev with
  | Some e => -1000 <? e
  | None => false
  end.

(** The variables the sampling loops of [loadBoundingBox] assign. *)
Record Acc := mkAcc {
  acc_data : list Z;
  acc_minElev : number;
  acc_maxElev : number
}.

Definition arcSecond : number := (1 / 3600)%float.

(** One cell of the sampling loops; [w] is the integer [width] holds, so that
    [row * w + col] is the index [row * width + col] (exact: it is below the
    array's length, which is below 2^53). *)
Definition sampleCell (bbox : BoundingBox) (w row col : Z) (acc : Acc) : M Acc :=
  let lat := (north bbox - of_Z row * arcSecond)%float in
  let lon := (west bbox + of_Z col * arcSecond)%float in
  try_catch
    (elev ← getElevation lat lon;
     let data' := store (acc_data acc) (row * w + col) elev in
     if above_nodata elev then
       mret {| acc_data := data';
               acc_minElev := Math_min (acc_minElev acc) (of_Z (default 0 elev));
               acc_maxElev := Math_max (acc_maxElev acc) (of_Z (default 0 elev)) |}
     else
       mret {| acc_data := data';
               acc_minElev := acc_minElev acc;
               acc_maxElev := acc_maxElev acc |})
    (λ _,
     mret {| acc_data := store (acc_data acc) (row * w + col) (Some 0);
             acc_minElev := acc_minElev acc;
             acc_maxElev := acc_maxElev acc |}).

(** The body of the tile loops: [try { this.loadTile(tileName) } catch (e)
    { console.warn(...) }]. *)
Definition preloadTile (lat lon : Z) : M () :=
  let tileName := getTileName (of_Z lat) (of_Z lon) in
  try_catch (loadTile tileName;; mret ())
            (λ _, print (CouldNotLoadTile tileName)).

(** The tile loops of [loadBoundingBox]. *)
Definition loadTiles (bbox : BoundingBox) : M () :=
  let minTileLat := Math_floor (south bbox) in
  let maxTileLat := Math_floor (north bbox) in
  let minTileLon := Math_floor (west bbox) in
  let maxTileLon := Math_floor (east bbox) in
  for_counter minTileLat maxTileLat true (λ lat _,
    for_counter minTileLon maxTileLon true (λ lon _, preloadTile lat lon) ()) ().

(** The sampling loops of [loadBoundingBox]. *)
Definition sampleRow (bbox : BoundingBox) (width : number) (row : Z) (acc : Acc) : M Acc :=
  for_counter 0%float width false (sampleCell bbox (default 0 (ceil_int width)) row) acc.

Definition sampleRegion (bbox : BoundingBox) (width height : number) (data : list Z) : M Acc :=
  for_counter 0%float height false (sampleRow bbox width)
    {| acc_data := data; acc_minElev := infinity; acc_maxElev := neg_infinity |}.

Definition loadBoundingBox (bbox : BoundingBox) : M ElevationData :=
  loadTiles bbox;;
  let width := Math_ceil ((east bbox - west bbox) / arcSecond)%float in
  let height := Math_ceil ((north bbox - south bbox) / arcSecond)%float in
  print (BoundingBoxSize width height);;
  data ← new_Int16Array width height;
  acc ← sampleRegion bbox width height data;
  print (ElevationRange (acc_minElev acc) (acc_maxElev acc));;
  mret {| width := width;
          height := height;
          minLat := south bbox;
          maxLat := north bbox;
          minLon := west bbox;
          maxLon := east bbox;
          minElevation := acc_minElev acc;
          maxElevation := acc_maxElev acc;
          data := acc_data acc |}.

End Parser.

End Srtm.

(** ** The height field builder: [generateHeightmap] of the loader generator *)
Module Heightmap.
Import Js Node.

Record TerrainConfig := mkTerrainConfig {
  scale : number;
  baseY : number;
  bbox : Srtm.BoundingBox;
  downsample : number
}.

(** [HeightMap].  The builder fills it with numbers; the command emitter reads
    its fields as integers (block coordinates), so the record is shared by the
    two at the type [num] of its cells. *)
Record HeightMap (num : Type) := mkHeightMap {
  width : num;
  length : num;
  heights : list (list num);
  minY : num;
  maxY : num
}.
Arguments mkHeightMap {num} _ _ _ _ _.
Arguments width {num} _.
Arguments length {num} _.
Arguments heights {num} _.
Arguments minY {num} _.
Arguments maxY {num} _.

(** The variables the sampling loops assign: the row being filled, the rows
    pushed so far, and the elevation range. *)
Record Acc := mkAcc {
  acc_row : list Z;
  acc_heights : list (list Z);
  acc_minElev : number;
  acc_maxElev : number
}.

Section Builder.

Variable path_join : list string → string.
Variable fs : string → option Srtm.Buffer.
Variable dataDir : string.

(** One cell: [row.push(elev > -1000 ? elev : 0)], or [row.push(0)] when the
    query throws. *)
Definition sampleCell (config : TerrainConfig) (step : number) (z x : Z) (acc : Acc)
    : M Acc :=
  let lat := (Srtm.north (bbox config) - of_Z z * step)%float in
  let lon := (Srtm.west (bbox config) + of_Z x * step)%float in
  try_catch
    (elev ← Srtm.getElevation path_join fs dataDir lat lon;
     if Srtm.above_nodata elev then
       mret {| acc_row := acc_row acc ++ [default 0 elev];
               acc_heights := acc_heights acc;
               acc_minElev := Math_min (acc_minElev acc) (of_Z (default 0 elev));
               acc_maxElev := Math_max (acc_maxElev acc) (of_Z (default 0 elev)) |}
     else
       mret {| acc_row := acc_row acc ++ [0];
               acc_heights := acc_heights acc;
               acc_minElev := acc_minElev acc;
               acc_maxElev := acc_maxElev acc |})
    (λ _,
     mret {| acc_row := acc_row acc ++ [0];
             acc_heights := acc_heights acc;
             acc_minElev := acc_minElev acc;
             acc_maxElev := acc_maxElev acc |}).

(** One row: [const row = []], the cells, [heights.push(row)]. *)
Definition sampleRow (config : TerrainConfig) (step width : number) (z : Z) (acc : Acc)
    : M Acc :=
  acc' ← for_counter 0%float width false (sampleCell config step z)
           {| acc_row := [];
              acc_heights := acc_heights acc;
              acc_minElev := acc_minElev acc;
              acc_maxElev := acc_maxElev acc |};
  mret {| acc_row := [];
          acc_heights := acc_heights acc' ++ [acc_row acc'];
          acc_minElev := acc_minElev acc';
          acc_maxElev := acc_maxElev acc' |}.

(** The sampling loops of [generateHeightmap]. *)
Definition sampleRegion (config : TerrainConfig) (step width length : number) : M Acc :=
  for_counter 0%float length false (sampleRow config step width)
    {| acc_row := []; acc_heights := [];
       acc_minElev := infinity; acc_maxElev := neg_infinity |}.

(** [config.baseY + Math.round((elev - minElev) / config.scale)]. *)
Definition level (config : TerrainConfig) (minElev : number) (elev : Z) : number :=
  (baseY config + Math_round ((of_Z elev - minElev) / scale config))%float.

Definition generateHeightmap (config : TerrainConfig) : M (HeightMap number) :=
  let bbox := bbox config in
  let arcSecond := (1 / 3600)%float in
  let step := (arcSecond * downsample config)%float in
  let width := Math_ceil ((Srtm.east bbox - Srtm.west bbox) / step)%float in
  let length := Math_ceil ((Srtm.north bbox - Srtm.south bbox) / step)%float in
  print (GeneratingHeightmap width length);;
  acc ← sampleRegion config step width length;
  let minElev := acc_minElev acc in
  let maxElev := acc_maxElev acc in
  let yHeights := map (λ row, map (level config minElev) row) (acc_heights acc) in
  let minY := baseY config in
  let maxY := (baseY config + Math_ceil ((maxElev - minElev) / scale config))%float in
  print (HeightmapElevation minElev maxElev);;
  print (HeightmapYRange minY maxY);;
  mret (mkHeightMap width length yHeights minY maxY).

End Builder.

(** A height map of numbers read as one of integers, as the command emitter
    reads it; [None] when a field or a level is not a finite integer. *)
Definition integral (hm : HeightMap number) : option (HeightMap Z) :=
  width ← to_int (width hm);
  length ← to_int (length hm);
  heights ← mapM (mapM to_int) (heights hm);
  minY ← to_int (minY hm);
  maxY ← to_int (maxY hm);
  Some (mkHeightMap width length heights minY maxY).

End Heightmap.

(** ** The per-block generator: [tools/terrain-generator.ts] *)
Module Terrain.
Import Js Node.

Record TerrainConfig := mkTerrainConfig {
  scale : number;
  baseY : number;
  waterLevel : number;
  bbox : Srtm.BoundingBox
}.

Record BlockData := mkBlockData {
  x : Z;
  y : number;
  z : Z;
  block : string
}.

Record TerrainResult := mkTerrainResult {
  blocks : list BlockData;
  width : number;
  length : number;
  minY : number;
  maxY : number;
  blockCount : nat
}.

Definition getBlockType (elevation surfaceY y : number) : string :=
  if strict_eq y surfaceY then
    if (elevation <? 50)%float then "minecraft:grass_block"
    else if (elevation <? 150)%float then "minecraft:grass_block"
    else if (elevation <? 250)%float then "minecraft:coarse_dirt"
    else "minecraft:stone"
  else if ge y (surfaceY - 3)%float then "minecraft:dirt"
  else "minecraft:stone".

(** [data[idx]] on the [Int16Array] of an elevation field; [undefined] reads
    as NaN in the arithmetic and comparisons that follow. *)
Definition data_get (data : list Z) (idx : number) : number :=
  match to_int idx with
  | Some i =>
      if 0 <=? i then
        match data !! Z.to_nat i with Some e => of_Z e | None => nan end
      else nan
  | None => nan
  end.

Record Acc := mkAcc {
  acc_blocks : list BlockData;
  acc_minY : number;
  acc_maxY : number
}.

(** The column of one cell: the surface block and four blocks below it. *)
Definition column (elev surfaceY : number) (x z : Z) : list BlockData :=
  flat_map (λ dy,
    let y := (surfaceY - of_Z dy)%float in
    if (y <? 0)%float then []
    else [ {| x := x; y := y; z := z; block := getBlockType elev surfaceY y |} ])
    (seqZ 0 5).

Definition terrainCell (elevation : Srtm.ElevationData) (config : TerrainConfig)
    (sampleStep : number) (z x : Z) (acc : Acc) : Acc :=
  let srcRow := Math_min (of_Z z * sampleStep)%float (Srtm.height elevation - 1)%float in
  let srcCol := Math_min (of_Z x * sampleStep)%float (Srtm.width elevation - 1)%float in
  let elev :=
    data_get (Srtm.data elevation) (srcRow * Srtm.width elevation + srcCol)%float in
  if le elev (-1000)%float then acc
  else
    let surfaceY :=
      (baseY config + Math_round ((elev - Srtm.minElevation elevation) / scale config))%float in
    {| acc_blocks := acc_blocks acc ++ column elev surfaceY x z;
       acc_minY := Math_min (acc_minY acc) surfaceY;
       acc_maxY := Math_max (acc_maxY acc) surfaceY |}.

(** One row of the block loops, with its progress line every 50 rows. *)
Definition terrainRow (elevation : Srtm.ElevationData) (config : TerrainConfig)
    (sampleStep width length : number) (z : Z) (acc : Acc) : M Acc :=
  acc' ← for_counter 0%float width false
            (λ x acc, mret (terrainCell elevation config sampleStep z x acc)) acc;
  (if z mod 50 =? 0 then print (TerrainProgress (of_Z z) length) else mret ());;
  mret acc'.

Definition terrainRegion (elevation : Srtm.ElevationData) (config : TerrainConfig)
    (sampleStep width length : number) : M Acc :=
  for_counter 0%float length false (terrainRow elevation config sampleStep width length)
    {| acc_blocks := []; acc_minY := infinity; acc_maxY := neg_infinity |}.

Definition generateTerrain (elevation : Srtm.ElevationData) (config : TerrainConfig)
    : M TerrainResult :=
  let sampleStep := Math_max 1%float (Math_floor (scale config / 30)%float) in
  let width := Math_ceil (Srtm.width elevation / sampleStep)%float in
  let length := Math_ceil (Srtm.height elevation / sampleStep)%float in
  print (GeneratingTerrain width length);;
  print (TerrainSampleStep sampleStep (scale config));;
  let elevRange := (Srtm.maxElevation elevation - Srtm.minElevation elevation)%float in
  let yRange := Math_ceil (elevRange / scale config)%float in
  print (TerrainElevationRange (Srtm.minElevation elevation)
                (Srtm.maxElevation elevation) elevRange);;
  print (TerrainYRange yRange (baseY config));;
  acc ← terrainRegion elevation config sampleStep width length;
  print (GeneratedBlocks (List.length (acc_blocks acc)));;
  print (TerrainFinalYRange (acc_minY acc) (acc_maxY acc));;
  mret {| blocks := acc_blocks acc;
          width := width;
          length := length;
          minY := acc_minY acc;
          maxY := acc_maxY acc;
          blockCount := List.length (acc_blocks acc) |}.

End Terrain.

(** ** The commands of the emitted [.mcfunction] files *)
Module Mcfunction.

(** [matches n] and [matches n..]. *)
Inductive range :=
  | Exactly (n : Z)
  | AtLeast (n : Js.count).

(** A level as a template string prints it: a number, or the NaN and the
    [undefined] the generator gets from a cell that does not exist. *)
Inductive ycoord :=
  | At (v : Z)
  | NaN
  | Undefined.

(** The commands the generator writes, one per line.  A [fill] has two corners
    and a block. *)
Inductive command :=
  | Fill (x1 : Z) (y1 : ycoord) (z1 : Z) (x2 : Z) (y2 : ycoord) (z2 : Z) (block : string)
  | Function (name : string)
  | ExecuteIfScore (target objective : string) (matches : range) (run : command)
  | ScoreboardPlayersAdd (target objective : string) (count : Z)
  | ScoreboardPlayersSet (target objective : string) (score : Z)
  | ScoreboardObjectivesAdd (objective criteria : string)
  | Say (message : string)
  | Line (text : string).

Definition render_y (y : ycoord) : string :=
  match y with
  | At v => pretty v
  | NaN => "NaN"
  | Undefined => "undefined"
  end.

Definition render_range (r : range) : string :=
  match r with
  | Exactly n => pretty n
  | AtLeast n => Js.count_toString n +:+ ".."
  end.

(** The text of a command, as the template strings of the generator build it. *)
Fixpoint render (c : command) : string :=
  match c with
  | Fill x1 y1 z1 x2 y2 z2 block =>
      "fill ~" +:+ pretty x1 +:+ " ~" +:+ render_y y1 +:+ " ~" +:+ pretty z1
      +:+ " ~" +:+ pretty x2 +:+ " ~" +:+ render_y y2 +:+ " ~" +:+ pretty z2
      +:+ " " +:+ block
  | Function name => "function " +:+ name
  | ExecuteIfScore target objective matches run =>
      "execute if score " +:+ target +:+ " " +:+ objective +:+ " matches "
      +:+ render_range matches +:+ " run " +:+ render run
  | ScoreboardPlayersAdd target objective count =>
      "scoreboard players add " +:+ target +:+ " " +:+ objective +:+ " " +:+ pretty count
  | ScoreboardPlayersSet target objective score =>
      "scoreboard players set " +:+ target +:+ " " +:+ objective +:+ " " +:+ pretty score
  | ScoreboardObjectivesAdd objective criteria =>
      "scoreboard objectives add " +:+ objective +:+ " " +:+ criteria
  | Say message => "say " +:+ message
  | Line text => text
  end.

Definition newline : string := String (ascii_of_nat 10) EmptyString.

(** [commands.join("\n")]. *)
Definition join (commands : list command) : string :=
  String.concat newline (map render commands).

End Mcfunction.

(** ** The command emitter: [generateChunkCommands] *)
Module Emitter.
Import Mcfunction.

(** [a[i]] on a JavaScript array: [None] is [undefined]. *)
Definition at_index {A : Type} (a : list A) (i : Z) : option A :=
  if i <? 0 then None else a !! Z.to_nat i.

(** The variables the column scan assigns. *)
Record Scan := mkScan {
  runStart : Z;
  runHeight : option Z;
  commands : list command
}.

(** [runHeight - k] and [runHeight] in the template strings, for a
    [runHeight] that is a number or [undefined]. *)
Definition below (runHeight : option Z) (k : Z) : ycoord :=
  match runHeight with
  | Some h => At (h - k)
  | None => NaN
  end.

Definition at_height (runHeight : option Z) : ycoord :=
  match runHeight with
  | Some h => At h
  | None => Undefined
  end.

(** The three [commands.push] calls that close a run. *)
Definition emitRun (minY z runStart runEnd : Z) (runHeight : option Z) : list command :=
  [ Fill runStart (At (minY - 4)) z runEnd (below runHeight 4) z "stone";
    Fill runStart (below runHeight 3) z runEnd (below runHeight 1) z "dirt";
    Fill runStart (at_height runHeight) z runEnd (at_height runHeight) z "grass_block" ].

(** The body of [for (let x = startX + 1; x <= endX; x++)]. *)
Definition scanColumn (minY : Z) (row : list Z) (z endX : Z) (st : Scan) (x : Z) : Scan :=
  let height := if x <? endX then at_index row x else Some (-1) in
  if negb (bool_decide (height = runHeight st)) || (x =? endX) then
    let runEnd := x - 1 in
    {| runStart := x;
       runHeight := height;
       commands := commands st ++ emitRun minY z (runStart st) runEnd (runHeight st) |}
  else st.

(** The body of [for (let z = startZ; z < endZ; z++)]; [None] is the
    TypeError of reading [heights[z][startX]] when [heights[z]] is
    [undefined]. *)
Definition scanRow (hm : Heightmap.HeightMap Z) (startX endX : Z)
    (commands : list command) (z : Z) : option (list command) :=
  row ← at_index (Heightmap.heights hm) z;
  let st := foldl (scanColumn (Heightmap.minY hm) row z endX)
              {| runStart := startX; runHeight := at_index row startX; commands := commands |}
              (seqZ (startX + 1) (endX - startX)) in
  Some (Emitter.commands st).

Definition generateChunkCommands (hm : Heightmap.HeightMap Z) (startX startZ chunkSize : Z)
    : option (list command) :=
  let endX := Z.min (startX + chunkSize) (Heightmap.width hm) in
  let endZ := Z.min (startZ + chunkSize) (Heightmap.length hm) in
  foldl (λ commands z, commands ← commands; scanRow hm startX endX commands z)
        (Some []) (seqZ startZ (endZ - startZ)).

End Emitter.

(** ** The loader generator: [generateLoaderFunctions] *)
Module Loader.
Import Js Node Mcfunction.

(** [Math.ceil(a / b)] for integers (the quotient of two integers below 2^53
    in magnitude is far enough from the next integer for the division to keep
    its ceiling); a division by 0 gives an infinity or NaN. *)
Definition ceil_div (a b : Z) : count :=
  if b =? 0 then
    if 0 <? a then PlusInfinity else if a <? 0 then MinusInfinity else NotANumber
  else Count (- ((- a) / b)).

Definition chunkName (cx cz : Z) : string := "chunk_" +:+ pretty cx +:+ "_" +:+ pretty cz.

(** The master loader's lines. *)
Definition loaderCommands (width length : Z) (totalChunks : count) (chunkNames : list string)
    : list command :=
  [ Line "# Moldova Terrain Loader";
    Line "# Generated from SRTM elevation data";
    Line ("# Size: " +:+ pretty width +:+ " x " +:+ pretty length +:+ " blocks");
    Line "# Run this function from where you want the terrain origin";
    Line "";
    Say ("Loading Moldova terrain (" +:+ count_toString totalChunks +:+ " chunks)...");
    Line "" ]
  ++ map (λ name, Function ("terrain/" +:+ name)) chunkNames
  ++ [ Line ""; Say "Terrain generation complete!" ].

(** The lines of [row_<cz>.mcfunction]: the heading, and a call per chunk of
    the row. *)
Definition rowCommands (chunksX chunksZ : count) (cz : Z) : M (list command) :=
  for_count chunksX
    (λ cx rowCommands, mret (rowCommands ++ [Function ("terrain/" +:+ chunkName cx cz)]))
    [Line ("# Row " +:+ pretty (cz + 1) +:+ " of " +:+ count_toString chunksZ)].

(** The function a row's script is called by, and its line of the dispatch
    table. *)
Definition rowName (i : Z) : string := "terrain/row_" +:+ pretty i.

Definition dispatchRow (i : Z) : command :=
  ExecuteIfScore "terrain_row" "loader" (Exactly i) (Function (rowName i)).

(** The lines of [load_terrain_row.mcfunction]: the dispatch table, the
    increment, the completion report and the reset. *)
Definition rowLoaderCommands (chunksZ : count) : option (list command) :=
  rows ← Array_from_length chunksZ;
  Some ([ Line "# Progressive row loader - run multiple times";
          Line "# Each run loads one row of the terrain";
          Line "" ]
        ++ map dispatchRow rows
        ++ [ Line "";
             ScoreboardPlayersAdd "terrain_row" "loader" 1;
             ExecuteIfScore "terrain_row" "loader" (AtLeast chunksZ) (Say "Terrain complete!");
             ExecuteIfScore "terrain_row" "loader" (AtLeast chunksZ)
               (ScoreboardPlayersSet "terrain_row" "loader" 0) ]).

(** The lines of [setup_terrain.mcfunction]. *)
Definition setupCommands : list command :=
  [ Line "# Run this once before using load_terrain_row";
    ScoreboardObjectivesAdd "loader" "dummy";
    ScoreboardPlayersSet "terrain_row" "loader" 0;
    Say "Terrain loader initialized. Run /function load_terrain_row repeatedly." ].

Section Files.

(** Node's [path.join]. *)
Variable path_join : list string → string.

(** One chunk of the generation loops: its commands, its file, its name, and
    a progress line every 100 chunks. *)
Definition writeChunk (hm : Heightmap.HeightMap Z) (functionsDir : string)
    (chunkSize : Z) (totalChunks : count) (cz cx : Z) (chunkNames : list string)
    : M (list string) :=
  let startX := cx * chunkSize in
  let startZ := cz * chunkSize in
  commands ← match Emitter.generateChunkCommands hm startX startZ chunkSize with
             | Some commands => mret commands
             | None => throw (TypeError "Cannot read properties of undefined")
             end;
  let chunkName := chunkName cx cz in
  writeFileSync (path_join [functionsDir; chunkName +:+ ".mcfunction"]) (join commands);;
  let chunkIndex := Z.of_nat (List.length chunkNames) + 1 in
  (if chunkIndex mod 100 =? 0 then
     print (Text ("  Generated " +:+ pretty chunkIndex +:+ "/" +:+ count_toString totalChunks
                  +:+ " chunks"))
   else mret ());;
  mret (chunkNames ++ [chunkName]).

(** [generateLoaderFunctions]; the creation of the output directory is left
    out. *)
Definition generateLoaderFunctions (hm : Heightmap.HeightMap Z) (outputDir : string)
    (chunkSize : Z) : M () :=
  let chunksX := ceil_div (Heightmap.width hm) chunkSize in
  let chunksZ := ceil_div (Heightmap.length hm) chunkSize in
  let totalChunks := count_mul chunksX chunksZ in
  print (Text ("Generating " +:+ count_toString totalChunks +:+ " chunk loaders ("
               +:+ count_toString chunksX +:+ " x " +:+ count_toString chunksZ +:+ ")"));;
  let functionsDir := path_join [outputDir; "functions"; "terrain"] in
  chunkNames ← for_count chunksZ (λ cz chunkNames,
                  for_count chunksX
                    (writeChunk hm functionsDir chunkSize totalChunks cz) chunkNames) [];
  writeFileSync (path_join [outputDir; "functions"; "load_terrain.mcfunction"])
    (join (loaderCommands (Heightmap.width hm) (Heightmap.length hm) totalChunks
             chunkNames));;
  for_count chunksZ (λ cz _,
    rowCommands ← rowCommands chunksX chunksZ cz;
    writeFileSync (path_join [functionsDir; "row_" +:+ pretty cz +:+ ".mcfunction"])
      (join rowCommands)) ();;
  rowLoaderCommands ← match rowLoaderCommands chunksZ with
                       | Some commands => mret commands
                       | None => throw (RangeError "Invalid array length")
                       end;
  writeFileSync (path_join [outputDir; "functions"; "load_terrain_row.mcfunction"])
    (join rowLoaderCommands);;
  writeFileSync (path_join [outputDir; "functions"; "setup_terrain.mcfunction"])
    (join setupCommands);;
  print (Text ("Generated loader functions in " +:+ functionsDir)).

(** The path of the incremental loader's file. *)
Definition rowLoaderPath (outputDir : string) : string :=
  path_join [outputDir; "functions"; "load_terrain_row.mcfunction"].

End Files.

End Loader.

(** ** The host that runs the emitted scripts

    Minecraft's command interpreter is outside the repository.  This module
    gives the commands the generator emits the meaning the loader protocol
    relies on: a scoreboard of integer scores per (player, objective), a
    conditional [execute if score ... matches], and a log of what a script
    ran, said and filled.  Scores are unbounded here (the game's are 32-bit). *)
Module Host.
Import Mcfunction.

Inductive event :=
  | Ran (name : string)
  | Said (message : string)
  | Filled (x1 : Z) (y1 : ycoord) (z1 : Z) (x2 : Z) (y2 : ycoord) (z2 : Z) (block : string).

Record World := mkWorld {
  objectives : gset string;
  scores : gmap (string * string) Z;
  events : list event
}.

Definition log (e : event) (w : World) : World :=
  {| objectives := objectives w; scores := scores w; events := events w ++ [e] |}.

Definition set_score (target objective : string) (v : Z) (w : World) : World :=
  {| objectives := objectives w;
     scores := <[(target, objective) := v]> (scores w);
     events := events w |}.

Definition in_range (r : range) (v : Z) : bool :=
  match r with
  | Exactly n => v =? n
  | AtLeast (Js.Count n) => n <=? v
  | AtLeast _ => false
  end.

(** One command.  A command on an objective that does not exist fails and
    changes nothing, as does adding an objective that exists. *)
Fixpoint run_command (c : command) (w : World) : World :=
  match c with
  | Fill x1 y1 z1 x2 y2 z2 block => log (Filled x1 y1 z1 x2 y2 z2 block) w
  | Function name => log (Ran name) w
  | ExecuteIfScore target objective matches run =>
      match scores w !! (target, objective) with
      | Some v => if in_range matches v then run_command run w else w
      | None => w
      end
  | ScoreboardPlayersAdd target objective count =>
      if bool_decide (objective ∈ objectives w) then
        set_score target objective (default 0 (scores w !! (target, objective)) + count) w
      else w
  | ScoreboardPlayersSet target objective score =>
      if bool_decide (objective ∈ objectives w) then set_score target objective score w
      else w
  | ScoreboardObjectivesAdd objective _ =>
      if bool_decide (objective ∈ objectives w) then w
      else {| objectives := {[objective]} ∪ objectives w;
              scores := scores w;
              events := events w |}
  | Say message => log (Said message) w
  | Line _ => w
  end.

(** The row counter of the loader protocol. *)
Definition counter (w : World) : option Z := scores w !! ("terrain_row", "loader").

(** One invocation of a function file: its lines in order. *)
Definition run_script (commands : list command) (w : World) : World :=
  foldl (λ w c, run_command c w) w commands.

(** [n] invocations in a row. *)
Fixpoint invoke (n : nat) (commands : list command) (w : World) : World :=
  match n with
  | O => w
  | S n' => invoke n' commands (run_script commands w)
  end.

End Host.

(** ** What the claims about the tile store speak of *)
Module SrtmSpec.
Import Js Node Srtm.

Section Spec.
Variable path_join : list string → string.
Variable fs : string → option Buffer.
Variable dataDir : string.

(** The tile a name stands for: its file, parsed ([None] when the file is
    absent or too short). *)
Definition tile_of (tileName : string) : option Tile :=
  fs (path_join [dataDir; tileName +:+ ".hgt"]) ≫= parseTile.

(** The cache holds only tiles parsed from the files; the empty cache does. *)
Definition cache_ok (st : State) : Prop :=
  ∀ tileName tile, tiles st !! tileName = Some tile → tile_of tileName = Some tile.

(** The sample [getElevation] reads from a loaded tile. *)
Definition sampleTile (tile : Tile) (lat lon : number) : option Z :=
  let samples : number := 3601%float in
  let tileLat := Math_floor lat in
  let tileLon := Math_floor lon in
  let latOffset := (lat - tileLat)%float in
  let lonOffset := (lon - tileLon)%float in
  let row := Math_floor ((1 - latOffset) * (samples - 1))%float in
  let col := Math_floor (lonOffset * (samples - 1))%float in
  let idx := (row * samples + col)%float in
  match tile_get tile idx with
  | Some e => if e =? -32768 then Some 0 else Some e
  | None => None
  end.

(** The outcome of a point query, from the files alone: [None] when it
    throws, [Some None] when it returns [undefined]. *)
Definition sample_of (lat lon : number) : option (option Z) :=
  tile ← tile_of (getTileName lat lon); Some (sampleTile tile lat lon).

(** What a cell of the sampling loops of [loadBoundingBox] does to the loop
    variables, by the outcome of its query. *)
Definition cell_pure (bbox : BoundingBox) (w row col : Z) (acc : Acc) : Acc :=
  let lat := (north bbox - of_Z row * arcSecond)%float in
  let lon := (west bbox + of_Z col * arcSecond)%float in
  match sample_of lat lon with
  | Some elev =>
      let data' := store (acc_data acc) (row * w + col) elev in
      if above_nodata elev then
        {| acc_data := data';
           acc_minElev := Math_min (acc_minElev acc) (of_Z (default 0 elev));
           acc_maxElev := Math_max (acc_maxElev acc) (of_Z (default 0 elev)) |}
      else
        {| acc_data := data';
           acc_minElev := acc_minElev acc;
           acc_maxElev := acc_maxElev acc |}
  | None =>
      {| acc_data := store (acc_data acc) (row * w + col) (Some 0);
         acc_minElev := acc_minElev acc;
         acc_maxElev := acc_maxElev acc |}
  end.

(** The sampling loops of [loadBoundingBox] as folds. *)
Definition row_acc (bbox : BoundingBox) (w row : Z) (acc : Acc) (cols : list Z) : Acc :=
  foldl (λ acc col, cell_pure bbox w row col acc) acc cols.

Definition rows_acc (bbox : BoundingBox) (w : Z) (acc : Acc) (rows cols : list Z) : Acc :=
  foldl (λ acc row, row_acc bbox w row acc cols) acc rows.

Definition region_pure (bbox : BoundingBox) (w : Z) (rows cols : list Z) (n : nat) : Acc :=
  rows_acc bbox w
    {| acc_data := replicate n 0; acc_minElev := infinity; acc_maxElev := neg_infinity |}
    rows cols.

(** The value the sampling loops store for a cell: the sample, or 0 when the
    query throws. *)
Definition stored (bbox : BoundingBox) (step : number) (row col : Z) : option Z :=
  let lat := (north bbox - of_Z row * step)%float in
  let lon := (west bbox + of_Z col * step)%float in
  match sample_of lat lon with
  | Some elev => elev
  | None => Some 0
  end.

(** The samples that enter the elevation range, in sampling order: those of
    the queries that return a number above -1000. *)
Definition ranged (bbox : BoundingBox) (step : number) (rows cols : list Z) : list Z :=
  row ← rows; col ← cols;
  let lat := (north bbox - of_Z row * step)%float in
  let lon := (west bbox + of_Z col * step)%float in
  match sample_of lat lon with
  | Some elev => if above_nodata elev then [default 0 elev] else []
  | None => []
  end.

(** The loops of [loadBoundingBox] end, with these counter values, and its
    array of [n] cells can be allocated. *)
Definition region_grid (bbox : BoundingBox) (lats lons rows cols : list Z) (n : nat) : Prop :=
  let width := Math_ceil ((east bbox - west bbox) / arcSecond)%float in
  let height := Math_ceil ((north bbox - south bbox) / arcSecond)%float in
  counter_values (Math_floor (south bbox)) (Math_floor (north bbox)) true = Some lats
  ∧ counter_values (Math_floor (west bbox)) (Math_floor (east bbox)) true = Some lons
  ∧ counter_values 0%float height false = Some rows
  ∧ counter_values 0%float width false = Some cols
  ∧ Int16Array_length width height = Some n.

(** [st'] is [st] after more work: the console has grown, nothing was written. *)
Definition grows (st st' : State) : Prop :=
  written st' = written st ∧ ∃ more, console st' = console st ++ more.

(** The warning of the tile loops of [loadBoundingBox] for a tile that does
    not load. *)
Definition warned (lat lon : Z) (st : State) : Prop :=
  tile_of (getTileName (of_Z lat) (of_Z lon)) = None →
  CouldNotLoadTile (getTileName (of_Z lat) (of_Z lon)) ∈ console st.

End Spec.

(** A computation that raises no error, and one that returns from every
    state. *)
Definition never_throws {A : Type} (m : M A) : Prop :=
  ∀ st e st', m st ≠ (Throws e, st').

Definition always_returns {A : Type} (m : M A) : Prop :=
  ∀ st, ∃ a st', m st = (Returns a, st').

(** The cell of a returned field that the sampling loops wrote for
    (row, col). *)
Definition cell (ed : ElevationData) (row col : Z) : option Z :=
  data ed !! Z.to_nat (row * default 0 (ceil_int (width ed)) + col).

(** The tile name the integer floors of a latitude and a longitude encode:
    hemisphere letter, then the magnitude padded to 2 and 3 digits. *)
Definition tileNameOfFloor (latFloor lonFloor : Z) : string :=
  (if 0 <=? latFloor then "N" else "S") +:+ padStart (pretty (Z.abs latFloor)) 2
  +:+ (if 0 <=? lonFloor then "E" else "W") +:+ padStart (pretty (Z.abs lonFloor)) 3.

End SrtmSpec.

(** ** What the claims about the height field builder speak of *)
Module HeightmapSpec.
Import Js Node Heightmap.

Section Spec.
Variable path_join : list string → string.
Variable fs : string → option Srtm.Buffer.
Variable dataDir : string.

(** The elevation [generateHeightmap] pushes for a cell: the sample when the
    query returns a number above -1000, and 0 otherwise. *)
Definition pushed (config : TerrainConfig) (step : number) (z x : Z) : Z :=
  let lat := (Srtm.north (bbox config) - of_Z z * step)%float in
  let lon := (Srtm.west (bbox config) + of_Z x * step)%float in
  match SrtmSpec.sample_of path_join fs dataDir lat lon with
  | Some elev => if Srtm.above_nodata elev then default 0 elev else 0
  | None => 0
  end.

(** What a cell of the sampling loops of [generateHeightmap] does to the loop
    variables, and the loops as folds. *)
Definition cell_pure (config : TerrainConfig) (step : number) (z x : Z) (acc : Acc) : Acc :=
  let lat := (Srtm.north (bbox config) - of_Z z * step)%float in
  let lon := (Srtm.west (bbox config) + of_Z x * step)%float in
  match SrtmSpec.sample_of path_join fs dataDir lat lon with
  | Some elev =>
      if Srtm.above_nodata elev then
        {| acc_row := acc_row acc ++ [default 0 elev];
           acc_heights := acc_heights acc;
           acc_minElev := Math_min (acc_minElev acc) (of_Z (default 0 elev));
           acc_maxElev := Math_max (acc_maxElev acc) (of_Z (default 0 elev)) |}
      else
        {| acc_row := acc_row acc ++ [0];
           acc_heights := acc_heights acc;
           acc_minElev := acc_minElev acc;
           acc_maxElev := acc_maxElev acc |}
  | None =>
      {| acc_row := acc_row acc ++ [0];
         acc_heights := acc_heights acc;
         acc_minElev := acc_minElev acc;
         acc_maxElev := acc_maxElev acc |}
  end.

Definition row_pure (config : TerrainConfig) (step : number) (cols : list Z) (z : Z)
    (acc : Acc) : Acc :=
  let acc' := foldl (λ acc x, cell_pure config step z x acc)
                {| acc_row := [];
                   acc_heights := acc_heights acc;
                   acc_minElev := acc_minElev acc;
                   acc_maxElev := acc_maxElev acc |} cols in
  {| acc_row := [];
     acc_heights := acc_heights acc' ++ [acc_row acc'];
     acc_minElev := acc_minElev acc';
     acc_maxElev := acc_maxElev acc' |}.

Definition region_pure (config : TerrainConfig) (step : number) (rows cols : list Z) : Acc :=
  foldl (λ acc z, row_pure config step cols z acc)
    {| acc_row := []; acc_heights := [];
       acc_minElev := infinity; acc_maxElev := neg_infinity |} rows.

(** The step and the dimensions [generateHeightmap] computes. *)
Definition step_of (config : TerrainConfig) : number := ((1 / 3600) * downsample config)%float.
Definition width_of (config : TerrainConfig) : number :=
  Math_ceil ((Srtm.east (bbox config) - Srtm.west (bbox config)) / step_of config)%float.
Definition length_of (config : TerrainConfig) : number :=
  Math_ceil ((Srtm.north (bbox config) - Srtm.south (bbox config)) / step_of config)%float.

(** The minimum and the maximum [generateHeightmap] tracks. *)
Definition minElev_of (config : TerrainConfig) (rows cols : list Z) : number :=
  foldl (λ m e, Math_min m (of_Z e)) infinity
    (SrtmSpec.ranged path_join fs dataDir (bbox config) (step_of config) rows cols).
Definition maxElev_of (config : TerrainConfig) (rows cols : list Z) : number :=
  foldl (λ m e, Math_max m (of_Z e)) neg_infinity
    (SrtmSpec.ranged path_join fs dataDir (bbox config) (step_of config) rows cols).

End Spec.

(** [heights[z][x]]. *)
Definition level_at {num : Type} (hm : HeightMap num) (z x : Z) : option num :=
  Emitter.at_index (heights hm) z ≫= λ row, Emitter.at_index row x.

End HeightmapSpec.

(** ** What the claims about the command emitter speak of *)
Module EmitterSpec.
Import Mcfunction Emitter.

(** A height map with a row for every [z] below [length] and a cell for every
    [x] below [width]. *)
Definition well_formed (hm : Heightmap.HeightMap Z) : Prop :=
  Heightmap.length hm <= Z.of_nat (List.length (Heightmap.heights hm))
  ∧ Forall (λ row, Heightmap.width hm <= Z.of_nat (List.length row)) (Heightmap.heights hm).

(** Expanding a fill into per-cell block assignments: every cell of the
    cuboid between its two corners gets its block. *)
Definition span (a b : Z) : list Z := seqZ (Z.min a b) (Z.abs (b - a) + 1).

Definition expand (c : command) : list (Z * Z * Z * string) :=
  match c with
  | Fill x1 (At y1) z1 x2 (At y2) z2 block =>
      x ← span x1 x2; y ← span y1 y2; z ← span z1 z2; [(x, y, z, block)]
  | _ => []
  end.

(** The height grid a list of assignments holds: the column and the level of
    each surface block. *)
Definition surface (a : Z * Z * Z * string) : option (Z * Z * Z) :=
  let '(x, y, z, block) := a in
  if String.eqb block "grass_block" then Some (x, z, y) else None.

Definition decode (commands : list command) : list (Z * Z * Z) :=
  omap surface (commands ≫= expand).

(** The cells of a chunk of the input grid, row by row: column, row, level. *)
Definition chunk_cells (hm : Heightmap.HeightMap Z) (startX startZ chunkSize : Z)
    : list (Z * Z * Z) :=
  let endX := Z.min (startX + chunkSize) (Heightmap.width hm) in
  let endZ := Z.min (startZ + chunkSize) (Heightmap.length hm) in
  z ← seqZ startZ (endZ - startZ);
  x ← seqZ startX (endX - startX);
  match at_index (Heightmap.heights hm) z ≫= λ row, at_index row x with
  | Some h => [(x, z, h)]
  | None => []
  end.

(** The runs of a row: maximal stretches of columns at one level, as
    (first column, last column, level).  [runs_from start level x rest] has an
    open run from [start] at [level], and [rest] are the cells from column [x]
    on. *)
Fixpoint runs_from (start level x : Z) (rest : list Z) : list (Z * Z * Z) :=
  match rest with
  | [] => [(start, x - 1, level)]
  | h :: rest' =>
      if bool_decide (h = level) then runs_from start level (x + 1) rest'
      else (start, x - 1, level) :: runs_from x h (x + 1) rest'
  end.

Definition runs (x0 : Z) (cells : list Z) : list (Z * Z * Z) :=
  match cells with
  | [] => []
  | h :: rest => runs_from x0 h (x0 + 1) rest
  end.

(** The cells of a row from [startX] up to [endX]. *)
Definition segment (row : list Z) (startX endX : Z) : list Z :=
  take (Z.to_nat (endX - startX)) (drop (Z.to_nat startX) row).

(** The three fills of a run: stone from [minY - 4] up to 4 below the surface,
    dirt on the three levels below the surface, grass on the surface. *)
Definition threeFills (minY z : Z) (run : Z * Z * Z) : list command :=
  let '(runStart, runEnd, level) := run in
  [ Fill runStart (At (minY - 4)) z runEnd (At (level - 4)) z "stone";
    Fill runStart (At (level - 3)) z runEnd (At (level - 1)) z "dirt";
    Fill runStart (At level) z runEnd (At level) z "grass_block" ].

(** The cells a list of commands gives one material: the column and the
    level of each assignment of [block], in the order of the expansion. *)
Definition placed (block : string) (a : Z * Z * Z * string) : option (Z * Z * Z) :=
  let '(x, y, z, b) := a in
  if String.eqb b block then Some (x, z, y) else None.

Definition layer (block : string) (commands : list command) : list (Z * Z * Z) :=
  omap (placed block) (commands ≫= expand).

(** The fills of one cell on its own, a run of one column. *)
Definition column (minY : Z) (c : Z * Z * Z) : list command :=
  let '(x, z, h) := c in threeFills minY z (x, x, h).

(** Runs that follow one another without a gap and change level at every
    boundary. *)
Fixpoint chained (rs : list (Z * Z * Z)) : Prop :=
  match rs with
  | (_, runEnd, level) :: (((runStart', _, level') :: _) as rest) =>
      runStart' = runEnd + 1 ∧ level' ≠ level ∧ chained rest
  | _ => True
  end.

(** C8 as the spec words it: the stone base of a run lies 4 levels below the
    run's surface, at both of its ends. *)
Definition stone_base_at_surface (hm : Heightmap.HeightMap Z) : Prop :=
  ∀ startX startZ chunkSize commands x1 y1 z1 x2 y2 z2,
    generateChunkCommands hm startX startZ chunkSize = Some commands →
    Fill x1 y1 z1 x2 y2 z2 "stone" ∈ commands →
    ∃ level,
      Fill x1 (At level) z1 x2 (At level) z2 "grass_block" ∈ commands
      ∧ y1 = At (level - 4) ∧ y2 = At (level - 4).

(** The cells of a row from column [x] on, with their coordinates. *)
Fixpoint cells_from (x z : Z) (cells : list Z) : list (Z * Z * Z) :=
  match cells with
  | [] => []
  | h :: rest => (x, z, h) :: cells_from (x + 1) z rest
  end.

(** The runs of row [z] of a chunk. *)
Definition row_runs (hm : Heightmap.HeightMap Z) (startX endX z : Z) : list (Z * Z * Z) :=
  match at_index (Heightmap.heights hm) z with
  | Some row => runs startX (segment row startX endX)
  | None => []
  end.

End EmitterSpec.

(** ** Concrete inputs *)
Module Examples.
Import Js Node Srtm.

(** A fresh run: nothing cached, printed or written. *)
Definition start : State := {| tiles := ∅; console := []; written := [] |}.

(** The [path.join] of the concrete runs: the one of a POSIX platform, for
    directories in normal form and plain names. *)
Definition slashes (parts : list string) : string := String.concat "/" parts.
Definition slash (dir name : string) : string := slashes [dir; name].

(** A data directory without files. *)
Definition noFiles : string → option Buffer := λ _, None.

(** A full-size tile file whose samples all have the bytes [hi], [lo]. *)
Definition flatBuffer (hi lo : Byte.byte) : Buffer :=
  {| byteLength := samples * samples * 2;
     byteAt := λ i, if Z.even i then hi else lo |}.

(** A full-size tile file of 100 m samples, except cell 6483600 (row 1800,
    column 1800), which holds the no-data value -32768. *)
Definition holeBuffer : Buffer :=
  {| byteLength := samples * samples * 2;
     byteAt := λ i, if i =? 2 * 6483600 then x80
                    else if i =? 2 * 6483600 + 1 then x00
                    else if Z.even i then x00 else x64 |}.

(** A data directory [srtm] holding the one tile N00E000. *)
Definition oneTile (buffer : Buffer) : string → option Buffer :=
  λ filePath, if String.eqb filePath "srtm/N00E000.hgt" then Some buffer else None.

(** A data directory [srtm] holding one tile, under the given name. *)
Definition tileNamed (name : string) (buffer : Buffer) : string → option Buffer :=
  λ filePath,
    if String.eqb filePath ("srtm/" +:+ name +:+ ".hgt") then Some buffer else None.

(** A box of 2 x 1 samples whose first sample is cell 6483600 of N00E000. *)
Definition middle : BoundingBox :=
  {| west := 0.5%float;
     east := (0.5 + 0x1p-11)%float;
     south := (0.5 - 0x1p-13)%float;
     north := 0.5%float |}.

(** A box of 2 x 1 samples across the meridian 1°E: its first sample is in
    N00E000, its second in N00E001. *)
Definition edge : BoundingBox :=
  {| west := (1 - 0x1p-12)%float;
     east := (1 + 0x1p-12)%float;
     south := (0.5 - 0x1p-13)%float;
     north := 0.5%float |}.

(** A box of 2 x 1 samples at latitude -0.5 and longitude 28.5, inside the
    tile of the floors -1 and 28. *)
Definition southern : BoundingBox :=
  {| west := 28.5%float;
     east := (28.5 + 0x1p-11)%float;
     south := (-0.5 - 0x1p-13)%float;
     north := (-0.5)%float |}.

(** A degenerate box: west = east and south > north. *)
Definition flatbox : BoundingBox :=
  {| west := 0.5%float; east := 0.5%float; south := 0.75%float; north := 0.5%float |}.

(** The loader generator's configuration (scale 30, base level 64), over
    [edge] at the native step, and two configurations that differ from it in
    what the spec calls invalid. *)
Definition config : Heightmap.TerrainConfig :=
  {| Heightmap.scale := 30%float;
     Heightmap.baseY := 64%float;
     Heightmap.bbox := edge;
     Heightmap.downsample := 1%float |}.

Definition zeroScale : Heightmap.TerrainConfig :=
  {| Heightmap.scale := 0%float;
     Heightmap.baseY := 64%float;
     Heightmap.bbox := edge;
     Heightmap.downsample := 1%float |}.

Definition degenerate : Heightmap.TerrainConfig :=
  {| Heightmap.scale := 30%float;
     Heightmap.baseY := 64%float;
     Heightmap.bbox := flatbox;
     Heightmap.downsample := 1%float |}.

(** The elevation field of [edge] over a 150 m tile, and a per-block
    configuration with a negative scale. *)
Definition edgeField : ElevationData :=
  {| width := 2%float; height := 1%float;
     minLat := south edge; maxLat := north edge;
     minLon := west edge; maxLon := east edge;
     minElevation := 150%float; maxElevation := 150%float;
     data := [150; 0] |}.

Definition negativeScale : Terrain.TerrainConfig :=
  {| Terrain.scale := (-30)%float;
     Terrain.baseY := 64%float;
     Terrain.waterLevel := 0%float;
     Terrain.bbox := edge |}.

(** A height map of one cell at level 70 over a minimum level of 64, and one
    of 4 x 2 cells. *)
Definition peak : Heightmap.HeightMap Z := Heightmap.mkHeightMap 1 1 [[70]] 64 70.

Definition terraces : Heightmap.HeightMap Z :=
  Heightmap.mkHeightMap 4 2 [[64; 64; 65; 65]; [70; 64; 64; 66]] 64 70.

(** A host on which [setup_terrain] has run. *)
Definition ready : Host.World :=
  Host.run_script Loader.setupCommands
    {| Host.objectives := ∅; Host.scores := ∅; Host.events := [] |}.

End Examples.

(** ** Integer ranges and the integers doubles hold *)
Module Ranges.

(** The values an [Int16Array] cell holds. *)
Definition int16 (z : Z) : Prop := -32768 <= z <= 32767.

(** [f] on every integer from [z] on, [n] of them. *)
Fixpoint forall_range (n : nat) (z : Z) (f : Z → bool) : bool :=
  match n with
  | O => true
  | S n' => f z && forall_range n' (z + 1) f
  end.

(** The value of a finite double with mantissa [m] and exponent [e], scaled
    by 2^1074 to an integer. *)
Definition scaled (m : positive) (e : Z) : Z := Z.pos m * 2 ^ (e + 1074).

End Ranges.

(** ** The exporter of the per-block generator: [exportAsMcfunction] *)
Module Exporter.
Import Js Node Terrain.

(** [a.slice(start, end)]: a negative index counts from the end, and both are
    clamped to the array. *)
Definition Array_slice {A : Type} (a : list A) (start end_ : Z) : list A :=
  let len := Z.of_nat (List.length a) in
  let k := if start <? 0 then Z.max (len + start) 0 else Z.min start len in
  let final := if end_ <? 0 then Z.max (len + end_) 0 else Z.min end_ len in
  take (Z.to_nat (final - k)) (drop (Z.to_nat k) a).

(** [chunks > 1]. *)
Definition more_than_one (chunks : count) : bool :=
  match chunks with
  | Count n => 1 <? n
  | PlusInfinity => true
  | MinusInfinity | NotANumber => false
  end.

Section Files.

(** Node's [path.basename] (without and with an extension to strip),
    [path.dirname] and [path.join], and the engine's printing of a number. *)
Variable basename : string → string.
Variable basename_ext : string → string → string.
Variable dirname : string → string.
Variable join : string → string → string.
Variable toString : number → string.

(** The line of one block. *)
Definition setblock (b : BlockData) : string :=
  "setblock ~" +:+ pretty (x b) +:+ " ~" +:+ toString (y b) +:+ " ~" +:+ pretty (z b)
  +:+ " " +:+ block b.

Definition fileName (outputPath : string) (chunks : count) (i : Z) : string :=
  if more_than_one chunks then
    basename_ext outputPath ".mcfunction" +:+ "_" +:+ pretty (i + 1) +:+ ".mcfunction"
  else basename outputPath.

(** The body of [for (let i = 0; i < chunks; i++)]. *)
Definition exportChunk (terrain : TerrainResult) (outputPath : string) (chunkSize : Z)
    (chunks : count) (i : Z) (files : list string) : M (list string) :=
  let start := i * chunkSize in
  let end_ := Z.min (start + chunkSize) (Z.of_nat (List.length (blocks terrain))) in
  let chunkBlocks := Array_slice (blocks terrain) start end_ in
  let filePath := join (dirname outputPath) (fileName outputPath chunks i) in
  let lines := map setblock chunkBlocks in
  writeFileSync filePath (String.concat Mcfunction.newline lines);;
  print (Text ("Wrote " +:+ filePath +:+ " (" +:+ pretty (List.length chunkBlocks)
               +:+ " blocks)"));;
  mret (files ++ [filePath]).

(** The file of chunk [i]: its path, its blocks and its text. *)
Definition chunkPath (outputPath : string) (chunks : count) (i : Z) : string :=
  join (dirname outputPath) (fileName outputPath chunks i).

Definition chunkBlocks (terrain : TerrainResult) (chunkSize i : Z) : list BlockData :=
  Array_slice (blocks terrain) (i * chunkSize)
    (Z.min (i * chunkSize + chunkSize) (Z.of_nat (List.length (blocks terrain)))).

Definition chunkContent (terrain : TerrainResult) (chunkSize i : Z) : string :=
  String.concat Mcfunction.newline (map setblock (chunkBlocks terrain chunkSize i)).

(** [exportAsMcfunction], for an integer [chunkSize]. *)
Definition exportAsMcfunction (terrain : TerrainResult) (outputPath : string) (chunkSize : Z)
    : M (list string) :=
  let chunks := Loader.ceil_div (Z.of_nat (List.length (blocks terrain))) chunkSize in
  for_count chunks (exportChunk terrain outputPath chunkSize chunks) [].

End Files.

End Exporter.

(** ** What the extra theorems about the per-block generator speak of *)
Module TerrainSpec.
Import Js Node Terrain.

(** The loops of [generateTerrain] as folds. *)
Definition row_fold (elevation : Srtm.ElevationData) (config : TerrainConfig)
    (sampleStep : number) (cols : list Z) (acc : Acc) (z : Z) : Acc :=
  foldl (λ acc x, terrainCell elevation config sampleStep z x acc) acc cols.

Definition region_fold (elevation : Srtm.ElevationData) (config : TerrainConfig)
    (sampleStep : number) (rows cols : list Z) : Acc :=
  foldl (row_fold elevation config sampleStep cols)
    {| acc_blocks := []; acc_minY := infinity; acc_maxY := neg_infinity |} rows.

(** The step [generateTerrain] computes, and the elevation it reads for a
    cell. *)
Definition sampleStep_of (config : TerrainConfig) : number :=
  Math_max 1%float (Math_floor (scale config / 30)%float).

Definition sampled (elevation : Srtm.ElevationData) (sampleStep : number) (z x : Z)
    : number :=
  let srcRow := Math_min (of_Z z * sampleStep)%float (Srtm.height elevation - 1)%float in
  let srcCol := Math_min (of_Z x * sampleStep)%float (Srtm.width elevation - 1)%float in
  data_get (Srtm.data elevation) (srcRow * Srtm.width elevation + srcCol)%float.

(** The block names of the generator. *)
Definition block_names : list string :=
  ["minecraft:grass_block"; "minecraft:coarse_dirt"; "minecraft:stone"; "minecraft:dirt"].

(** The blocks of one cell: at most five, at the cell's column, none with y
    below 0; and blocks that stand at columns of a grid. *)
Definition cell_blocks (x0 z0 : Z) (bs : list BlockData) : Prop :=
  (List.length bs <= 5)%nat
  ∧ ∀ b, b ∈ bs →
      x b = x0 ∧ z b = z0 ∧ (y b <? 0)%float = false ∧ block b ∈ block_names.

Definition grid_blocks (rows cols : list Z) (bs : list BlockData) : Prop :=
  ∀ b, b ∈ bs →
    z b ∈ rows ∧ x b ∈ cols ∧ (y b <? 0)%float = false ∧ block b ∈ block_names.

End TerrainSpec.

(** ** More concrete inputs *)
Module MoreExamples.
Import Js Node Srtm.

(** The per-block generator's configuration, and a field of two samples below
    -1000. *)
Definition perBlock : Terrain.TerrainConfig :=
  {| Terrain.scale := 30%float;
     Terrain.baseY := 64%float;
     Terrain.waterLevel := 0%float;
     Terrain.bbox := Examples.edge |}.

Definition trench : ElevationData :=
  {| width := 2%float; height := 1%float;
     minLat := south Examples.edge; maxLat := north Examples.edge;
     minLon := west Examples.edge; maxLon := east Examples.edge;
     minElevation := infinity; maxElevation := neg_infinity;
     data := [-1500; -2000] |}.

(** A terrain of one column of three blocks. *)
Definition stack : Terrain.TerrainResult :=
  {| Terrain.blocks :=
       [ Terrain.mkBlockData 0 64%float 0 "minecraft:grass_block";
         Terrain.mkBlockData 0 63%float 0 "minecraft:dirt";
         Terrain.mkBlockData 0 62%float 0 "minecraft:dirt" ];
     Terrain.width := 1%float; Terrain.length := 1%float;
     Terrain.minY := 64%float; Terrain.maxY := 64%float;
     Terrain.blockCount := 3 |}.

(** A height map that says it has two rows and holds one. *)
Definition torn : Heightmap.HeightMap Z := Heightmap.mkHeightMap 1 2 [[70]] 64 70.

End MoreExamples.

(** ** What the extra theorems about the loader generator speak of *)
Module LoaderSpec.
Import Js Node Mcfunction Loader.

Section Files.

(** Node's [path.join]. *)
Variable path_join : list string → string.

(** The directory of the generated functions. *)
Definition functionsDir (outputDir : string) : string :=
  path_join [outputDir; "functions"; "terrain"].

(** The file of chunk (cx, cz): its path and the text of its commands. *)
Definition chunkFile (hm : Heightmap.HeightMap Z) (outputDir : string) (chunkSize cz cx : Z)
    : string * string :=
  (path_join [functionsDir outputDir; chunkName cx cz +:+ ".mcfunction"],
   join (default [] (Emitter.generateChunkCommands hm (cx * chunkSize) (cz * chunkSize)
                       chunkSize))).

(** The chunk names in the order of the generation loops: row by row. *)
Definition chunkNames (chunksX chunksZ : Z) : list string :=
  cz ← seqZ 0 chunksZ; cx ← seqZ 0 chunksX; [chunkName cx cz].

(** The lines of [row_<cz>.mcfunction] for a finite number of chunks. *)
Definition rowLines (chunksX chunksZ cz : Z) : list command :=
  Line ("# Row " +:+ pretty (cz + 1) +:+ " of " +:+ pretty chunksZ)
  :: map (λ cx, Function ("terrain/" +:+ chunkName cx cz)) (seqZ 0 chunksX).

Definition rowFile (outputDir : string) (chunksX chunksZ cz : Z) : string * string :=
  (path_join [functionsDir outputDir; "row_" +:+ pretty cz +:+ ".mcfunction"],
   join (rowLines chunksX chunksZ cz)).

End Files.

End LoaderSpec.

(** ** The world manager: [tools/world-manager.ts]

    A buffer is the list of its bytes.  The functions of the world manager
    are [async]: a computation that throws stands for the rejected promise. *)
Module WorldManager.
Import Js Node.

Definition Z_of_byte (b : Byte.byte) : Z := Z.of_N (Byte.to_N b).
Definition byte_of_Z (z : Z) : Byte.byte := default x00 (Byte.of_N (Z.to_N (z mod 256))).

(** The bytes of a string ([Buffer.from(s)], for a string given by its
    UTF-8 bytes) and the text of a buffer written to a file. *)
Definition bytes_of (s : string) : list Byte.byte := list_byte_of_string s.
Definition text_of (b : list Byte.byte) : string := string_of_list_byte b.

(** [ToInt32]: the signed value of 32 bits. *)
Definition ToInt32 (z : Z) : Z := (z + 2 ^ 31) mod 2 ^ 32 - 2 ^ 31.

(** [buffer.readInt32LE(offset)]; [None] is the RangeError of an offset
    outside the buffer. *)
Definition readInt32LE (buffer : list Byte.byte) (offset : Z) : option Z :=
  if (0 <=? offset) && (offset + 4 <=? Z.of_nat (List.length buffer)) then
    match drop (Z.to_nat offset) buffer with
    | b0 :: b1 :: b2 :: b3 :: _ =>
        Some (ToInt32 (Z_of_byte b0 + 256 * Z_of_byte b1 + 65536 * Z_of_byte b2
                       + 16777216 * Z_of_byte b3))
    | _ => None
    end
  else None.

(** [buffer[i] = v]: nothing outside the buffer. *)
Definition set_byte (buffer : list Byte.byte) (i : Z) (v : Byte.byte) : list Byte.byte :=
  if i <? 0 then buffer else <[Z.to_nat i := v]> buffer.

(** [buffer.writeInt32LE(value, offset)] for an integer [value]; [None] is
    the RangeError of a value that is not a signed 32-bit integer or of an
    offset outside the buffer. *)
Definition writeInt32LE (buffer : list Byte.byte) (value offset : Z) : option (list Byte.byte) :=
  if (- 2 ^ 31 <=? value) && (value <? 2 ^ 31)
     && (0 <=? offset) && (offset + 4 <=? Z.of_nat (List.length buffer)) then
    Some (set_byte (set_byte (set_byte (set_byte buffer
            offset (byte_of_Z value))
            (offset + 1) (byte_of_Z (value / 256)))
            (offset + 2) (byte_of_Z (value / 65536)))
            (offset + 3) (byte_of_Z (value / 16777216)))
  else None.

(** Whether [needle] is at the head of [data]. *)
Fixpoint starts_with (needle data : list Byte.byte) : bool :=
  match needle, data with
  | [], _ => true
  | _ :: _, [] => false
  | n :: needle', d :: data' => Byte.eqb n d && starts_with needle' data'
  end.

(** [data.indexOf(name)], from index [i] on: the first index at which the
    bytes of [name] start, or -1. *)
Fixpoint indexOf_from (data needle : list Byte.byte) (i : Z) : Z :=
  if starts_with needle data then i
  else match data with
       | [] => -1
       | _ :: data' => indexOf_from data' needle (i + 1)
       end.

Definition indexOf (data : list Byte.byte) (name : string) : Z := indexOf_from data (bytes_of name) 0.

(** The world id of [createWorld] and of [cloneAndConfigureWorld], from the
    value of [Date.now()]. *)
Definition alphabet : string :=
  "ABCDEFGHIJKLMNOPQRSTUVWXYZabcdefghijklmnopqrstuvwxyz0123456789+/".

Definition base64_char (n : Z) : ascii := default "A"%char (String.get (Z.to_nat n) alphabet).

(** [buffer.toString("base64")]. *)
Fixpoint base64 (bytes : list Z) : list ascii :=
  match bytes with
  | [] => []
  | [a] => [base64_char (a / 4); base64_char (a mod 4 * 16); "="; "="]%char
  | [a; b] =>
      [base64_char (a / 4); base64_char (a mod 4 * 16 + b / 16);
       base64_char (b mod 16 * 4); "="]%char
  | a :: b :: c :: rest =>
      base64_char (a / 4) :: base64_char (a mod 4 * 16 + b / 16)
      :: base64_char (b mod 16 * 4 + c / 64) :: base64_char (c mod 64) :: base64 rest
  end.

(** [.replace(/[/+=]/g, "")] keeps the characters other than these three. *)
Definition kept (c : ascii) : bool :=
  negb (Ascii.eqb c "/" || Ascii.eqb c "+" || Ascii.eqb c "=")%char.

(** [Buffer.from(Date.now().toString()).toString("base64").replace(/[/+=]/g, "")]. *)
Definition stamp (now : Z) : list ascii :=
  List.filter kept (base64 (map Z_of_byte (bytes_of (pretty now)))).

Definition worldId (now : Z) : string :=
  string_of_list_ascii (Exporter.Array_slice (stamp now) 0 12).

Definition cloneId (now : Z) : string :=
  "SRTM_" +:+ string_of_list_ascii (Exporter.Array_slice (stamp now) 0 8).

Section Files.

(** The files [fs.readFileSync] sees, Node's [path.join], and the two
    functions of the NBT library: [nbt.writeUncompressed(data, "little")] and
    [nbt.parse(buffer, "little")], which gives the parsed value or rejects. *)
Variable fs : string → option (list Byte.byte).
Variable join : string → string → string.
Context {Nbt : Type}.
Variable nbt_write : Nbt → list Byte.byte.
Variable nbt_parse : list Byte.byte → error + Nbt.

Definition readFileSync (path : string) : M (list Byte.byte) := λ st,
  match fs path with
  | Some buffer => (Returns buffer, st)
  | None => (Throws (Error ("ENOENT: no such file or directory, open " +:+ path)), st)
  end.

(** A read or a write of 32 bits, which throws Node's RangeError
    ([ERR_OUT_OF_RANGE]) when it is refused. *)
Definition in_range {A : Type} (r : option A) : M A :=
  match r with
  | Some a => mret a
  | None => throw (RangeError "ERR_OUT_OF_RANGE")
  end.

Definition readLevelDat (worldPath : string) : M (Z * Nbt) :=
  let levelDatPath := join worldPath "level.dat" in
  buffer ← readFileSync levelDatPath;
  version ← in_range (readInt32LE buffer 0);
  length ← in_range (readInt32LE buffer 4);
  let nbtData := Exporter.Array_slice buffer 8 (8 + length) in
  match nbt_parse nbtData with
  | inr parsed => mret (version, parsed)
  | inl e => throw e
  end.

(** [writeLevelDat], for an integer [version]. *)
Definition writeLevelDat (worldPath : string) (data : Nbt) (version : Z) : M () :=
  let nbtBuffer := nbt_write data in
  let header := replicate 8 x00 in
  header ← in_range (writeInt32LE header version 0);
  header ← in_range (writeInt32LE header (Z.of_nat (List.length nbtBuffer)) 4);
  let fullBuffer := header ++ nbtBuffer in
  writeFileSync (join worldPath "level.dat") (text_of fullBuffer).

(** One patch of [enableCheats]: the byte [offset] bytes after the first
    occurrence of [name] becomes 1. *)
Definition patch (name : string) (offset : Z) (data : list Byte.byte) : M (list Byte.byte) :=
  let idx := indexOf data name in
  if idx =? -1 then mret data
  else
    print (Text ("Patched " +:+ name +:+ " to true at offset " +:+ pretty idx));;
    mret (set_byte data (idx + offset) x01).

Definition enableCheats (worldPath : string) : M () :=
  let levelDatPath := join worldPath "level.dat" in
  buffer ← readFileSync levelDatPath;
  data ← patch "cheatsEnabled" 13 buffer;
  data ← patch "commandsEnabled" 15 data;
  writeFileSync levelDatPath (text_of data).

End Files.

End WorldManager.

(** ** What the theorems about the world manager speak of *)
Module WorldManagerSpec.
Import WorldManager.

(** The bytes of [name] stand in [data] from index [i] on. *)
Definition occurs (name : string) (data : list Byte.byte) (i : Z) : Prop :=
  0 <= i
  ∧ take (List.length (bytes_of name)) (drop (Z.to_nat i) data) = bytes_of name.

(** [i] is the first index from which they do. *)
Definition first_at (name : string) (data : list Byte.byte) (i : Z) : Prop :=
  occurs name data i ∧ ∀ j, occurs name data j → i <= j.

(** Byte [p] is one of the bytes of [name] standing from index [i] on. *)
Definition within (name : string) (i p : Z) : Prop :=
  i <= p < i + Z.of_nat (List.length (bytes_of name)).

(** The byte the first patch of [enableCheats] aims at: the one 13 bytes
    after the start of the first [cheatsEnabled]. *)
Definition first_patch (buffer : list Byte.byte) (p : Z) : Prop :=
  ∃ i, first_at "cheatsEnabled" buffer i ∧ p = i + 13.

(** [commandsEnabled] stands from [i] on and the first patch leaves it. *)
Definition left_standing (buffer : list Byte.byte) (i : Z) : Prop :=
  occurs "commandsEnabled" buffer i
  ∧ ∀ q, first_patch buffer q → ¬ within "commandsEnabled" i q.

(** The byte the second patch aims at: the one 15 bytes after the start of
    the first [commandsEnabled] that the first patch leaves standing. *)
Definition second_patch (buffer : list Byte.byte) (p : Z) : Prop :=
  ∃ i, left_standing buffer i ∧ (∀ j, left_standing buffer j → i <= j) ∧ p = i + 15.

(** The character codes of the [n] low decimal digits of [x], the highest
    first. *)
Fixpoint codes (n : nat) (x : Z) : list Z :=
  match n with
  | O => []
  | S n' => codes n' (x / 10) ++ [48 + x mod 10]
  end.

(** The four characters of three bytes, and the bytes of four characters. *)
Definition group (a b c : Z) : list ascii :=
  [base64_char (a / 4); base64_char (a mod 4 * 16 + b / 16);
   base64_char (b mod 16 * 4 + c / 64); base64_char (c mod 64)].

Fixpoint index_from (c : ascii) (s : string) (i : Z) : Z :=
  match s with
  | EmptyString => -1
  | String c' s' => if Ascii.eqb c c' then i else index_from c s' (i + 1)
  end.

Definition ungroup (cs : list ascii) : list Z :=
  match map (λ c, index_from c alphabet 0) cs with
  | [p; q; r; s] => [p * 4 + q / 16; q mod 16 * 16 + r / 4; r mod 4 * 64 + s]
  | _ => []
  end.

End WorldManagerSpec.

(** * The tile store *)

Import Js Node Srtm SrtmSpec.

(** The parsing loop reads two bytes per cell: it ends without a RangeError
    exactly when the file has them, and its array is the closed form of
    [parseTile]. *)
Lemma readInt16BE_is_Some buffer i :
  0 ≤ i → is_Some (readInt16BE buffer (i * 2)) ↔ (i + 1) * 2 ≤ byteLength buffer.
Proof.
  intros Hi. unfold readInt16BE.
  destruct (Z.leb_spec 0 (i * 2)); [|lia].
  destruct (Z.leb_spec (i * 2 + 2) (byteLength buffer)); cbn.
  - split; [lia|by eexists].
  - split; [intros [? [=]]|lia].
Qed.

Lemma readSamples_closed buffer n i :
  0 ≤ i →
  readSamples buffer (S n) i =
    if (i + Z.of_nat (S n)) * 2 <=? byteLength buffer
    then Some ((λ j, default 0 (readInt16BE buffer (j * 2))) <$> seqZ i (Z.of_nat (S n)))
    else None.
Proof.
  revert i. induction n as [|n IH]; intros i Hi.
  - cbn [readSamples]. pose proof (readInt16BE_is_Some buffer i Hi) as Hread.
    destruct (Z.leb_spec ((i + Z.of_nat 1) * 2) (byteLength buffer)) as [Hlen|Hlen].
    + destruct Hread as [_ [v Hv]]; [lia|].
      rewrite (seqZ_cons i), seqZ_nil by lia. cbn. by rewrite Hv.
    + destruct (readInt16BE buffer (i * 2)) as [v|] eqn:Hv; [|done].
      destruct Hread as [Hread _]. specialize (Hread ltac:(by eexists)). lia.
  - change (readSamples buffer (S (S n)) i)
      with (v ← readInt16BE buffer (i * 2);
            rest ← readSamples buffer (S n) (i + 1); Some (v :: rest)).
    rewrite IH by lia.
    pose proof (readInt16BE_is_Some buffer i Hi) as Hread.
    replace (Z.of_nat (S (S n))) with (1 + Z.of_nat (S n)) by lia.
    rewrite (seqZ_cons i) by lia.
    replace (Z.succ i) with (i + 1) by lia.
    replace (Z.pred (1 + Z.of_nat (S n))) with (Z.of_nat (S n)) by lia.
    replace ((i + (1 + Z.of_nat (S n))) * 2) with ((i + 1 + Z.of_nat (S n)) * 2) by lia.
    destruct (Z.leb_spec ((i + 1 + Z.of_nat (S n)) * 2) (byteLength buffer)) as [Hlen|Hlen].
    + destruct Hread as [_ [v Hv]]; [lia|]. cbn. by rewrite Hv.
    + by destruct (readInt16BE buffer (i * 2)).
Qed.

(** The tile [loadTile] caches is the array the parsing loop fills. *)
Lemma parseTile_readSamples buffer :
  match parseTile buffer with
  | Some tile =>
      ∃ cells, readSamples buffer (Z.to_nat (samples * samples)) 0 = Some cells
        ∧ ∀ i, 0 ≤ i < samples * samples → cells !! Z.to_nat i = Some (tile i)
  | None => readSamples buffer (Z.to_nat (samples * samples)) 0 = None
  end.
Proof.
  unfold parseTile.
  assert (Z.to_nat (samples * samples) = S (Z.to_nat (samples * samples - 1))) as ->
    by (unfold samples; lia).
  rewrite readSamples_closed by done.
  replace ((0 + Z.of_nat (S (Z.to_nat (samples * samples - 1)))) * 2)
    with (samples * samples * 2) by (unfold samples; lia).
  destruct (samples * samples * 2 <=? byteLength buffer); [|done].
  eexists. split; [done|]. intros i Hi.
  rewrite list_lookup_fmap, lookup_seqZ_lt by (unfold samples in *; lia).
  cbn. do 3 f_equal. lia.
Qed.

Section TileStore.
Variable path_join : list string → string.
Variable fs : string → option Buffer.
Variable dataDir : string.

Lemma grows_refl st : grows st st.
Proof. split; [done|]. exists []. by rewrite app_nil_r. Qed.

Lemma grows_trans st1 st2 st3 : grows st1 st2 → grows st2 st3 → grows st1 st3.
Proof.
  intros [Hw1 [m1 Hc1]] [Hw2 [m2 Hc2]]. split; [congruence|].
  exists (m1 ++ m2). by rewrite Hc2, Hc1, app_assoc.
Qed.

Lemma grows_console st st' l : grows st st' → l ∈ console st → l ∈ console st'.
Proof. intros [_ [more ->]] Hl. apply elem_of_app. by left. Qed.

Lemma loadTile_found (tileName : string) (tile : Tile) (st : State) :
  cache_ok path_join fs dataDir st → tile_of path_join fs dataDir tileName = Some tile →
  ∃ st', loadTile path_join fs dataDir tileName st = (Returns tile, st') ∧ cache_ok path_join fs dataDir st' ∧ grows st st'.
Proof.
  intros Hok Htile. unfold loadTile.
  destruct (tiles st !! tileName) as [cached|] eqn:Hc.
  - apply Hok in Hc. exists st. rewrite Htile in Hc. injection Hc as ->.
    split; [done|]. split; [done | apply grows_refl].
  - pose proof Htile as Htile'. unfold SrtmSpec.tile_of in Htile.
    destruct (fs _) as [buffer|]; [|done]. cbn in Htile. rewrite Htile.
    eexists. split; [done|]. split.
    + intros name t. cbn [tiles]. rewrite lookup_insert.
      case_decide as Hn; [|by apply Hok].
      intros [= <-]. by subst name.
    + split; [done|]. by eexists.
Qed.

Lemma loadTile_missing (tileName : string) (st : State) :
  cache_ok path_join fs dataDir st → tile_of path_join fs dataDir tileName = None →
  ∃ e, loadTile path_join fs dataDir tileName st = (Throws e, st).
Proof.
  intros Hok Htile. unfold loadTile.
  destruct (tiles st !! tileName) as [cached|] eqn:Hc.
  - apply Hok in Hc. congruence.
  - unfold SrtmSpec.tile_of in Htile.
    destruct (fs _) as [buffer|]; [|by eexists]. cbn in Htile. rewrite Htile. by eexists.
Qed.

Lemma getElevation_spec (lat lon : number) (st : State) :
  cache_ok path_join fs dataDir st →
  match sample_of path_join fs dataDir lat lon with
  | Some elev =>
      ∃ st', getElevation path_join fs dataDir lat lon st = (Returns elev, st')
             ∧ cache_ok path_join fs dataDir st' ∧ grows st st'
  | None => ∃ e, getElevation path_join fs dataDir lat lon st = (Throws e, st)
  end.
Proof.
  intros Hok. unfold SrtmSpec.sample_of, getElevation.
  destruct (tile_of path_join fs dataDir (getTileName lat lon)) as [tile|] eqn:Htile; cbn [mbind option_bind].
  - destruct (loadTile_found _ _ st Hok Htile) as (st' & Hload & Hok' & Hg).
    exists st'. unfold mbind, M_bind. rewrite Hload. done.
  - destruct (loadTile_missing _ st Hok Htile) as (e & Hload).
    exists e. unfold mbind, M_bind. by rewrite Hload.
Qed.


Lemma print_spec (l : line) (st : State) :
  cache_ok path_join fs dataDir st →
  ∃ st', print l st = (Returns (), st') ∧ cache_ok path_join fs dataDir st' ∧ grows st st'
         ∧ l ∈ console st'.
Proof.
  intros Hok. eexists. split; [done|]. split; [done|]. split.
  - split; [done|]. by eexists.
  - cbn. apply elem_of_app. right. by left.
Qed.

Lemma sampleCell_spec (bbox : BoundingBox) (w row col : Z) (acc : Acc) (st : State) :
  cache_ok path_join fs dataDir st →
  ∃ st', sampleCell path_join fs dataDir bbox w row col acc st
         = (Returns (cell_pure path_join fs dataDir bbox w row col acc), st')
         ∧ cache_ok path_join fs dataDir st' ∧ grows st st'.
Proof.
  intros Hok. unfold sampleCell, cell_pure, try_catch.
  pose proof (getElevation_spec (north bbox - of_Z row * arcSecond)%float
                (west bbox + of_Z col * arcSecond)%float st Hok) as Hget.
  destruct (sample_of path_join fs dataDir _ _) as [elev|].
  - destruct Hget as (st' & Hget & Hok' & Hg). exists st'.
    unfold mbind, M_bind. rewrite Hget.
    destruct (above_nodata elev); done.
  - destruct Hget as (e & Hget). exists st.
    unfold mbind, M_bind. rewrite Hget. split; [done|]. split; [done | apply grows_refl].
Qed.

(** A loop whose every iteration returns, keeps the cache consistent, and
    establishes a fact [Q k] that later iterations do not undo. *)
Lemma for_each_collect {S : Type} (Q : Z → State → Prop) (f : Z → S → S)
    (body : Z → S → M S) (ks : list Z) :
  (∀ k st st', grows st st' → Q k st → Q k st') →
  (∀ k s st, k ∈ ks → cache_ok path_join fs dataDir st →
     ∃ st', body k s st = (Returns (f k s), st') ∧ cache_ok path_join fs dataDir st' ∧ grows st st'
            ∧ Q k st') →
  ∀ s st, cache_ok path_join fs dataDir st →
    ∃ st', for_each ks body s st = (Returns (foldl (λ s k, f k s) s ks), st')
           ∧ cache_ok path_join fs dataDir st' ∧ grows st st' ∧ ∀ k, k ∈ ks → Q k st'.
Proof.
  intros Hstable. induction ks as [|k ks IH]; intros Hbody s st Hok.
  - exists st. split; [done|]. split; [done|]. split; [apply grows_refl|].
    intros k Hk. by apply elem_of_nil in Hk.
  - destruct (Hbody k s st ltac:(by left) Hok) as (st1 & Hk & Hok1 & Hg1 & HQ).
    destruct (IH (λ k' s' st' Hin, Hbody k' s' st' ltac:(by right)) (f k s) st1 Hok1)
      as (st2 & Hrest & Hok2 & Hg2 & HQs).
    exists st2. cbn [for_each foldl]. unfold mbind, M_bind. rewrite Hk.
    split; [exact Hrest|]. split; [done|]. split; [by eapply grows_trans|].
    intros k' [->|Hin]%elem_of_cons; [by eapply Hstable | by apply HQs].
Qed.

Lemma for_counter_collect {S : Type} (Q : Z → State → Prop) (f : Z → S → S)
    (body : Z → S → M S) (start bound : number) (inclusive : bool) (ks : list Z) :
  counter_values start bound inclusive = Some ks →
  (∀ k st st', grows st st' → Q k st → Q k st') →
  (∀ k s st, k ∈ ks → cache_ok path_join fs dataDir st →
     ∃ st', body k s st = (Returns (f k s), st') ∧ cache_ok path_join fs dataDir st' ∧ grows st st'
            ∧ Q k st') →
  ∀ s st, cache_ok path_join fs dataDir st →
    ∃ st', for_counter start bound inclusive body s st
           = (Returns (foldl (λ s k, f k s) s ks), st')
           ∧ cache_ok path_join fs dataDir st' ∧ grows st st' ∧ ∀ k, k ∈ ks → Q k st'.
Proof.
  intros Hks. unfold for_counter. rewrite Hks. apply for_each_collect.
Qed.


Lemma bind_returns {A B : Type} (m : M A) (f : A → M B) (a : A) (st st' : State) :
  m st = (Returns a, st') → (m ≫= f) st = f a st'.
Proof. intros H. unfold mbind, M_bind. by rewrite H. Qed.

Lemma warned_grows (lat lon : Z) (st st' : State) :
  grows st st' → warned path_join fs dataDir lat lon st → warned path_join fs dataDir lat lon st'.
Proof. intros Hg Hw Hnone. eapply grows_console; [done | by apply Hw]. Qed.

Lemma preloadTile_spec (lat lon : Z) (st : State) :
  cache_ok path_join fs dataDir st →
  ∃ st', preloadTile path_join fs dataDir lat lon st = (Returns (), st')
         ∧ cache_ok path_join fs dataDir st' ∧ grows st st' ∧ warned path_join fs dataDir lat lon st'.
Proof.
  intros Hok. unfold preloadTile, try_catch, warned.
  destruct (tile_of path_join fs dataDir (getTileName (of_Z lat) (of_Z lon))) as [tile|] eqn:Htile.
  - destruct (loadTile_found _ _ st Hok Htile) as (st' & Hload & Hok' & Hg).
    exists st'. rewrite (bind_returns _ _ _ _ _ Hload). done.
  - destruct (loadTile_missing _ st Hok Htile) as (e & Hload).
    unfold mbind, M_bind. rewrite Hload.
    destruct (print_spec (CouldNotLoadTile (getTileName (of_Z lat) (of_Z lon))) st Hok)
      as (st' & Hp & Hok' & Hg & Hin).
    exists st'. done.
Qed.

Lemma foldl_unit {A : Type} (l : list A) : foldl (λ (u : ()) _, u) () l = ().
Proof. by induction l. Qed.

Lemma loadTiles_spec (bbox : BoundingBox) (st : State) (lats lons : list Z) :
  cache_ok path_join fs dataDir st →
  counter_values (Math_floor (south bbox)) (Math_floor (north bbox)) true = Some lats →
  counter_values (Math_floor (west bbox)) (Math_floor (east bbox)) true = Some lons →
  ∃ st', loadTiles path_join fs dataDir bbox st = (Returns (), st')
         ∧ cache_ok path_join fs dataDir st' ∧ grows st st'
         ∧ ∀ lat, lat ∈ lats → ∀ lon, lon ∈ lons → warned path_join fs dataDir lat lon st'.
Proof.
  intros Hok Hlats Hlons. unfold loadTiles.
  edestruct (for_counter_collect (λ lat st, ∀ lon, lon ∈ lons → warned path_join fs dataDir lat lon st)
           (λ _ (u : ()), u)
           (λ lat _, for_counter (Math_floor (west bbox)) (Math_floor (east bbox)) true
                       (λ lon _, preloadTile path_join fs dataDir lat lon) ())
           _ _ _ lats Hlats) as (st' & H & Hok' & Hg & Hw);
    [ | | exact Hok | exists st'; rewrite foldl_unit in H; by rewrite H ].
  - intros lat s1 s2 Hg HQ lon Hlon. eapply warned_grows; eauto.
  - intros lat [] s1 _ Hok1.
    edestruct (for_counter_collect (λ lon st, warned path_join fs dataDir lat lon st)
             (λ _ (u : ()), u) (λ lon _, preloadTile path_join fs dataDir lat lon)
             _ _ _ lons Hlons (warned_grows lat)) as (s2 & H & Hok2 & Hg2 & Hw2);
      [ | exact Hok1 | exists s2; rewrite foldl_unit in H; by rewrite H ].
    intros lon [] s2 _ Hok2. by apply preloadTile_spec.
Qed.

Lemma sampleRegion_spec (bbox : BoundingBox) (width height : number) (n : nat) (st : State)
    (rows cols : list Z) :
  cache_ok path_join fs dataDir st →
  counter_values 0%float height false = Some rows →
  counter_values 0%float width false = Some cols →
  ∃ st', sampleRegion path_join fs dataDir bbox width height (replicate n 0) st
         = (Returns (region_pure path_join fs dataDir bbox (default 0 (ceil_int width)) rows cols n), st')
         ∧ cache_ok path_join fs dataDir st' ∧ grows st st'.
Proof.
  intros Hok Hrows Hcols. unfold sampleRegion, region_pure.
  edestruct (for_counter_collect (λ _ _, True)
           (λ row acc, foldl (λ acc col,
              cell_pure path_join fs dataDir bbox (default 0 (ceil_int width)) row col acc) acc cols)
           (sampleRow path_join fs dataDir bbox width) _ _ _ rows Hrows) as (st' & H & Hok' & Hg & _);
    [done | | exact Hok | by exists st'].
  intros row acc s1 _ Hok1. unfold sampleRow.
  edestruct (for_counter_collect (λ _ _, True)
           (λ col acc, cell_pure path_join fs dataDir bbox (default 0 (ceil_int width)) row col acc)
           (sampleCell path_join fs dataDir bbox (default 0 (ceil_int width)) row)
           _ _ _ cols Hcols) as (s2 & H & Hok2 & Hg2 & _);
    [done | | exact Hok1 | by exists s2].
  intros col acc' s2 _ Hok2.
  destruct (sampleCell_spec bbox (default 0 (ceil_int width)) row col acc' s2 Hok2)
    as (s3 & Hcell & Hok3 & Hg3).
  by exists s3.
Qed.

Lemma loadBoundingBox_spec (bbox : BoundingBox) (st : State) (lats lons rows cols : list Z)
    (n : nat) :
  let width := Math_ceil ((east bbox - west bbox) / arcSecond)%float in
  let height := Math_ceil ((north bbox - south bbox) / arcSecond)%float in
  let acc := region_pure path_join fs dataDir bbox (default 0 (ceil_int width)) rows cols n in
  cache_ok path_join fs dataDir st →
  counter_values (Math_floor (south bbox)) (Math_floor (north bbox)) true = Some lats →
  counter_values (Math_floor (west bbox)) (Math_floor (east bbox)) true = Some lons →
  counter_values 0%float height false = Some rows →
  counter_values 0%float width false = Some cols →
  Int16Array_length width height = Some n →
  ∃ st',
    loadBoundingBox path_join fs dataDir bbox st
    = (Returns {| width := width; height := height;
                  minLat := south bbox; maxLat := north bbox;
                  minLon := west bbox; maxLon := east bbox;
                  minElevation := acc_minElev acc; maxElevation := acc_maxElev acc;
                  data := acc_data acc |}, st')
    ∧ cache_ok path_join fs dataDir st' ∧ grows st st'
    ∧ ∀ lat, lat ∈ lats → ∀ lon, lon ∈ lons → warned path_join fs dataDir lat lon st'.
Proof.
  intros width height acc Hok Hlats Hlons Hrows Hcols Hn.
  unfold loadBoundingBox.
  destruct (loadTiles_spec bbox st lats lons Hok Hlats Hlons)
    as (st1 & Htiles & Hok1 & Hg1 & Hwarn).
  erewrite bind_returns by exact Htiles.
  destruct (print_spec (BoundingBoxSize width height) st1 Hok1) as (st2 & Hp2 & Hok2 & Hg2 & _).
  erewrite bind_returns by exact Hp2.
  unfold new_Int16Array. fold width height. rewrite Hn.
  erewrite bind_returns by reflexivity.
  destruct (sampleRegion_spec bbox width height n st2 rows cols Hok2 Hrows Hcols)
    as (st3 & Hloops & Hok3 & Hg3).
  erewrite bind_returns by exact Hloops. fold acc.
  destruct (print_spec (ElevationRange (acc_minElev acc) (acc_maxElev acc)) st3 Hok3)
    as (st4 & Hp4 & Hok4 & Hg4 & _).
  erewrite bind_returns by exact Hp4.
  exists st4. split; [done|]. split; [done|].
  split; [eauto using grows_trans|].
  intros lat Hlat lon Hlon. eapply warned_grows; [|by apply Hwarn].
  eauto using grows_trans.
Qed.


(** *** The sampling loops as folds *)

Lemma store_length (d : list Z) (i : Z) (v : option Z) :
  List.length (store d i v) = List.length d.
Proof. unfold store. destruct (i <? 0); [done | apply length_insert]. Qed.

Lemma store_lookup_ne (d : list Z) (i j : Z) (v : option Z) :
  i ≠ j → 0 <= j → store d i v !! Z.to_nat j = d !! Z.to_nat j.
Proof.
  intros Hne Hj. unfold store. destruct (Z.ltb_spec i 0); [done|].
  apply list_lookup_insert_ne. lia.
Qed.

Lemma store_lookup_eq (d : list Z) (i : Z) (v : option Z) :
  0 <= i < Z.of_nat (List.length d) →
  store d i v !! Z.to_nat i = Some (ToInt16 (default 0 v)).
Proof.
  intros Hi. unfold store. destruct (Z.ltb_spec i 0); [lia|].
  apply list_lookup_insert_eq. lia.
Qed.

Section Region.
Variables (bbox : BoundingBox) (w : Z).

Local Notation "'row_acc'" := (SrtmSpec.row_acc path_join fs dataDir bbox w).
Local Notation "'rows_acc'" := (SrtmSpec.rows_acc path_join fs dataDir bbox w).

Lemma cell_pure_data (row col : Z) (acc : Acc) :
  acc_data (cell_pure path_join fs dataDir bbox w row col acc)
  = store (acc_data acc) (row * w + col) (stored path_join fs dataDir bbox arcSecond row col).
Proof.
  unfold cell_pure, stored. destruct (sample_of path_join fs dataDir _ _) as [elev|]; [|done].
  by destruct (above_nodata elev).
Qed.

Lemma row_acc_length (row : Z) (cols : list Z) : ∀ acc,
  List.length (acc_data (row_acc row acc cols)) = List.length (acc_data acc).
Proof.
  induction cols as [|col cols IH]; intros acc; [done|].
  cbn [SrtmSpec.row_acc foldl]. fold (row_acc row (cell_pure path_join fs dataDir bbox w row col acc) cols).
  by rewrite IH, cell_pure_data, store_length.
Qed.

Lemma rows_acc_length (rows cols : list Z) : ∀ acc,
  List.length (acc_data (rows_acc acc rows cols)) = List.length (acc_data acc).
Proof.
  induction rows as [|row rows IH]; intros acc; [done|].
  cbn [SrtmSpec.rows_acc foldl]. fold (rows_acc (row_acc row acc cols) rows cols).
  by rewrite IH, row_acc_length.
Qed.

Lemma row_acc_other (row j : Z) (cols : list Z) : ∀ acc,
  (∀ col, col ∈ cols → row * w + col ≠ j) → 0 <= j →
  acc_data (row_acc row acc cols) !! Z.to_nat j = acc_data acc !! Z.to_nat j.
Proof.
  induction cols as [|col cols IH]; intros acc Hne Hj; [done|].
  cbn [SrtmSpec.row_acc foldl]. fold (row_acc row (cell_pure path_join fs dataDir bbox w row col acc) cols).
  rewrite IH by (done || intros c Hc; apply Hne; by right).
  rewrite cell_pure_data. apply store_lookup_ne; [|done]. apply Hne. by left.
Qed.

Lemma row_acc_hit (row col : Z) (cols : list Z) : ∀ acc,
  NoDup cols → col ∈ cols → 0 <= row * w + col < Z.of_nat (List.length (acc_data acc)) →
  acc_data (row_acc row acc cols) !! Z.to_nat (row * w + col)
  = Some (ToInt16 (default 0 (stored path_join fs dataDir bbox arcSecond row col))).
Proof.
  induction cols as [|c cols IH]; intros acc Hnd Hin Hi.
  - by apply elem_of_nil in Hin.
  - cbn [SrtmSpec.row_acc foldl]. fold (row_acc row (cell_pure path_join fs dataDir bbox w row c acc) cols).
    apply NoDup_cons in Hnd as [Hc Hnd].
    destruct (decide (c = col)) as [->|Hne].
    + rewrite row_acc_other by (lia || intros c' Hc' ?; assert (c' = col) by lia; by subst).
      rewrite cell_pure_data. by apply store_lookup_eq.
    + apply IH; [done | | by rewrite cell_pure_data, store_length].
      apply elem_of_cons in Hin as [->|]; done.
Qed.

Lemma rows_acc_other (j : Z) (rows cols : list Z) : ∀ acc,
  (∀ row col, row ∈ rows → col ∈ cols → row * w + col ≠ j) → 0 <= j →
  acc_data (rows_acc acc rows cols) !! Z.to_nat j = acc_data acc !! Z.to_nat j.
Proof.
  induction rows as [|row rows IH]; intros acc Hne Hj; [done|].
  cbn [SrtmSpec.rows_acc foldl]. fold (rows_acc (row_acc row acc cols) rows cols).
  rewrite IH; [| |done].
  - apply row_acc_other; [|done]. intros c Hc. apply Hne; [by left | done].
  - intros r c Hr Hc. apply Hne; [by right | done].
Qed.

Lemma rows_acc_hit (row col : Z) (rows cols : list Z) : ∀ acc,
  NoDup rows → NoDup cols → (∀ c, c ∈ cols → 0 <= c < w) →
  row ∈ rows → col ∈ cols →
  0 <= row * w + col < Z.of_nat (List.length (acc_data acc)) →
  acc_data (rows_acc acc rows cols) !! Z.to_nat (row * w + col)
  = Some (ToInt16 (default 0 (stored path_join fs dataDir bbox arcSecond row col))).
Proof.
  induction rows as [|r rows IH]; intros acc Hnd Hndc Hcols Hr Hc Hi.
  - by apply elem_of_nil in Hr.
  - cbn [SrtmSpec.rows_acc foldl]. fold (rows_acc (row_acc r acc cols) rows cols).
    apply NoDup_cons in Hnd as [Hr' Hnd].
    destruct (decide (r = row)) as [->|Hne].
    + rewrite rows_acc_other; [by apply row_acc_hit | | lia].
      intros r' c' Hr'' Hc' Heq.
      assert (r' ≠ row) by (intros ->; done).
      pose proof (Hcols _ Hc'). pose proof (Hcols _ Hc). nia.
    + apply IH; [done | done | done | | done | by rewrite row_acc_length].
      apply elem_of_cons in Hr as [->|]; done.
Qed.

Lemma cell_pure_min (row col : Z) (acc : Acc) :
  acc_minElev (cell_pure path_join fs dataDir bbox w row col acc)
  = foldl (λ m e, Math_min m (of_Z e)) (acc_minElev acc) (ranged path_join fs dataDir bbox arcSecond [row] [col])
  ∧ acc_maxElev (cell_pure path_join fs dataDir bbox w row col acc)
  = foldl (λ m e, Math_max m (of_Z e)) (acc_maxElev acc) (ranged path_join fs dataDir bbox arcSecond [row] [col]).
Proof.
  unfold cell_pure, ranged. cbn [mbind list_bind app]. rewrite !app_nil_r.
  destruct (sample_of path_join fs dataDir _ _) as [elev|]; [|done].
  by destruct (above_nodata elev).
Qed.

Lemma ranged_cons_col (row col : Z) (cols : list Z) :
  ranged path_join fs dataDir bbox arcSecond [row] (col :: cols)
  = ranged path_join fs dataDir bbox arcSecond [row] [col] ++ ranged path_join fs dataDir bbox arcSecond [row] cols.
Proof. unfold ranged. cbn [mbind list_bind app]. by rewrite !app_nil_r. Qed.

Lemma ranged_cons_row (row : Z) (rows cols : list Z) :
  ranged path_join fs dataDir bbox arcSecond (row :: rows) cols
  = ranged path_join fs dataDir bbox arcSecond [row] cols ++ ranged path_join fs dataDir bbox arcSecond rows cols.
Proof. unfold ranged. cbn [mbind list_bind app]. by rewrite !app_nil_r. Qed.

Lemma row_acc_range (row : Z) (cols : list Z) : ∀ acc,
  acc_minElev (row_acc row acc cols)
  = foldl (λ m e, Math_min m (of_Z e)) (acc_minElev acc) (ranged path_join fs dataDir bbox arcSecond [row] cols)
  ∧ acc_maxElev (row_acc row acc cols)
  = foldl (λ m e, Math_max m (of_Z e)) (acc_maxElev acc) (ranged path_join fs dataDir bbox arcSecond [row] cols).
Proof.
  induction cols as [|col cols IH]; intros acc; [done|].
  cbn [SrtmSpec.row_acc foldl]. fold (row_acc row (cell_pure path_join fs dataDir bbox w row col acc) cols).
  rewrite ranged_cons_col, !foldl_app.
  destruct (IH (cell_pure path_join fs dataDir bbox w row col acc)) as [-> ->].
  by destruct (cell_pure_min row col acc) as [-> ->].
Qed.

Lemma rows_acc_range (rows cols : list Z) : ∀ acc,
  acc_minElev (rows_acc acc rows cols)
  = foldl (λ m e, Math_min m (of_Z e)) (acc_minElev acc) (ranged path_join fs dataDir bbox arcSecond rows cols)
  ∧ acc_maxElev (rows_acc acc rows cols)
  = foldl (λ m e, Math_max m (of_Z e)) (acc_maxElev acc) (ranged path_join fs dataDir bbox arcSecond rows cols).
Proof.
  induction rows as [|row rows IH]; intros acc; [done|].
  cbn [SrtmSpec.rows_acc foldl]. fold (rows_acc (row_acc row acc cols) rows cols).
  rewrite ranged_cons_row, !foldl_app.
  destruct (IH (row_acc row acc cols)) as [-> ->].
  by destruct (row_acc_range row cols acc) as [-> ->].
Qed.

End Region.

Lemma counter_values_zero (bound : number) (ks : list Z) (k : Z) :
  counter_values 0%float bound false = Some ks → k ∈ ks →
  ∃ c, ceil_int bound = Some c ∧ ks = seqZ 0 c ∧ 0 <= k < c.
Proof.
  unfold counter_values. destruct (0 <? bound)%float; cbn [negb].
  - change (to_int 0%float) with (Some 0).
    destruct (ceil_int bound) as [c|]; [|done].
    destruct (_ && _); [|done]. intros [= <-] Hk.
    exists c. rewrite Z.sub_0_r in *. split; [done|]. split; [done|].
    apply elem_of_seqZ in Hk. lia.
  - intros [= <-] Hk. by apply elem_of_nil in Hk.
Qed.

Lemma counter_values_NoDup (start bound : number) (inclusive : bool) (ks : list Z) :
  counter_values start bound inclusive = Some ks → NoDup ks.
Proof.
  unfold counter_values. destruct (negb _).
  - intros [= <-]. apply NoDup_nil_2.
  - destruct (to_int start); [|done].
    destruct (if inclusive then _ else _); [|done].
    destruct (_ && _); [|done]. intros [= <-]. apply NoDup_seqZ.
Qed.

Lemma Int16Array_length_cells (width height : number) (n : nat) (w h : Z) :
  Int16Array_length width height = Some n →
  ceil_int width = Some w → ceil_int height = Some h →
  0 <= w * h ∧ n = Z.to_nat (w * h).
Proof.
  unfold Int16Array_length. intros Hn Hw Hh. rewrite Hw, Hh in Hn.
  destruct (Z.leb_spec 0 (w * h)); [|done].
  destruct (_ <? _); [|done]. by injection Hn as <-.
Qed.


Lemma loadBoundingBox_cells (bbox : BoundingBox) (st : State) (lats lons rows cols : list Z)
    (n : nat) :
  cache_ok path_join fs dataDir st → region_grid bbox lats lons rows cols n →
  ∃ ed st',
    loadBoundingBox path_join fs dataDir bbox st = (Returns ed, st')
    ∧ cache_ok path_join fs dataDir st' ∧ grows st st'
    ∧ (∀ lat, lat ∈ lats → ∀ lon, lon ∈ lons → warned path_join fs dataDir lat lon st')
    ∧ width ed = Math_ceil ((east bbox - west bbox) / arcSecond)%float
    ∧ height ed = Math_ceil ((north bbox - south bbox) / arcSecond)%float
    ∧ List.length (data ed) = n
    ∧ (∀ row col, row ∈ rows → col ∈ cols →
         cell ed row col = Some (ToInt16 (default 0 (stored path_join fs dataDir bbox arcSecond row col))))
    ∧ minElevation ed
      = foldl (λ m e, Math_min m (of_Z e)) infinity (ranged path_join fs dataDir bbox arcSecond rows cols)
    ∧ maxElevation ed
      = foldl (λ m e, Math_max m (of_Z e)) neg_infinity
          (ranged path_join fs dataDir bbox arcSecond rows cols).
Proof.
  intros Hok (Hlats & Hlons & Hrows & Hcols & Hn).
  destruct (loadBoundingBox_spec bbox st lats lons rows cols n Hok Hlats Hlons Hrows Hcols Hn)
    as (st' & Hrun & Hok' & Hg & Hwarn).
  eexists _, st'. split; [exact Hrun|]. split; [done|]. split; [done|]. split; [done|].
  cbn [width height data minElevation maxElevation].
  split; [done|]. split; [done|].
  set (wd := Math_ceil ((east bbox - west bbox) / arcSecond)%float) in *.
  set (ht := Math_ceil ((north bbox - south bbox) / arcSecond)%float) in *.
  unfold region_pure.
  split; [rewrite rows_acc_length; apply length_replicate|].
  split; [|apply rows_acc_range].
  intros row col Hrow Hcol. unfold cell. cbn [width data].
  destruct (counter_values_zero _ _ _ Hrows Hrow) as (h & Hh & _ & Hrow').
  destruct (counter_values_zero _ _ _ Hcols Hcol) as (w & Hw & Hcols' & Hcol').
  destruct (Int16Array_length_cells _ _ _ _ _ Hn Hw Hh) as [Hwh ->].
  rewrite Hw. change (default 0 (Some w)) with w.
  apply rows_acc_hit; [by eapply counter_values_NoDup | by eapply counter_values_NoDup | | done
                      | done |].
  - intros c Hc. destruct (counter_values_zero _ _ _ Hcols Hc) as (w' & Hw' & _ & ?).
    rewrite Hw in Hw'. injection Hw' as <-. done.
  - cbn [acc_data]. rewrite length_replicate, Z2Nat.id by done.
    assert (0 <= row * w) by (apply Z.mul_nonneg_nonneg; lia).
    assert ((row + 1) * w <= h * w) by (apply Z.mul_le_mono_nonneg_r; lia).
    lia.
Qed.

End TileStore.

Section TileStoreClaims.
Variable path_join : list string → string.
Variable fs : string → option Buffer.
Variable dataDir : string.

Lemma cache_ok_start : cache_ok path_join fs dataDir Examples.start.
Proof. intros tileName tile H. cbn in H. by rewrite lookup_empty in H. Qed.

Lemma stored_missing (bbox : BoundingBox) (step : number) (row col : Z) :
  sample_of path_join fs dataDir (north bbox - of_Z row * step)%float
    (west bbox + of_Z col * step)%float = None →
  stored path_join fs dataDir bbox step row col = Some 0.
Proof. unfold stored. by intros ->. Qed.

Lemma store_zero (n : nat) (i : Z) : store (replicate n 0) i (Some 0) = replicate n 0.
Proof. unfold store. destruct (i <? 0); [done | apply insert_replicate]. Qed.

(** When every query throws, the sampling loops leave their variables as they
    initialised them. *)
Lemma rows_acc_all_missing (bbox : BoundingBox) (w : Z) (n : nat) (lo hi : number)
    (rows cols : list Z) :
  (∀ row col, row ∈ rows → col ∈ cols →
     sample_of path_join fs dataDir (north bbox - of_Z row * arcSecond)%float
       (west bbox + of_Z col * arcSecond)%float = None) →
  rows_acc path_join fs dataDir bbox w
    {| acc_data := replicate n 0; acc_minElev := lo; acc_maxElev := hi |} rows cols
  = {| acc_data := replicate n 0; acc_minElev := lo; acc_maxElev := hi |}.
Proof.
  induction rows as [|row rows IH]; intros Hmiss; [done|].
  cbn [rows_acc foldl].
  assert (Hrow : row_acc path_join fs dataDir bbox w row
            {| acc_data := replicate n 0; acc_minElev := lo; acc_maxElev := hi |} cols
          = {| acc_data := replicate n 0; acc_minElev := lo; acc_maxElev := hi |}).
  { assert (Hcols : ∀ col, col ∈ cols →
              sample_of path_join fs dataDir (north bbox - of_Z row * arcSecond)%float
                (west bbox + of_Z col * arcSecond)%float = None)
      by (intros col Hcol; apply Hmiss; [by left | done]).
    clear IH Hmiss. induction cols as [|col cols IHc]; [done|].
    cbn [row_acc foldl]. unfold cell_pure at 2.
    rewrite (Hcols col) by (by left). cbn [acc_data acc_minElev acc_maxElev].
    rewrite store_zero. apply IHc. intros c Hc. apply Hcols. by right. }
  rewrite Hrow. apply IH. intros r c Hr Hc. apply Hmiss; [by right | done].
Qed.

(** X21: the policy for the tile [getTileName] names.  A point query throws
    [SRTM tile not found] when the file under the name [getTileName] gives
    for the point is absent; a region query returns, has logged a warning for
    every tile of its tile loops that does not load, and holds 0 in every
    cell whose point query throws. *)
Theorem missing_tile_policy (bbox : BoundingBox) (st : State) (lats lons rows cols : list Z)
    (n : nat) (lat lon : number) :
  cache_ok path_join fs dataDir st → region_grid bbox lats lons rows cols n →
  (fs (path_join [dataDir; getTileName lat lon +:+ ".hgt"]) = None →
   getElevation path_join fs dataDir lat lon st
   = (Throws (Error ("SRTM tile not found: "
                     +:+ path_join [dataDir; getTileName lat lon +:+ ".hgt"])), st))
  ∧ ∃ ed st',
      loadBoundingBox path_join fs dataDir bbox st = (Returns ed, st')
      ∧ (∀ tileLat tileLon, tileLat ∈ lats → tileLon ∈ lons →
           tile_of path_join fs dataDir (getTileName (of_Z tileLat) (of_Z tileLon)) = None →
           CouldNotLoadTile (getTileName (of_Z tileLat) (of_Z tileLon)) ∈ console st')
      ∧ (∀ row col, row ∈ rows → col ∈ cols →
           sample_of path_join fs dataDir (north bbox - of_Z row * arcSecond)%float
             (west bbox + of_Z col * arcSecond)%float = None →
           cell ed row col = Some 0).
Proof.
  intros Hok Hgrid. split.
  - intros Habsent. unfold getElevation, loadTile, mbind, M_bind.
    destruct (tiles st !! getTileName lat lon) as [tile|] eqn:Hcached.
    + apply Hok in Hcached. unfold tile_of in Hcached. by rewrite Habsent in Hcached.
    + by rewrite Habsent.
  - destruct (loadBoundingBox_cells path_join fs dataDir bbox st lats lons rows cols n Hok Hgrid)
      as (ed & st' & Hrun & _ & _ & Hwarn & _ & _ & _ & Hcells & _).
    exists ed, st'. split; [done|]. split.
    + intros tileLat tileLon Hlat Hlon. by apply Hwarn.
    + intros row col Hrow Hcol Hmiss.
      rewrite (Hcells row col Hrow Hcol), (stored_missing _ _ _ _ Hmiss). done.
Qed.

(** C10: when every sample of a region query fails to resolve, the field
    returned holds 0 in all its cells, and its elevation range is the
    untouched pair +Infinity, -Infinity. *)
Theorem all_samples_missing (bbox : BoundingBox) (st : State) (lats lons rows cols : list Z)
    (n : nat) :
  cache_ok path_join fs dataDir st → region_grid bbox lats lons rows cols n →
  (∀ row col, row ∈ rows → col ∈ cols →
     sample_of path_join fs dataDir (north bbox - of_Z row * arcSecond)%float
       (west bbox + of_Z col * arcSecond)%float = None) →
  ∃ ed st',
    loadBoundingBox path_join fs dataDir bbox st = (Returns ed, st')
    ∧ data ed = replicate n 0
    ∧ minElevation ed = infinity
    ∧ maxElevation ed = neg_infinity.
Proof.
  intros Hok (Hlats & Hlons & Hrows & Hcols & Hn) Hmiss.
  destruct (loadBoundingBox_spec path_join fs dataDir bbox st lats lons rows cols n
              Hok Hlats Hlons Hrows Hcols Hn) as (st' & Hrun & _).
  eexists _, st'. split; [exact Hrun|].
  cbn [data minElevation maxElevation]. unfold region_pure.
  by rewrite rows_acc_all_missing.
Qed.

End TileStoreClaims.

(** * Concrete runs of the tile store *)

Lemma region_grid_edge : region_grid Examples.edge [0] [0; 1] [0] [0; 1] 2.
Proof. unfold region_grid. cbv zeta. repeat split; vm_compute; reflexivity. Qed.

Lemma noFiles_sample (path_join : list string → string) (dataDir : string)
    (lat lon : number) :
  sample_of path_join Examples.noFiles dataDir lat lon = None.
Proof. reflexivity. Qed.

Lemma missing_tile_policy_witness :
  ∃ ed st',
    loadBoundingBox Examples.slashes (Examples.oneTile (Examples.flatBuffer x00 x96)) "srtm" Examples.edge
      Examples.start = (Returns ed, st')
    ∧ CouldNotLoadTile "N00E001" ∈ console st'
    ∧ cell ed 0 1 = Some 0.
Proof.
  destruct (missing_tile_policy Examples.slashes (Examples.oneTile (Examples.flatBuffer x00 x96)) "srtm"
              Examples.edge Examples.start [0] [0; 1] [0] [0; 1] 2 0.5%float 1.5%float
              (cache_ok_start _ _ _) region_grid_edge)
    as [_ (ed & st' & Hrun & Hwarn & Hcell)].
  exists ed, st'. split; [exact Hrun|]. split.
  - apply (Hwarn 0 1); [by left | by right; left | vm_compute; reflexivity].
  - apply Hcell; [by left | by right; left | vm_compute; reflexivity].
Defined.

(** C6, on the code: the point at latitude -0.5 and longitude 28.5 lies in
    the tile of the floors -1 and 28, S01E028, and [getTileName] names
    S00E028 (the defect of C5).  With the file of S01E028 absent and that of
    S00E028 present, the point query does not fail: it returns 150, a sample
    of S00E028; the region query over a box at that point warns that S01E028
    could not be loaded and holds 150, not 0, in both cells.  With the file
    of S01E028 present and that of S00E028 absent, the point query throws and
    the region query holds 0 in both cells, without a warning. *)
Theorem absent_tile_answered :
  floor_int (-0.5)%float = Some (-1) ∧ floor_int 28.5%float = Some 28
  ∧ tileNameOfFloor (-1) 28 = "S01E028"
  ∧ Examples.tileNamed "S00E028" (Examples.flatBuffer x00 x96)
      (Examples.slashes ["srtm"; "S01E028.hgt"]) = None
  ∧ fst (getElevation Examples.slashes
           (Examples.tileNamed "S00E028" (Examples.flatBuffer x00 x96)) "srtm"
           (-0.5)%float 28.5%float Examples.start)
    = Returns (Some 150)
  ∧ fst (loadBoundingBox Examples.slashes
           (Examples.tileNamed "S00E028" (Examples.flatBuffer x00 x96)) "srtm"
           Examples.southern Examples.start)
    = Returns {| width := 2%float; height := 1%float;
                 minLat := south Examples.southern; maxLat := north Examples.southern;
                 minLon := west Examples.southern; maxLon := east Examples.southern;
                 minElevation := 150%float; maxElevation := 150%float;
                 data := [150; 150] |}
  ∧ console (snd (loadBoundingBox Examples.slashes
                (Examples.tileNamed "S00E028" (Examples.flatBuffer x00 x96)) "srtm"
                Examples.southern Examples.start))
    = [ CouldNotLoadTile "S01E028"; BoundingBoxSize 2%float 1%float;
        LoadedTile "S00E028"; ElevationRange 150%float 150%float ]
  ∧ fst (getElevation Examples.slashes
           (Examples.tileNamed "S01E028" (Examples.flatBuffer x00 x96)) "srtm"
           (-0.5)%float 28.5%float Examples.start)
    = Throws (Error "SRTM tile not found: srtm/S00E028.hgt")
  ∧ fst (loadBoundingBox Examples.slashes
           (Examples.tileNamed "S01E028" (Examples.flatBuffer x00 x96)) "srtm"
           Examples.southern Examples.start)
    = Returns {| width := 2%float; height := 1%float;
                 minLat := south Examples.southern; maxLat := north Examples.southern;
                 minLon := west Examples.southern; maxLon := east Examples.southern;
                 minElevation := infinity; maxElevation := neg_infinity;
                 data := [0; 0] |}
  ∧ console (snd (loadBoundingBox Examples.slashes
                (Examples.tileNamed "S01E028" (Examples.flatBuffer x00 x96)) "srtm"
                Examples.southern Examples.start))
    = [ LoadedTile "S01E028"; BoundingBoxSize 2%float 1%float;
        ElevationRange infinity neg_infinity ].
Proof. repeat split; vm_compute; reflexivity. Qed.

Lemma all_samples_missing_witness :
  ∃ ed st',
    loadBoundingBox Examples.slashes Examples.noFiles "srtm" Examples.edge Examples.start = (Returns ed, st')
    ∧ data ed = [0; 0]
    ∧ minElevation ed = infinity
    ∧ maxElevation ed = neg_infinity.
Proof.
  apply (all_samples_missing Examples.slashes Examples.noFiles "srtm" Examples.edge Examples.start
           [0] [0; 1] [0] [0; 1] 2 (cache_ok_start _ _ _) region_grid_edge).
  intros row col _ _. apply noFiles_sample.
Defined.

(** C7, on the code: a region query over two samples, the first of which is
    the no-data value -32768 in its tile and the second 100 m.  The query
    substitutes 0 for the first sample and reports the range 0..100: the
    substituted value has entered the minimum, where the only valid sample is
    100. *)
Theorem nodata_sample_enters_range :
  (parseTile Examples.holeBuffer ≫= λ tile, tile_get tile 6483600%float) = Some (-32768)
  ∧ fst (loadBoundingBox Examples.slashes (Examples.oneTile Examples.holeBuffer) "srtm" Examples.middle
           Examples.start)
    = Returns {| width := 2%float; height := 1%float;
                 minLat := south Examples.middle; maxLat := north Examples.middle;
                 minLon := west Examples.middle; maxLon := east Examples.middle;
                 minElevation := 0%float; maxElevation := 100%float;
                 data := [0; 100] |}.
Proof. split; vm_compute; reflexivity. Qed.

(** C5, on the code: at latitude -0.5 the integer floor is -1, whose tile is
    S01, and [getTileName] answers S00. *)
Theorem south_fraction_tile_name :
  floor_int (-0.5)%float = Some (-1)
  ∧ floor_int 28.5%float = Some 28
  ∧ tileNameOfFloor (-1) 28 = "S01E028"
  ∧ getTileName (-0.5)%float 28.5%float = "S00E028".
Proof. repeat split; vm_compute; reflexivity. Qed.

(** The spec's examples, latitude 47.3 and longitude 28.9 (the doubles nearest
    to them). *)
Example tile_name_moldova :
  getTileName 0x1.7a66666666666p+5%float 0x1.ce66666666666p+4%float = "N47E028".
Proof. vm_compute. reflexivity. Qed.

(** On whole degrees the name is the one the floors encode. *)
Lemma tile_name_whole_degrees :
  forallb (λ lat, forallb (λ lon,
    String.eqb (getTileName (of_Z lat) (of_Z lon)) (tileNameOfFloor lat lon))
    (seqZ (-180) 360)) (seqZ (-90) 180) = true.
Proof. vm_compute. reflexivity. Qed.

(** * The height field builder *)

Import Heightmap HeightmapSpec.

Section Builder.
Variable path_join : list string → string.
Variable fs : string → option Srtm.Buffer.
Variable dataDir : string.

Lemma build_sampleCell_spec (config : TerrainConfig) (step : number) (z x : Z) (acc : Acc)
    (st : State) :
  cache_ok path_join fs dataDir st →
  ∃ st', sampleCell path_join fs dataDir config step z x acc st
         = (Returns (cell_pure path_join fs dataDir config step z x acc), st')
         ∧ cache_ok path_join fs dataDir st' ∧ grows st st'.
Proof.
  intros Hok. unfold sampleCell, cell_pure, try_catch.
  pose proof (getElevation_spec path_join fs dataDir
                (Srtm.north (bbox config) - of_Z z * step)%float
                (Srtm.west (bbox config) + of_Z x * step)%float st Hok) as Hget.
  destruct (sample_of path_join fs dataDir _ _) as [elev|].
  - destruct Hget as (st' & Hget & Hok' & Hg). exists st'.
    unfold mbind, M_bind. rewrite Hget.
    destruct (Srtm.above_nodata elev); done.
  - destruct Hget as (e & Hget). exists st.
    unfold mbind, M_bind. rewrite Hget. split; [done|]. split; [done | apply grows_refl].
Qed.

Lemma build_sampleRow_spec (config : TerrainConfig) (step width : number) (cols : list Z) (z : Z)
    (acc : Acc) (st : State) :
  counter_values 0%float width false = Some cols →
  cache_ok path_join fs dataDir st →
  ∃ st', sampleRow path_join fs dataDir config step width z acc st
         = (Returns (row_pure path_join fs dataDir config step cols z acc), st')
         ∧ cache_ok path_join fs dataDir st' ∧ grows st st'.
Proof.
  intros Hcols Hok. unfold sampleRow, row_pure.
  edestruct (for_counter_collect path_join fs dataDir (λ _ _, True)
           (λ x acc, cell_pure path_join fs dataDir config step z x acc)
           (sampleCell path_join fs dataDir config step z)
           _ _ _ cols Hcols) as (s2 & H & Hok2 & Hg2 & _);
    [done | | exact Hok | ].
  - intros x acc' s2 _ Hok2.
    destruct (build_sampleCell_spec config step z x acc' s2 Hok2) as (s3 & Hcell & Hok3 & Hg3).
    by exists s3.
  - exists s2. erewrite bind_returns by exact H. done.
Qed.

Lemma build_sampleRegion_spec (config : TerrainConfig) (step width length : number)
    (rows cols : list Z) (st : State) :
  counter_values 0%float length false = Some rows →
  counter_values 0%float width false = Some cols →
  cache_ok path_join fs dataDir st →
  ∃ st', sampleRegion path_join fs dataDir config step width length st
         = (Returns (region_pure path_join fs dataDir config step rows cols), st')
         ∧ cache_ok path_join fs dataDir st' ∧ grows st st'.
Proof.
  intros Hrows Hcols Hok. unfold sampleRegion, region_pure.
  edestruct (for_counter_collect path_join fs dataDir (λ _ _, True)
           (λ z acc, row_pure path_join fs dataDir config step cols z acc)
           (sampleRow path_join fs dataDir config step width)
           _ _ _ rows Hrows) as (s2 & H & Hok2 & Hg2 & _);
    [done | | exact Hok | by exists s2].
  intros z acc s1 _ Hok1.
  destruct (build_sampleRow_spec config step width cols z acc s1 Hcols Hok1) as (s2 & ? & ? & ?).
  by exists s2.
Qed.


Section Folds.
Variables (config : TerrainConfig) (step : number).

Lemma build_cell_fields (z x : Z) (acc : Acc) :
  let acc' := cell_pure path_join fs dataDir config step z x acc in
  acc_row acc' = acc_row acc ++ [pushed path_join fs dataDir config step z x]
  ∧ acc_heights acc' = acc_heights acc
  ∧ acc_minElev acc'
    = foldl (λ m e, Math_min m (of_Z e)) (acc_minElev acc)
        (ranged path_join fs dataDir (bbox config) step [z] [x])
  ∧ acc_maxElev acc'
    = foldl (λ m e, Math_max m (of_Z e)) (acc_maxElev acc)
        (ranged path_join fs dataDir (bbox config) step [z] [x]).
Proof.
  unfold cell_pure, pushed, ranged. cbn [mbind list_bind app]. rewrite !app_nil_r.
  destruct (sample_of path_join fs dataDir _ _) as [elev|]; [|done].
  by destruct (Srtm.above_nodata elev).
Qed.

Lemma build_ranged_cons_col (bb : Srtm.BoundingBox) (z x : Z) (cols : list Z) :
  ranged path_join fs dataDir bb step [z] (x :: cols)
  = ranged path_join fs dataDir bb step [z] [x] ++ ranged path_join fs dataDir bb step [z] cols.
Proof. unfold ranged. cbn [mbind list_bind app]. by rewrite !app_nil_r. Qed.

Lemma build_ranged_cons_row (bb : Srtm.BoundingBox) (z : Z) (rows cols : list Z) :
  ranged path_join fs dataDir bb step (z :: rows) cols
  = ranged path_join fs dataDir bb step [z] cols ++ ranged path_join fs dataDir bb step rows cols.
Proof. unfold ranged. cbn [mbind list_bind app]. by rewrite !app_nil_r. Qed.

Lemma build_cells_fold (z : Z) (cols : list Z) : ∀ acc,
  let acc' := foldl (λ acc x, cell_pure path_join fs dataDir config step z x acc) acc cols in
  acc_row acc' = acc_row acc ++ map (pushed path_join fs dataDir config step z) cols
  ∧ acc_heights acc' = acc_heights acc
  ∧ acc_minElev acc'
    = foldl (λ m e, Math_min m (of_Z e)) (acc_minElev acc)
        (ranged path_join fs dataDir (bbox config) step [z] cols)
  ∧ acc_maxElev acc'
    = foldl (λ m e, Math_max m (of_Z e)) (acc_maxElev acc)
        (ranged path_join fs dataDir (bbox config) step [z] cols).
Proof.
  induction cols as [|x cols IH]; intros acc.
  - cbn. by rewrite app_nil_r.
  - cbn [foldl]. cbv zeta in *.
    destruct (IH (cell_pure path_join fs dataDir config step z x acc)) as (-> & -> & -> & ->).
    destruct (build_cell_fields z x acc) as (-> & -> & -> & ->).
    rewrite (build_ranged_cons_col _ z x cols), !foldl_app, <- app_assoc. done.
Qed.

Lemma build_rows_fold (rows cols : list Z) : ∀ acc,
  let acc' := foldl (λ acc z, row_pure path_join fs dataDir config step cols z acc) acc rows in
  acc_heights acc'
  = acc_heights acc ++ map (λ z, map (pushed path_join fs dataDir config step z) cols) rows
  ∧ acc_minElev acc'
    = foldl (λ m e, Math_min m (of_Z e)) (acc_minElev acc)
        (ranged path_join fs dataDir (bbox config) step rows cols)
  ∧ acc_maxElev acc'
    = foldl (λ m e, Math_max m (of_Z e)) (acc_maxElev acc)
        (ranged path_join fs dataDir (bbox config) step rows cols).
Proof.
  induction rows as [|z rows IH]; intros acc.
  - cbn. by rewrite app_nil_r.
  - cbn [foldl]. cbv zeta in *.
    destruct (IH (row_pure path_join fs dataDir config step cols z acc)) as (-> & -> & ->).
    unfold row_pure. cbn [acc_heights acc_minElev acc_maxElev].
    destruct (build_cells_fold z cols
                {| acc_row := []; acc_heights := acc_heights acc;
                   acc_minElev := acc_minElev acc; acc_maxElev := acc_maxElev acc |})
      as (-> & -> & -> & ->).
    cbn [acc_row acc_heights acc_minElev acc_maxElev app].
    rewrite (build_ranged_cons_row _ z rows cols), !foldl_app, <- app_assoc. done.
Qed.

End Folds.

Lemma generateHeightmap_spec (config : TerrainConfig) (rows cols : list Z) (st : State) :
  cache_ok path_join fs dataDir st →
  counter_values 0%float (length_of config) false = Some rows →
  counter_values 0%float (width_of config) false = Some cols →
  ∃ st',
    generateHeightmap path_join fs dataDir config st
    = (Returns
         (mkHeightMap (width_of config) (length_of config)
            (map (λ z, map (λ x, level config (minElev_of path_join fs dataDir config rows cols)
                                   (pushed path_join fs dataDir config (step_of config) z x)) cols) rows)
            (baseY config)
            (baseY config
             + Math_ceil ((maxElev_of path_join fs dataDir config rows cols - minElev_of path_join fs dataDir config rows cols)
                          / scale config))%float), st')
    ∧ cache_ok path_join fs dataDir st' ∧ grows st st'.
Proof.
  intros Hok Hrows Hcols. unfold generateHeightmap.
  fold (step_of config). fold (width_of config). fold (length_of config).
  destruct (print_spec path_join fs dataDir
              (GeneratingHeightmap (width_of config) (length_of config)) st Hok)
    as (st1 & Hp1 & Hok1 & Hg1 & _).
  erewrite bind_returns by exact Hp1.
  destruct (build_sampleRegion_spec config (step_of config) (width_of config) (length_of config)
              rows cols st1 Hrows Hcols Hok1) as (st2 & Hloops & Hok2 & Hg2).
  erewrite bind_returns by exact Hloops.
  unfold region_pure.
  destruct (build_rows_fold config (step_of config) rows cols
              {| acc_row := []; acc_heights := [];
                 acc_minElev := infinity; acc_maxElev := neg_infinity |}) as (-> & -> & ->).
  cbn [acc_heights acc_minElev acc_maxElev app].
  fold (minElev_of path_join fs dataDir config rows cols). fold (maxElev_of path_join fs dataDir config rows cols).
  destruct (print_spec path_join fs dataDir
              (HeightmapElevation (minElev_of path_join fs dataDir config rows cols) (maxElev_of path_join fs dataDir config rows cols))
              st2 Hok2) as (st3 & Hp3 & Hok3 & Hg3 & _).
  erewrite bind_returns by exact Hp3.
  destruct (print_spec path_join fs dataDir
              (HeightmapYRange (baseY config)
                 (baseY config
                  + Math_ceil ((maxElev_of path_join fs dataDir config rows cols - minElev_of path_join fs dataDir config rows cols)
                               / scale config))%float)
              st3 Hok3) as (st4 & Hp4 & Hok4 & Hg4 & _).
  erewrite bind_returns by exact Hp4.
  exists st4. split; [|split; [done | eauto using grows_trans]].
  unfold mret, M_ret. do 2 f_equal. f_equal.
  rewrite List.map_map. apply List.map_ext. intros z. by rewrite List.map_map.
Qed.

End Builder.

(** * No configuration is rejected *)

Section Totality.

Lemma returns_never_throws {A : Type} (m : M A) : always_returns m → never_throws m.
Proof. intros Hm st e st' Hst. destruct (Hm st) as (a & st2 & Hr). congruence. Qed.

Lemma mret_returns {A : Type} (a : A) : always_returns (mret a : M A).
Proof. intros st. by exists a, st. Qed.

Lemma print_returns (l : line) : always_returns (print l).
Proof. intros st. by eexists _, _. Qed.

Lemma bind_always_returns {A B : Type} (m : M A) (f : A → M B) :
  always_returns m → (∀ a, always_returns (f a)) → always_returns (m ≫= f).
Proof.
  intros Hm Hf st. destruct (Hm st) as (a & st1 & Hr).
  destruct (Hf a st1) as (b & st2 & Hr2). exists b, st2.
  by rewrite (bind_returns _ _ _ _ _ Hr).
Qed.

Lemma bind_never_throws {A B : Type} (m : M A) (f : A → M B) :
  never_throws m → (∀ a, never_throws (f a)) → never_throws (m ≫= f).
Proof.
  intros Hm Hf st e st'. unfold mbind, M_bind.
  destruct (m st) as [[a|e1|] st1] eqn:Hr; [apply Hf | | done].
  by destruct (Hm st e1 st1).
Qed.

Lemma for_each_always_returns {S : Type} (ks : list Z) (body : Z → S → M S) :
  (∀ k s, always_returns (body k s)) → ∀ s, always_returns (for_each ks body s).
Proof.
  intros Hbody. induction ks as [|k ks IH]; intros s.
  - apply mret_returns.
  - cbn [for_each]. by apply bind_always_returns.
Qed.

Lemma for_each_never_throws {S : Type} (ks : list Z) (body : Z → S → M S) :
  (∀ k s, never_throws (body k s)) → ∀ s, never_throws (for_each ks body s).
Proof.
  intros Hbody. induction ks as [|k ks IH]; intros s.
  - apply returns_never_throws, mret_returns.
  - cbn [for_each]. by apply bind_never_throws.
Qed.

Lemma for_counter_never_throws {S : Type} (start bound : number) (inclusive : bool)
    (body : Z → S → M S) :
  (∀ k s, never_throws (body k s)) → ∀ s, never_throws (for_counter start bound inclusive body s).
Proof.
  intros Hbody s. unfold for_counter.
  destruct (counter_values start bound inclusive); [by apply for_each_never_throws | done].
Qed.

Lemma for_counter_always_returns {S : Type} (start bound : number) (inclusive : bool)
    (body : Z → S → M S) :
  is_Some (counter_values start bound inclusive) →
  (∀ k s, always_returns (body k s)) →
  ∀ s, always_returns (for_counter start bound inclusive body s).
Proof.
  intros [ks Hks] Hbody s. unfold for_counter. rewrite Hks.
  by apply for_each_always_returns.
Qed.

(** A query returns or throws; caught, it always leaves a result. *)
Lemma caught_query_returns {A : Type} (path_join : list string → string)
    (fs : string → option Buffer) (dataDir : string)
    (lat lon : number) (f : option Z → A) (a : A) :
  always_returns (try_catch (elev ← getElevation path_join fs dataDir lat lon; mret (f elev))
                            (λ _, mret a)).
Proof.
  intros st. unfold try_catch, getElevation, mbind, M_bind, loadTile.
  destruct (tiles st !! getTileName lat lon); [by eexists _, _|].
  destruct (fs _); [|by eexists _, _].
  destruct (parseTile _); by eexists _, _.
Qed.

End Totality.

Ltac case_above :=
  match goal with
  | |- context [Srtm.above_nodata ?elev] => destruct (Srtm.above_nodata elev)
  end.

Section Builders.
Variable path_join : list string → string.
Variable fs : string → option Buffer.
Variable dataDir : string.

Lemma build_sampleCell_returns (config : TerrainConfig) (step : number) (z x : Z) (acc : Acc) :
  always_returns (sampleCell path_join fs dataDir config step z x acc).
Proof.
  intros st. unfold sampleCell, try_catch, getElevation, mbind, M_bind, loadTile.
  destruct (tiles st !! _) as [tile|].
  - unfold mret, M_ret. case_above; by eexists _, _.
  - destruct (fs _); [|by eexists _, _].
    destruct (parseTile _); [|by eexists _, _].
    unfold mret, M_ret. case_above; by eexists _, _.
Qed.

Lemma build_sampleRow_never_throws (config : TerrainConfig) (step width : number) (z : Z)
    (acc : Acc) :
  never_throws (sampleRow path_join fs dataDir config step width z acc).
Proof.
  unfold sampleRow. apply bind_never_throws.
  - apply for_counter_never_throws. intros k s.
    apply returns_never_throws, build_sampleCell_returns.
  - intros a. apply returns_never_throws, mret_returns.
Qed.

Lemma build_sampleRow_returns (config : TerrainConfig) (step width : number) (z : Z)
    (acc : Acc) :
  is_Some (counter_values 0%float width false) →
  always_returns (sampleRow path_join fs dataDir config step width z acc).
Proof.
  intros Hcols. unfold sampleRow. apply bind_always_returns.
  - apply for_counter_always_returns; [done|]. intros k s. apply build_sampleCell_returns.
  - intros a. apply mret_returns.
Qed.

Lemma generateHeightmap_never_throws (config : TerrainConfig) :
  never_throws (generateHeightmap path_join fs dataDir config).
Proof.
  unfold generateHeightmap.
  apply bind_never_throws; [apply returns_never_throws, print_returns | intros _].
  apply bind_never_throws.
  - apply for_counter_never_throws. intros k s. apply build_sampleRow_never_throws.
  - intros acc. apply returns_never_throws.
    apply bind_always_returns; [apply print_returns | intros _].
    apply bind_always_returns; [apply print_returns | intros _]. apply mret_returns.
Qed.

Lemma generateHeightmap_returns (config : TerrainConfig) :
  is_Some (counter_values 0%float (length_of config) false) →
  is_Some (counter_values 0%float (width_of config) false) →
  always_returns (generateHeightmap path_join fs dataDir config).
Proof.
  intros Hrows Hcols. unfold generateHeightmap.
  apply bind_always_returns; [apply print_returns | intros _].
  apply bind_always_returns.
  - apply for_counter_always_returns; [done|]. intros k s. by apply build_sampleRow_returns.
  - intros acc.
    apply bind_always_returns; [apply print_returns | intros _].
    apply bind_always_returns; [apply print_returns | intros _]. apply mret_returns.
Qed.

Lemma terrainRow_returns (elevation : ElevationData) (config : Terrain.TerrainConfig)
    (sampleStep width length : number) (z : Z) (acc : Terrain.Acc) :
  is_Some (counter_values 0%float width false) →
  always_returns (Terrain.terrainRow elevation config sampleStep width length z acc).
Proof.
  intros Hcols. unfold Terrain.terrainRow. apply bind_always_returns.
  - apply for_counter_always_returns; [done|]. intros k s. apply mret_returns.
  - intros a. apply bind_always_returns; [|intros _; apply mret_returns].
    destruct (z mod 50 =? 0); [apply print_returns | apply mret_returns].
Qed.

Lemma terrainRow_never_throws (elevation : ElevationData) (config : Terrain.TerrainConfig)
    (sampleStep width length : number) (z : Z) (acc : Terrain.Acc) :
  never_throws (Terrain.terrainRow elevation config sampleStep width length z acc).
Proof.
  unfold Terrain.terrainRow. apply bind_never_throws.
  - apply for_counter_never_throws. intros k s. apply returns_never_throws, mret_returns.
  - intros a. apply returns_never_throws.
    apply bind_always_returns; [|intros _; apply mret_returns].
    destruct (z mod 50 =? 0); [apply print_returns | apply mret_returns].
Qed.

Lemma generateTerrain_never_throws (elevation : ElevationData) (config : Terrain.TerrainConfig) :
  never_throws (Terrain.generateTerrain elevation config).
Proof.
  unfold Terrain.generateTerrain.
  do 4 (apply bind_never_throws; [apply returns_never_throws, print_returns | intros _]).
  apply bind_never_throws.
  - apply for_counter_never_throws. intros k s. apply terrainRow_never_throws.
  - intros acc. apply returns_never_throws.
    do 2 (apply bind_always_returns; [apply print_returns | intros _]). apply mret_returns.
Qed.

(** The step and the dimensions [generateTerrain] computes. *)
Lemma generateTerrain_returns (elevation : ElevationData) (config : Terrain.TerrainConfig) :
  let sampleStep := Math_max 1%float (Math_floor (Terrain.scale config / 30)%float) in
  is_Some (counter_values 0%float (Math_ceil (Srtm.height elevation / sampleStep)%float) false) →
  is_Some (counter_values 0%float (Math_ceil (Srtm.width elevation / sampleStep)%float) false) →
  always_returns (Terrain.generateTerrain elevation config).
Proof.
  intros sampleStep Hrows Hcols. unfold Terrain.generateTerrain.
  do 4 (apply bind_always_returns; [apply print_returns | intros _]).
  apply bind_always_returns.
  - apply for_counter_always_returns; [done|]. intros k s. by apply terrainRow_returns.
  - intros acc.
    do 2 (apply bind_always_returns; [apply print_returns | intros _]). apply mret_returns.
Qed.

(** C2, as amended: no configuration is rejected.  With any scale and any
    bounding box, the non-positive scales and the degenerate boxes included,
    neither [generateHeightmap] nor [generateTerrain] raises an error, and
    each returns its result whenever its two grid loops end. *)
Theorem no_configuration_is_rejected (config : TerrainConfig) (elevation : ElevationData)
    (tconfig : Terrain.TerrainConfig) :
  is_Some (counter_values 0%float (length_of config) false) →
  is_Some (counter_values 0%float (width_of config) false) →
  is_Some (counter_values 0%float
             (Math_ceil (Srtm.height elevation
                         / Math_max 1 (Math_floor (Terrain.scale tconfig / 30)))%float) false) →
  is_Some (counter_values 0%float
             (Math_ceil (Srtm.width elevation
                         / Math_max 1 (Math_floor (Terrain.scale tconfig / 30)))%float) false) →
  never_throws (generateHeightmap path_join fs dataDir config)
  ∧ never_throws (Terrain.generateTerrain elevation tconfig)
  ∧ always_returns (generateHeightmap path_join fs dataDir config)
  ∧ always_returns (Terrain.generateTerrain elevation tconfig).
Proof.
  intros Hrows Hcols Htrows Htcols.
  split; [apply generateHeightmap_never_throws|].
  split; [apply generateTerrain_never_throws|].
  split; [by apply generateHeightmap_returns | by apply generateTerrain_returns].
Qed.

End Builders.

(** * Fallback cells and grid dimensions *)

Lemma lookup_map_seqZ {A : Type} (f : Z → A) (n : nat) : ∀ (a : Z) (i : nat),
  (i < n)%nat → map f (seqZ a (Z.of_nat n)) !! i = Some (f (a + Z.of_nat i)).
Proof.
  induction n as [|n IH]; intros a i Hi; [lia|].
  rewrite Nat2Z.inj_succ, seqZ_cons by lia.
  replace (Z.pred (Z.succ (Z.of_nat n))) with (Z.of_nat n) by lia.
  destruct i as [|i]; cbn [map lookup list_lookup].
  - f_equal. f_equal. lia.
  - rewrite IH by lia. f_equal. f_equal. lia.
Qed.

Lemma at_index_map_counter {A : Type} (f : Z → A) (bound : number) (ks : list Z) (k : Z) :
  counter_values 0%float bound false = Some ks → k ∈ ks →
  Emitter.at_index (map f ks) k = Some (f k).
Proof.
  intros Hks Hk. destruct (counter_values_zero _ _ _ Hks Hk) as (c & _ & -> & Hkc).
  unfold Emitter.at_index. replace (k <? 0) with false by (symmetry; apply Z.ltb_ge; lia).
  rewrite <- (Z2Nat.id c) by lia.
  rewrite lookup_map_seqZ by lia. f_equal. f_equal. lia.
Qed.

Section Cells.
Variable path_join : list string → string.
Variable fs : string → option Buffer.
Variable dataDir : string.

(** C9: the field of a region query over a box has
    [width = ceil((east - west) / step)] and [height = ceil((north - south) /
    step)] for the step of one arc second, with one cell per pair of counter
    values; the height map of a build has the same dimensions for its step of
    [downsample] arc seconds, with one row per value of its row counter and
    one cell per value of its column counter. *)
Theorem grid_dimensions (bbox : BoundingBox) (config : TerrainConfig) (st : State)
    (lats lons rows cols : list Z) (n : nat) (hrows hcols : list Z) :
  cache_ok path_join fs dataDir st → region_grid bbox lats lons rows cols n →
  counter_values 0%float (length_of config) false = Some hrows →
  counter_values 0%float (width_of config) false = Some hcols →
  (∃ ed st',
     loadBoundingBox path_join fs dataDir bbox st = (Returns ed, st')
     ∧ Srtm.width ed = Math_ceil ((east bbox - west bbox) / (1 / 3600))%float
     ∧ Srtm.height ed = Math_ceil ((north bbox - south bbox) / (1 / 3600))%float
     ∧ List.length (data ed) = n
     ∧ ∀ row col, row ∈ rows → col ∈ cols → is_Some (cell ed row col))
  ∧ (∃ hm st',
       generateHeightmap path_join fs dataDir config st = (Returns hm, st')
       ∧ Heightmap.width hm
         = Math_ceil ((east (Heightmap.bbox config) - west (Heightmap.bbox config))
                      / (1 / 3600 * downsample config))%float
       ∧ Heightmap.length hm
         = Math_ceil ((north (Heightmap.bbox config) - south (Heightmap.bbox config))
                      / (1 / 3600 * downsample config))%float
       ∧ List.length (heights hm) = List.length hrows
       ∧ Forall (λ row, List.length row = List.length hcols) (heights hm)).
Proof.
  intros Hok Hgrid Hrows Hcols. split.
  - destruct (loadBoundingBox_cells path_join fs dataDir bbox st lats lons rows cols n Hok Hgrid)
      as (ed & st' & Hrun & _ & _ & _ & Hw & Hh & Hlen & Hcells & _).
    exists ed, st'. repeat (split; [done|]).
    intros row col Hrow Hcol. rewrite (Hcells row col Hrow Hcol). by eexists.
  - destruct (generateHeightmap_spec path_join fs dataDir config hrows hcols st Hok Hrows Hcols)
      as (st' & Hrun & _).
    eexists _, st'. split; [exact Hrun|]. cbn [Heightmap.width Heightmap.length heights].
    split; [done|]. split; [done|]. split; [apply length_map|].
    apply Forall_forall. intros row Hin. apply list_elem_of_In, in_map_iff in Hin.
    destruct Hin as (z & <- & _). apply length_map.
Qed.

End Cells.

(** * Concrete runs of the builders *)

Lemma heightmap_grid_config :
  counter_values 0%float (length_of Examples.config) false = Some [0]
  ∧ counter_values 0%float (width_of Examples.config) false = Some [0; 1].
Proof. split; vm_compute; reflexivity. Qed.

(** C1, on the code: a build over a box of two cells, the first in the tile
    N00E000 of 150 m samples and the second in the tile N00E001, whose file is
    absent.  The build returns; the query of the second cell throws and the
    cell gets elevation 0, whose level is 64 + round((0 - 150) / 30) = 59: not
    the base level 64, and below the minimum level 64 that the same height
    map reports. *)
Theorem fallback_level_below_base :
  tileNameOfFloor 0 1 = "N00E001"
  ∧ Examples.oneTile (Examples.flatBuffer x00 x96) (Examples.slashes ["srtm"; "N00E001.hgt"])
    = None
  ∧ sample_of Examples.slashes (Examples.oneTile (Examples.flatBuffer x00 x96)) "srtm"
      (north Examples.edge - of_Z 0 * step_of Examples.config)%float
      (west Examples.edge + of_Z 1 * step_of Examples.config)%float = None
  ∧ fst (generateHeightmap Examples.slashes (Examples.oneTile (Examples.flatBuffer x00 x96))
           "srtm" Examples.config Examples.start)
    = Returns (mkHeightMap 2%float 1%float [[64%float; 59%float]] 64%float 64%float)
  ∧ level_at (mkHeightMap 2%float 1%float [[64%float; 59%float]] 64%float 64%float) 0 1
    ≠ Some (baseY Examples.config).
Proof. repeat split; vm_compute; (reflexivity || discriminate). Qed.

Lemma grid_dimensions_witness :
  (∃ ed st',
     loadBoundingBox Examples.slashes (Examples.oneTile (Examples.flatBuffer x00 x96)) "srtm" Examples.edge
       Examples.start = (Returns ed, st')
     ∧ Srtm.width ed = 2%float ∧ Srtm.height ed = 1%float ∧ List.length (data ed) = 2%nat)
  ∧ (∃ hm st',
       generateHeightmap Examples.slashes (Examples.oneTile (Examples.flatBuffer x00 x96)) "srtm"
         Examples.config Examples.start = (Returns hm, st')
       ∧ Heightmap.width hm = 2%float ∧ Heightmap.length hm = 1%float
       ∧ List.length (heights hm) = 1%nat).
Proof.
  destruct (grid_dimensions Examples.slashes (Examples.oneTile (Examples.flatBuffer x00 x96)) "srtm"
              Examples.edge Examples.config Examples.start [0] [0; 1] [0] [0; 1] 2 [0] [0; 1]
              (cache_ok_start _ _ _) region_grid_edge
              (proj1 heightmap_grid_config) (proj2 heightmap_grid_config))
    as [(ed & st1 & Hrun1 & Hw & Hh & Hlen & _) (hm & st2 & Hrun2 & Hw2 & Hl2 & Hrows & _)].
  split.
  - exists ed, st1. split; [exact Hrun1|]. rewrite Hw, Hh, Hlen.
    repeat split; vm_compute; reflexivity.
  - exists hm, st2. split; [exact Hrun2|]. rewrite Hw2, Hl2, Hrows.
    repeat split; vm_compute; reflexivity.
Defined.

(** C2, as stated, fails: a build with scale 0 and a build over a box with
    west = east and south > north both return a height map, and
    [generateTerrain] with scale -30 returns its blocks. *)
Lemma invalid_configurations_build :
  (scale Examples.zeroScale <=? 0)%float = true
  ∧ fst (generateHeightmap Examples.slashes (Examples.oneTile (Examples.flatBuffer x00 x96)) "srtm"
           Examples.zeroScale Examples.start)
    = Returns (mkHeightMap 2%float 1%float [[nan; neg_infinity]] 64%float nan)
  ∧ (east Examples.flatbox <=? west Examples.flatbox)%float = true
  ∧ (north Examples.flatbox <=? south Examples.flatbox)%float = true
  ∧ fst (generateHeightmap Examples.slashes (Examples.oneTile (Examples.flatBuffer x00 x96)) "srtm"
           Examples.degenerate Examples.start)
    = Returns (mkHeightMap 0%float (-900)%float [] 64%float neg_infinity)
  ∧ (Terrain.scale Examples.negativeScale <=? 0)%float = true
  ∧ ∃ result,
      fst (Terrain.generateTerrain Examples.edgeField Examples.negativeScale Examples.start)
      = Returns result
      ∧ Terrain.blockCount result = 10%nat.
Proof.
  repeat split; try (vm_compute; reflexivity).
  eexists. split; vm_compute; reflexivity.
Qed.

Lemma no_configuration_is_rejected_witness :
  never_throws (generateHeightmap Examples.slashes (Examples.oneTile (Examples.flatBuffer x00 x96)) "srtm"
                  Examples.zeroScale)
  ∧ never_throws (Terrain.generateTerrain Examples.edgeField Examples.negativeScale)
  ∧ always_returns (generateHeightmap Examples.slashes (Examples.oneTile (Examples.flatBuffer x00 x96)) "srtm"
                      Examples.zeroScale)
  ∧ always_returns (Terrain.generateTerrain Examples.edgeField Examples.negativeScale).
Proof.
  apply (no_configuration_is_rejected Examples.slashes (Examples.oneTile (Examples.flatBuffer x00 x96)) "srtm"
           Examples.zeroScale Examples.edgeField Examples.negativeScale).
  - exists [0]. vm_compute. reflexivity.
  - exists [0; 1]. vm_compute. reflexivity.
  - exists [0]. vm_compute. reflexivity.
  - exists [0; 1]. vm_compute. reflexivity.
Defined.

(** * The command emitter *)

Import Mcfunction Emitter EmitterSpec.

Section Scan.
Variables (minY z endX : Z) (row : list Z).

Lemma scan_commands (rest : list Z) : ∀ (x s h : Z) (cmds : list command),
  0 <= x → endX = x + Z.of_nat (List.length rest) →
  (∀ i : nat, (i < List.length rest)%nat → row !! (Z.to_nat x + i)%nat = rest !! i) →
  commands (foldl (scanColumn minY row z endX) (mkScan s (Some h) cmds)
              (seqZ x (Z.of_nat (List.length rest) + 1)))
  = cmds ++ (runs_from s h x rest ≫= threeFills minY z).
Proof.
  induction rest as [|c rest IH]; intros x s h cmds Hx Hend Hrow.
  - cbn [List.length] in *. change (seqZ x (Z.of_nat 0 + 1)) with [x].
    cbn [foldl]. unfold scanColumn. cbn [runHeight runStart commands].
    replace (x <? endX) with false by (symmetry; apply Z.ltb_ge; lia).
    replace (x =? endX) with true by (symmetry; apply Z.eqb_eq; lia).
    rewrite orb_true_r. reflexivity.
  - cbn [List.length] in Hend, Hrow |- *.
    rewrite seqZ_cons by lia.
    replace (Z.pred (Z.of_nat (S (List.length rest)) + 1))
      with (Z.of_nat (List.length rest) + 1) by lia.
    cbn [foldl].
    assert (Hc : at_index row x = Some c).
    { unfold at_index. replace (x <? 0) with false by (symmetry; apply Z.ltb_ge; lia).
      specialize (Hrow 0%nat ltac:(lia)). by rewrite Nat.add_0_r in Hrow. }
    assert (Hrest : ∀ i : nat, (i < List.length rest)%nat →
              row !! (Z.to_nat (Z.succ x) + i)%nat = rest !! i).
    { intros i Hi. specialize (Hrow (S i) ltac:(lia)).
      change ((c :: rest) !! S i) with (rest !! i) in Hrow.
      etrans; [|exact Hrow]. f_equal. lia. }
    unfold scanColumn at 2. cbn [runHeight runStart commands].
    replace (x <? endX) with true by (symmetry; apply Z.ltb_lt; lia).
    replace (x =? endX) with false by (symmetry; apply Z.eqb_neq; lia).
    rewrite Hc, orb_false_r. cbn [runs_from].
    destruct (decide (c = h)) as [->|Hne].
    + rewrite (bool_decide_eq_true_2 (Some h = Some h)) by done.
      rewrite (bool_decide_eq_true_2 (h = h)) by done. cbn [negb].
      rewrite IH by (done || lia). by replace (Z.succ x) with (x + 1) by lia.
    + rewrite (bool_decide_eq_false_2 (Some c = Some h)) by congruence.
      rewrite (bool_decide_eq_false_2 (c = h)) by done. cbn [negb].
      rewrite IH by (done || lia).
      replace (Z.succ x) with (x + 1) by lia.
      rewrite bind_cons, <- app_assoc. done.
Qed.

End Scan.

Lemma segment_lookup (row : list Z) (startX endX : Z) (i : nat) :
  (i < List.length (segment row startX endX))%nat →
  row !! (Z.to_nat startX + i)%nat = segment row startX endX !! i.
Proof.
  unfold segment. intros Hi. rewrite length_take in Hi.
  rewrite lookup_take_lt by lia. by rewrite lookup_drop.
Qed.

Lemma segment_length (row : list Z) (startX endX : Z) :
  0 <= startX → endX <= Z.of_nat (List.length row) →
  List.length (segment row startX endX) = Z.to_nat (endX - startX).
Proof. unfold segment. intros. rewrite length_take, length_drop. lia. Qed.

Lemma scanRow_runs (hm : Heightmap.HeightMap Z) (startX endX z : Z) (row : list Z)
    (cmds : list command) :
  at_index (Heightmap.heights hm) z = Some row →
  0 <= startX → endX <= Z.of_nat (List.length row) →
  scanRow hm startX endX cmds z
  = Some (cmds ++ (runs startX (segment row startX endX) ≫= threeFills (Heightmap.minY hm) z)).
Proof.
  intros Hrow Hx Hend. unfold scanRow. rewrite Hrow. cbn [mbind option_bind]. f_equal.
  pose proof (segment_length row startX endX Hx Hend) as Hlen.
  pose proof (segment_lookup row startX endX) as Hlook.
  destruct (segment row startX endX) as [|c rest] eqn:Hseg.
  - cbn [List.length] in Hlen.
    rewrite (seqZ_nil (startX + 1)) by lia. cbn. by rewrite app_nil_r.
  - cbn [List.length] in Hlen, Hlook.
    assert (Hc : at_index row startX = Some c).
    { unfold at_index. replace (startX <? 0) with false by (symmetry; apply Z.ltb_ge; lia).
      specialize (Hlook 0%nat ltac:(lia)). by rewrite Nat.add_0_r in Hlook. }
    rewrite Hc. cbn [runs].
    replace (endX - startX) with (Z.of_nat (List.length rest) + 1) by lia.
    apply scan_commands; [lia | lia |].
    intros i Hi. specialize (Hlook (S i) ltac:(lia)).
    change ((c :: rest) !! S i) with (rest !! i) in Hlook.
    etrans; [|exact Hlook]. f_equal. lia.
Qed.

Lemma at_index_well_formed (hm : Heightmap.HeightMap Z) (z : Z) :
  well_formed hm → 0 <= z < Heightmap.length hm →
  ∃ row, at_index (Heightmap.heights hm) z = Some row
         ∧ Heightmap.width hm <= Z.of_nat (List.length row).
Proof.
  intros [Hlen Hrows] Hz. unfold at_index.
  replace (z <? 0) with false by (symmetry; apply Z.ltb_ge; lia).
  destruct (lookup_lt_is_Some_2 (Heightmap.heights hm) (Z.to_nat z)) as [row Hrow]; [lia|].
  exists row. split; [done|].
  by apply (Forall_lookup_1 _ _ _ _ Hrows Hrow).
Qed.

Lemma chunk_rows (hm : Heightmap.HeightMap Z) (startX endX : Z) (n : nat) :
  ∀ (z0 : Z) (cmds : list command),
  well_formed hm → 0 <= startX → endX <= Heightmap.width hm →
  0 <= z0 → z0 + Z.of_nat n <= Heightmap.length hm →
  foldl (λ commands z, commands ← commands; scanRow hm startX endX commands z)
        (Some cmds) (seqZ z0 (Z.of_nat n))
  = Some (cmds ++ (seqZ z0 (Z.of_nat n) ≫= λ z,
                     row_runs hm startX endX z ≫= threeFills (Heightmap.minY hm) z)).
Proof.
  induction n as [|n IH]; intros z0 cmds Hwf Hx Hend Hz0 Hzn.
  - cbn. by rewrite app_nil_r.
  - rewrite Nat2Z.inj_succ, seqZ_cons by lia.
    replace (Z.pred (Z.succ (Z.of_nat n))) with (Z.of_nat n) by lia.
    destruct (at_index_well_formed hm z0 Hwf ltac:(lia)) as (row & Hrow & Hw).
    cbn [foldl mbind option_bind].
    rewrite (scanRow_runs hm startX endX z0 row) by (done || lia).
    rewrite IH by (done || lia).
    rewrite bind_cons, <- app_assoc. unfold row_runs at 2. by rewrite Hrow.
Qed.

Lemma generateChunkCommands_runs (hm : Heightmap.HeightMap Z) (startX startZ chunkSize : Z) :
  well_formed hm → 0 <= startX → 0 <= startZ →
  generateChunkCommands hm startX startZ chunkSize
  = Some (seqZ startZ (Z.min (startZ + chunkSize) (Heightmap.length hm) - startZ) ≫= λ z,
            row_runs hm startX (Z.min (startX + chunkSize) (Heightmap.width hm)) z
            ≫= threeFills (Heightmap.minY hm) z).
Proof.
  intros Hwf Hx Hz. unfold generateChunkCommands.
  set (endX := Z.min (startX + chunkSize) (Heightmap.width hm)).
  set (endZ := Z.min (startZ + chunkSize) (Heightmap.length hm)).
  destruct (Z.le_gt_cases (endZ - startZ) 0) as [Hle|Hgt].
  - by rewrite seqZ_nil by lia.
  - rewrite <- (Z2Nat.id (endZ - startZ)) by lia.
    rewrite (chunk_rows hm startX endX) by (done || lia). done.
Qed.

Lemma omap_bind {A B C} (g : B → option C) (f : A → list B) (l : list A) :
  omap g (l ≫= f) = l ≫= λ a, omap g (f a).
Proof.
  induction l as [|a l IH]; [done|].
  by rewrite !bind_cons, omap_app, IH.
Qed.

Lemma bind_nil_const {A B} (l : list A) : l ≫= (λ _, @nil B) = [].
Proof. by induction l. Qed.

Lemma decode_app (c1 c2 : list command) : decode (c1 ++ c2) = decode c1 ++ decode c2.
Proof. unfold decode. by rewrite bind_app, omap_app. Qed.

Lemma span_up (a b : Z) : a <= b → span a b = seqZ a (b - a + 1).
Proof. intros. unfold span. by rewrite Z.min_l, Z.abs_eq by lia. Qed.

Lemma span_single (a : Z) : span a a = [a].
Proof.
  unfold span. rewrite Z.min_id, Z.sub_diag. cbn. f_equal.
Qed.

Lemma decode_other_fill (x1 x2 z1 z2 y1 y2 : Z) (block : string) :
  String.eqb block "grass_block" = false →
  decode [Fill x1 (At y1) z1 x2 (At y2) z2 block] = [].
Proof.
  intros Hb. unfold decode. cbn [mbind list_bind expand app].
  rewrite app_nil_r, !omap_bind.
  erewrite list_bind_ext; [apply bind_nil_const | | done].
  intros x. rewrite omap_bind.
  erewrite list_bind_ext; [apply bind_nil_const | | done].
  intros y. rewrite omap_bind.
  erewrite list_bind_ext; [apply bind_nil_const | | done].
  intros z. cbn. by rewrite Hb.
Qed.

Lemma decode_surface_fill (a b l z : Z) :
  a <= b →
  decode [Fill a (At l) z b (At l) z "grass_block"] = map (λ x, (x, z, l)) (seqZ a (b - a + 1)).
Proof.
  intros Hab. unfold decode. cbn [mbind list_bind expand app].
  rewrite app_nil_r, omap_bind, !span_single, span_up by done.
  generalize (seqZ a (b - a + 1)). intros xs.
  induction xs as [|x xs IH]; [done|].
  rewrite bind_cons, IH. done.
Qed.

Lemma decode_threeFills (minY z a b l : Z) :
  a <= b →
  decode (threeFills minY z (a, b, l)) = map (λ x, (x, z, l)) (seqZ a (b - a + 1)).
Proof.
  intros Hab. unfold threeFills.
  change [?c1; ?c2; ?c3] with ([c1] ++ [c2] ++ [c3]).
  rewrite !decode_app, !decode_other_fill by done.
  by apply decode_surface_fill.
Qed.

Lemma decode_runs_from (minY z : Z) (rest : list Z) : ∀ (s h x : Z),
  s < x →
  decode (runs_from s h x rest ≫= threeFills minY z)
  = map (λ i, (i, z, h)) (seqZ s (x - s)) ++ cells_from x z rest.
Proof.
  induction rest as [|c rest IH]; intros s h x Hsx.
  - cbn [runs_from mbind list_bind cells_from]. rewrite !app_nil_r.
    rewrite decode_threeFills by lia. do 2 f_equal. lia.
  - cbn [runs_from cells_from]. case_bool_decide as Hc.
    + subst c. rewrite IH by lia.
      replace (x + 1 - s) with ((x - s) + 1) by lia.
      rewrite seqZ_app by lia. rewrite fmap_app, <- app_assoc.
      f_equal. replace (s + (x - s)) with x by lia. done.
    + rewrite bind_cons, decode_app, decode_threeFills by lia.
      rewrite IH by lia. f_equal; [do 2 f_equal; lia|].
      replace (x + 1 - x) with 1 by lia. done.
Qed.

Lemma decode_runs (minY z x0 : Z) (cells : list Z) :
  decode (runs x0 cells ≫= threeFills minY z) = cells_from x0 z cells.
Proof.
  destruct cells as [|c rest]; [done|].
  cbn [runs cells_from]. rewrite decode_runs_from by lia.
  replace (x0 + 1 - x0) with 1 by lia. done.
Qed.

Lemma decode_bind {A} (f : A → list command) (l : list A) :
  decode (l ≫= f) = l ≫= λ a, decode (f a).
Proof.
  induction l as [|a l IH]; [done|].
  by rewrite !bind_cons, decode_app, IH.
Qed.

Lemma row_cells (row : list Z) (z : Z) (cells : list Z) : ∀ x : Z,
  0 <= x →
  (∀ i : nat, (i < List.length cells)%nat → row !! (Z.to_nat x + i)%nat = cells !! i) →
  (seqZ x (Z.of_nat (List.length cells)) ≫= λ x,
     match at_index row x with Some h => [(x, z, h)] | None => [] end)
  = cells_from x z cells.
Proof.
  induction cells as [|c rest IH]; intros x Hx Hrow; [done|].
  cbn [List.length] in Hrow |- *. rewrite Nat2Z.inj_succ, seqZ_cons by lia.
  replace (Z.pred (Z.succ (Z.of_nat (List.length rest)))) with (Z.of_nat (List.length rest)) by lia.
  rewrite bind_cons. cbn [cells_from].
  assert (Hc : at_index row x = Some c).
  { unfold at_index. replace (x <? 0) with false by (symmetry; apply Z.ltb_ge; lia).
    specialize (Hrow 0%nat ltac:(lia)). by rewrite Nat.add_0_r in Hrow. }
  rewrite Hc. cbn [app]. f_equal.
  replace (x + 1) with (Z.succ x) by lia. apply IH; [lia|].
  intros i Hi. specialize (Hrow (S i) ltac:(lia)).
  change ((c :: rest) !! S i) with (rest !! i) in Hrow.
  etrans; [|exact Hrow]. f_equal. lia.
Qed.

Lemma bind_ext_in {A B} (f g : A → list B) (l : list A) :
  (∀ a, a ∈ l → f a = g a) → l ≫= f = l ≫= g.
Proof.
  induction l as [|a l IH]; intros Hfg; [done|].
  rewrite !bind_cons, IH, Hfg; [done | by left | ].
  intros b Hb. apply Hfg. by right.
Qed.


Lemma runs_from_head (rest : list Z) : ∀ (s h x : Z),
  ∃ runEnd tl, runs_from s h x rest = (s, runEnd, h) :: tl.
Proof.
  induction rest as [|c rest IH]; intros s h x; cbn [runs_from].
  - by eexists _, _.
  - case_bool_decide; [apply IH | by eexists _, _].
Qed.

Lemma runs_from_chained (rest : list Z) : ∀ (s h x : Z), chained (runs_from s h x rest).
Proof.
  induction rest as [|c rest IH]; intros s h x; cbn [runs_from]; [done|].
  case_bool_decide as Hc; [apply IH|].
  destruct (runs_from_head rest x c (x + 1)) as (runEnd & tl & Htl).
  specialize (IH x c (x + 1)). rewrite Htl in *. cbn [chained].
  split; [lia|]. split; done.
Qed.

Lemma row_runs_chained (hm : Heightmap.HeightMap Z) (startX endX z : Z) :
  chained (row_runs hm startX endX z).
Proof.
  unfold row_runs. destruct (at_index _ z) as [row|]; [|done].
  unfold runs. destruct (segment row startX endX); [done | apply runs_from_chained].
Qed.

Lemma bind_assoc {A B C} (f : A → list B) (g : B → list C) (l : list A) :
  (l ≫= f) ≫= g = l ≫= λ a, f a ≫= g.
Proof.
  induction l as [|a l IH]; [done|].
  by rewrite !bind_cons, bind_app, IH.
Qed.

Lemma layer_app (block : string) (c1 c2 : list command) :
  layer block (c1 ++ c2) = layer block c1 ++ layer block c2.
Proof. unfold layer. by rewrite bind_app, omap_app. Qed.

Lemma layer_bind {A} (block : string) (f : A → list command) (l : list A) :
  layer block (l ≫= f) = l ≫= λ a, layer block (f a).
Proof.
  induction l as [|a l IH]; [done|].
  by rewrite !bind_cons, layer_app, IH.
Qed.

Lemma layer_fill (block : string) (a b y1 y2 z : Z) (b' : string) :
  a <= b →
  layer block [Fill a (At y1) z b (At y2) z b']
  = seqZ a (b - a + 1) ≫= λ x, layer block [Fill x (At y1) z x (At y2) z b'].
Proof.
  intros Hab. unfold layer. cbn [mbind list_bind expand app].
  rewrite app_nil_r, omap_bind, (span_up a b) by done.
  apply bind_ext_in. intros x _.
  cbn [mbind list_bind expand app]. by rewrite !app_nil_r, (span_single x), bind_cons, app_nil_r.
Qed.

Lemma layer_other (block : string) (a b z : Z) (y1 y2 : ycoord) (b' : string) :
  String.eqb b' block = false → layer block [Fill a y1 z b y2 z b'] = [].
Proof.
  intros Hb. unfold layer. cbn [mbind list_bind app]. rewrite app_nil_r.
  destruct y1 as [y1| |], y2 as [y2| |]; try done. cbn [expand].
  rewrite !omap_bind.
  erewrite list_bind_ext; [apply bind_nil_const | | done].
  intros x. rewrite omap_bind.
  erewrite list_bind_ext; [apply bind_nil_const | | done].
  intros y. rewrite omap_bind.
  erewrite list_bind_ext; [apply bind_nil_const | | done].
  intros z'. cbn. by rewrite Hb.
Qed.

Lemma layer_threeFills (block : string) (minY z a b l : Z) :
  a <= b →
  layer block (threeFills minY z (a, b, l))
  = seqZ a (b - a + 1) ≫= λ x, layer block (column minY (x, z, l)).
Proof.
  intros Hab. unfold threeFills.
  change [?c1; ?c2; ?c3] with ([c1] ++ [c2] ++ [c3]).
  rewrite !layer_app.
  assert (Hcol : ∀ x, layer block (column minY (x, z, l))
    = layer block [Fill x (At (minY - 4)) z x (At (l - 4)) z "stone"]
      ++ layer block [Fill x (At (l - 3)) z x (At (l - 1)) z "dirt"]
      ++ layer block [Fill x (At l) z x (At l) z "grass_block"]).
  { intros x. unfold column, threeFills.
    change [?c1; ?c2; ?c3] with ([c1] ++ [c2] ++ [c3]). by rewrite !layer_app. }
  etrans; [|apply bind_ext_in; intros x _; symmetry; apply Hcol].
  destruct (String.eqb "stone" block) eqn:Hs; [|destruct (String.eqb "dirt" block) eqn:Hd].
  - apply String.eqb_eq in Hs. subst block.
    rewrite (layer_other "stone" _ _ _ _ _ "dirt"), (layer_other "stone" _ _ _ _ _ "grass_block") by done.
    rewrite !app_nil_r, layer_fill by done.
    apply bind_ext_in. intros x _.
    by rewrite (layer_other "stone" _ _ _ _ _ "dirt"), (layer_other "stone" _ _ _ _ _ "grass_block"), !app_nil_r.
  - apply String.eqb_eq in Hd. subst block.
    rewrite (layer_other "dirt" _ _ _ _ _ "stone"), (layer_other "dirt" _ _ _ _ _ "grass_block") by done.
    rewrite app_nil_l, app_nil_r, layer_fill by done.
    apply bind_ext_in. intros x _.
    by rewrite (layer_other "dirt" _ _ _ _ _ "stone"), (layer_other "dirt" _ _ _ _ _ "grass_block"), app_nil_r.
  - rewrite (layer_other block _ _ _ _ _ "stone"), (layer_other block _ _ _ _ _ "dirt") by done.
    rewrite !app_nil_l, layer_fill by done.
    apply bind_ext_in. intros x _.
    by rewrite (layer_other block _ _ _ _ _ "stone"), (layer_other block _ _ _ _ _ "dirt").
Qed.

Lemma layer_runs_from (block : string) (minY z : Z) (rest : list Z) : ∀ (s h x : Z),
  s < x →
  layer block (runs_from s h x rest ≫= threeFills minY z)
  = (map (λ i, (i, z, h)) (seqZ s (x - s)) ++ cells_from x z rest)
      ≫= λ c, layer block (column minY c).
Proof.
  induction rest as [|c rest IH]; intros s h x Hsx.
  - cbn [runs_from mbind list_bind cells_from]. rewrite !app_nil_r.
    rewrite layer_threeFills, list_fmap_bind by lia. do 2 f_equal. lia.
  - cbn [runs_from cells_from]. case_bool_decide as Hc.
    + subst c. rewrite IH by lia.
      replace (x + 1 - s) with ((x - s) + 1) by lia.
      rewrite seqZ_app by lia. rewrite fmap_app, <- app_assoc.
      do 2 f_equal. replace (s + (x - s)) with x by lia. done.
    + rewrite bind_cons, layer_app, layer_threeFills by lia.
      rewrite IH by lia. rewrite !bind_app, !list_fmap_bind. f_equal; [do 2 f_equal; lia|].
      replace (x + 1 - x) with 1 by lia. rewrite seqZ_cons, seqZ_nil by lia.
      rewrite (bind_cons _ (x, z, c)). f_equal. cbn. by rewrite app_nil_r.
Qed.

Lemma layer_runs (block : string) (minY z x0 : Z) (cells : list Z) :
  layer block (runs x0 cells ≫= threeFills minY z)
  = cells_from x0 z cells ≫= λ c, layer block (column minY c).
Proof.
  destruct cells as [|c rest]; [done|].
  cbn [runs cells_from]. rewrite layer_runs_from by lia.
  replace (x0 + 1 - x0) with 1 by lia. rewrite seqZ_cons, seqZ_nil by lia. done.
Qed.

Lemma chunk_cells_rows (hm : Heightmap.HeightMap Z) (startX startZ chunkSize : Z) :
  well_formed hm → 0 <= startX → 0 <= startZ →
  let endX := Z.min (startX + chunkSize) (Heightmap.width hm) in
  let endZ := Z.min (startZ + chunkSize) (Heightmap.length hm) in
  chunk_cells hm startX startZ chunkSize
  = seqZ startZ (endZ - startZ) ≫= λ z,
      match at_index (Heightmap.heights hm) z with
      | Some row => cells_from startX z (segment row startX endX)
      | None => []
      end.
Proof.
  intros Hwf Hx Hz endX endZ. unfold chunk_cells. fold endX endZ.
  apply bind_ext_in. intros z Hin. apply elem_of_seqZ in Hin.
  destruct (at_index_well_formed hm z Hwf ltac:(lia)) as (row & Hrow & Hw).
  rewrite Hrow. cbn [mbind option_bind].
  destruct (Z.le_gt_cases (endX - startX) 0) as [Hle|Hgt].
  - rewrite seqZ_nil by lia. unfold segment.
    replace (Z.to_nat (endX - startX)) with 0%nat by lia. done.
  - replace (endX - startX) with (Z.of_nat (List.length (segment row startX endX)))
      by (rewrite segment_length; lia).
    apply row_cells; [done|]. apply segment_lookup.
Qed.

(** The list of a loop's counter values is as long as its integer bound. *)
Lemma signed_sign (s : bool) (m : positive) :
  if s then Js.signed s m < 0 else 0 < Js.signed s m.
Proof. destruct s; unfold signed; lia. Qed.

Lemma counter_values_length (bound : number) (ks : list Z) (w : Z) :
  counter_values 0%float bound false = Some ks → to_int bound = Some w →
  w <= Z.of_nat (List.length ks).
Proof.
  unfold counter_values, to_int, ceil_int. rewrite FloatAxioms.ltb_spec.
  change (Prim2SF 0%float) with (S754_zero false).
  destruct (Prim2SF bound) as [s| s | |s m e]; try done.
  - intros _ [= <-]. lia.
  - pose proof (signed_sign s m) as Hs.
    assert (Hw : (if 0 <=? e then Some (signed s m * 2 ^ e)
                  else if signed s m mod 2 ^ (- e) =? 0 then Some (signed s m / 2 ^ (- e))
                  else None) = Some w →
                 (if 0 <=? e then signed s m * 2 ^ e else - (- signed s m / 2 ^ (- e))) = w
                 ∧ (if s then w <= 0 else True)).
    { destruct (Z.leb_spec 0 e) as [He|He].
      - intros [= <-]. split; [done|]. destruct s; [|done].
        pose proof (Z.pow_pos_nonneg 2 e ltac:(lia) He). nia.
      - destruct (Z.eqb_spec (signed s m mod 2 ^ (- e)) 0) as [Hm|]; [|done].
        intros [= <-].
        pose proof (Z.pow_pos_nonneg 2 (- e) ltac:(lia) ltac:(lia)) as Hp.
        split.
        + rewrite Z.div_opp_l_z by lia. lia.
        + destruct s; [|done]. apply Z.div_le_upper_bound; lia. }
    cbn [SFltb SFcompare]. destruct s; cbn [negb].
    + intros [= <-] Hws. apply Hw in Hws as [_ ?]. cbn. lia.
    + change (Some 0) with (Some 0). intros Hks Hws. apply Hw in Hws as [Hc _].
      rewrite Hc in Hks. destruct (_ && _); [|done]. injection Hks as <-.
      rewrite length_seqZ. lia.
Qed.

Lemma mapM_to_int_length (rows : list (list number)) (hs : list (list Z)) (n : nat) :
  Forall (λ row, List.length row = n) rows →
  mapM (mapM to_int) rows = Some hs →
  List.length hs = List.length rows ∧ Forall (λ row, List.length row = n) hs.
Proof.
  intros Hrows Hm. split; [symmetry; by eapply length_mapM|].
  apply mapM_Some_1 in Hm. induction Hm as [|row h rows hs Hh _ IH]; [done|].
  apply Forall_cons in Hrows as [Hrow Hrows]. constructor; [|by apply IH].
  apply length_mapM in Hh. congruence.
Qed.

Section Pipeline.
Variable path_join : list string → string.
Variable fs : string → option Srtm.Buffer.
Variable dataDir : string.

(** The height maps the builder returns have a row for every [z] below their
    length and a cell for every [x] below their width. *)
Lemma generateHeightmap_well_formed (config : Heightmap.TerrainConfig) (rows cols : list Z)
    (st st' : State) (hm : Heightmap.HeightMap number) (hmz : Heightmap.HeightMap Z) :
  cache_ok path_join fs dataDir st →
  counter_values 0%float (length_of config) false = Some rows →
  counter_values 0%float (width_of config) false = Some cols →
  Heightmap.generateHeightmap path_join fs dataDir config st = (Returns hm, st') →
  Heightmap.integral hm = Some hmz →
  well_formed hmz.
Proof.
  intros Hok Hrows Hcols Hrun Hint.
  destruct (generateHeightmap_spec path_join fs dataDir config rows cols st Hok Hrows Hcols)
    as (st'' & Hspec & _).
  rewrite Hspec in Hrun. injection Hrun as <- _.
  unfold Heightmap.integral in Hint. cbn [Heightmap.width Heightmap.length Heightmap.heights Heightmap.minY Heightmap.maxY] in Hint.
  destruct (to_int (width_of config)) as [w|] eqn:Hw; [|done].
  destruct (to_int (length_of config)) as [l|] eqn:Hl; [|done].
  cbn [mbind option_bind] in Hint.
  destruct (mapM _ _) as [hs|] eqn:Hhs; [|done].
  cbn [mbind option_bind] in Hint.
  destruct (to_int (Heightmap.baseY config)); [|done].
  cbn [mbind option_bind] in Hint.
  destruct (to_int (_ + _)%float); [|done]. injection Hint as <-.
  apply (mapM_to_int_length _ _ (List.length cols)) in Hhs as [Hlen Hall].
  - split; cbn [Heightmap.length Heightmap.width Heightmap.heights].
    + rewrite Hlen, length_map. by apply (counter_values_length (length_of config)).
    + eapply Forall_impl; [exact Hall|]. intros row ->.
      by apply (counter_values_length (width_of config)).
  - apply Forall_forall. intros row Hin. apply list_elem_of_In, in_map_iff in Hin.
    destruct Hin as (r & <- & _). apply length_map.
Qed.

End Pipeline.

(** C3: expanding the fills of a chunk into per-cell assignments gives back
    the chunk's grid.  The surface blocks of the expansion are, in order, the
    cells of the chunk with their levels; and for every material, the
    assignments of the expansion are those of the cells taken one by one,
    each with its own three fills. *)
Theorem run_length_lossless (hm : Heightmap.HeightMap Z) (startX startZ chunkSize : Z) :
  well_formed hm → 0 <= startX → 0 <= startZ →
  ∃ commands,
    generateChunkCommands hm startX startZ chunkSize = Some commands
    ∧ decode commands = chunk_cells hm startX startZ chunkSize
    ∧ ∀ block,
        layer block commands
        = chunk_cells hm startX startZ chunkSize
            ≫= λ c, layer block (column (Heightmap.minY hm) c).
Proof.
  intros Hwf Hx Hz. eexists. split; [by apply generateChunkCommands_runs|].
  rewrite chunk_cells_rows by done. split.
  - rewrite decode_bind. apply bind_ext_in. intros z _.
    unfold row_runs. destruct (at_index _ z); [apply decode_runs | done].
  - intros block. rewrite layer_bind, bind_assoc.
    apply bind_ext_in. intros z _.
    unfold row_runs. destruct (at_index _ z); [apply layer_runs | done].
Qed.

(** C8, as amended: for every row of a chunk, the emitter closes each run (a
    stretch of columns at one level, ended by a change of level or by the end
    of the row) with exactly three fills over the run's columns: stone from 4
    levels below the height map's minimum level, [minY - 4], up to 4 levels
    below the run's surface; dirt on the three levels below the surface; and
    grass_block on the surface level alone. *)
Theorem three_fills_per_run (hm : Heightmap.HeightMap Z) (startX startZ chunkSize : Z) :
  well_formed hm → 0 <= startX → 0 <= startZ →
  let endX := Z.min (startX + chunkSize) (Heightmap.width hm) in
  let endZ := Z.min (startZ + chunkSize) (Heightmap.length hm) in
  generateChunkCommands hm startX startZ chunkSize
  = Some (z ← seqZ startZ (endZ - startZ);
          '(runStart, runEnd, level) ← row_runs hm startX endX z;
          [ Fill runStart (At (Heightmap.minY hm - 4)) z runEnd (At (level - 4)) z "stone";
            Fill runStart (At (level - 3)) z runEnd (At (level - 1)) z "dirt";
            Fill runStart (At level) z runEnd (At level) z "grass_block" ])
  ∧ ∀ z, chained (row_runs hm startX endX z).
Proof.
  intros Hwf Hx Hz endX endZ. split; [|intros z; apply row_runs_chained].
  by rewrite generateChunkCommands_runs.
Qed.

(** * Concrete runs of the emitter *)

Lemma terraces_well_formed : well_formed Examples.terraces.
Proof. split; [cbn; lia | repeat constructor; cbn; lia]. Qed.

Lemma run_length_lossless_witness :
  ∃ commands,
    generateChunkCommands Examples.terraces 0 0 16 = Some commands
    ∧ decode commands
      = [(0, 0, 64); (1, 0, 64); (2, 0, 65); (3, 0, 65);
         (0, 1, 70); (1, 1, 64); (2, 1, 64); (3, 1, 66)].
Proof.
  destruct (run_length_lossless Examples.terraces 0 0 16 terraces_well_formed
              ltac:(lia) ltac:(lia)) as (commands & Hrun & Hdecode & _).
  exists commands. split; [exact Hrun|]. rewrite Hdecode. vm_compute. reflexivity.
Defined.

Lemma three_fills_per_run_witness :
  generateChunkCommands Examples.terraces 0 1 16
  = Some [ Fill 0 (At 60) 1 0 (At 66) 1 "stone";
           Fill 0 (At 67) 1 0 (At 69) 1 "dirt";
           Fill 0 (At 70) 1 0 (At 70) 1 "grass_block";
           Fill 1 (At 60) 1 2 (At 60) 1 "stone";
           Fill 1 (At 61) 1 2 (At 63) 1 "dirt";
           Fill 1 (At 64) 1 2 (At 64) 1 "grass_block";
           Fill 3 (At 60) 1 3 (At 62) 1 "stone";
           Fill 3 (At 63) 1 3 (At 65) 1 "dirt";
           Fill 3 (At 66) 1 3 (At 66) 1 "grass_block" ].
Proof.
  destruct (three_fills_per_run Examples.terraces 0 1 16 terraces_well_formed
              ltac:(lia) ltac:(lia)) as [Hrun _].
  rewrite Hrun. vm_compute. reflexivity.
Defined.

(** C8, as stated, fails: over a minimum level of 64, the run of the one cell
    at level 70 gets its stone from level 60 up to level 66, not at level 66
    alone. *)
Lemma stone_base_counterexample : ¬ stone_base_at_surface Examples.peak.
Proof.
  intros Hclaim.
  destruct (Hclaim 0 0 16 _ 0 (At 60) 0 0 (At 66) 0 eq_refl ltac:(by left))
    as (level & Hin & Hy1 & Hy2).
  injection Hy1 as Hy1. injection Hy2 as Hy2. lia.
Qed.

(** The text of the fills, as the template strings print them. *)
Example rendered_fills :
  map render <$> generateChunkCommands Examples.peak 0 0 16
  = Some [ "fill ~0 ~60 ~0 ~0 ~66 ~0 stone";
           "fill ~0 ~67 ~0 ~0 ~69 ~0 dirt";
           "fill ~0 ~70 ~0 ~0 ~70 ~0 grass_block" ].
Proof. vm_compute. reflexivity. Qed.

(** * The incremental loader protocol *)

Import Host Loader.

Section Protocol.

Lemma run_script_app (c1 c2 : list command) (w : World) :
  run_script (c1 ++ c2) w = run_script c2 (run_script c1 w).
Proof. unfold run_script. apply foldl_app. Qed.

Lemma run_script_cons (c : command) (cs : list command) (w : World) :
  run_script (c :: cs) w = run_script cs (run_command c w).
Proof. reflexivity. Qed.

Lemma dispatch_miss (i k : Z) (w : World) :
  counter w = Some k → i ≠ k → run_command (dispatchRow i) w = w.
Proof.
  unfold counter. intros Hk Hne. simpl. rewrite Hk. simpl.
  destruct (Z.eqb_spec k i); [congruence | done].
Qed.

Lemma dispatch_hit (k : Z) (w : World) :
  counter w = Some k → run_command (dispatchRow k) w = log (Ran (rowName k)) w.
Proof. unfold counter. intros Hk. simpl. rewrite Hk. simpl. by rewrite Z.eqb_refl. Qed.

Lemma dispatch_table_miss (n : nat) (a k : Z) (w : World) :
  counter w = Some k → (k < a ∨ a + Z.of_nat n <= k) →
  run_script (map dispatchRow (seqZ a (Z.of_nat n))) w = w.
Proof.
  revert a. induction n as [|n IH]; intros a Hk Hout.
  - done.
  - rewrite Nat2Z.inj_succ, seqZ_cons by lia.
    replace (Z.pred (Z.succ (Z.of_nat n))) with (Z.of_nat n) by lia.
    rewrite fmap_cons, run_script_cons, (dispatch_miss a k) by (done || lia).
    apply IH; [done | lia].
Qed.

Lemma dispatch_table_hit (n : nat) (a k : Z) (w : World) :
  counter w = Some k → a <= k < a + Z.of_nat n →
  run_script (map dispatchRow (seqZ a (Z.of_nat n))) w = log (Ran (rowName k)) w.
Proof.
  revert a. induction n as [|n IH]; intros a Hk Hin.
  - lia.
  - rewrite Nat2Z.inj_succ, seqZ_cons by lia.
    replace (Z.pred (Z.succ (Z.of_nat n))) with (Z.of_nat n) by lia.
    rewrite fmap_cons, run_script_cons.
    destruct (decide (a = k)) as [->|Hne].
    + rewrite dispatch_hit by done.
      apply (dispatch_table_miss n (Z.succ k) k); [done | lia].
    + rewrite (dispatch_miss a k) by done.
      apply IH; [done | lia].
Qed.


Lemma dispatch_table (n k : Z) (w : World) :
  counter w = Some k → 0 <= k < n →
  run_script (map dispatchRow (seqZ 0 n)) w = log (Ran (rowName k)) w.
Proof.
  intros Hk Hin. rewrite <- (Z2Nat.id n) by lia.
  apply dispatch_table_hit; [done | lia].
Qed.

Lemma run_add (k : Z) (w : World) :
  "loader" ∈ objectives w → counter w = Some k →
  run_command (ScoreboardPlayersAdd "terrain_row" "loader" 1) w
  = set_score "terrain_row" "loader" (k + 1) w.
Proof.
  unfold counter. intros Hobj Hk. cbn [run_command].
  by rewrite (bool_decide_eq_true_2 _ Hobj), Hk.
Qed.

Lemma run_at_least (n v : Z) (c : command) (w : World) :
  counter w = Some v →
  run_command (ExecuteIfScore "terrain_row" "loader" (AtLeast (Count n)) c) w
  = if n <=? v then run_command c w else w.
Proof. unfold counter. intros Hv. cbn [run_command]. by rewrite Hv. Qed.

Lemma counter_set_score (v : Z) (w : World) :
  counter (set_score "terrain_row" "loader" v w) = Some v.
Proof. apply lookup_insert_eq. Qed.

Lemma rowLoaderCommands_rows (n : Z) (script : list command) :
  rowLoaderCommands (Count n) = Some script →
  script
  = [ Line "# Progressive row loader - run multiple times";
      Line "# Each run loads one row of the terrain";
      Line "" ]
    ++ map dispatchRow (seqZ 0 n)
    ++ [ Line "";
         ScoreboardPlayersAdd "terrain_row" "loader" 1;
         ExecuteIfScore "terrain_row" "loader" (AtLeast (Count n)) (Say "Terrain complete!");
         ExecuteIfScore "terrain_row" "loader" (AtLeast (Count n))
           (ScoreboardPlayersSet "terrain_row" "loader" 0) ].
Proof.
  unfold rowLoaderCommands, Array_from_length.
  destruct (n <? 2 ^ 32); [|done]. by intros [= <-].
Qed.

Lemma row_loader_step (n k : Z) (script : list command) (w : World) :
  rowLoaderCommands (Count n) = Some script →
  "loader" ∈ objectives w → counter w = Some k → 0 <= k < n →
  let w' := run_script script w in
  objectives w' = objectives w
  ∧ (k + 1 < n → events w' = events w ++ [Ran (rowName k)] ∧ counter w' = Some (k + 1))
  ∧ (k + 1 = n →
       events w' = events w ++ [Ran (rowName k); Said "Terrain complete!"]
       ∧ counter w' = Some 0).
Proof.
  intros Hscript Hobj Hk Hin. apply rowLoaderCommands_rows in Hscript as ->.
  cbv zeta. rewrite !run_script_app.
  change (run_script [Line _; Line _; Line _] w) with w.
  rewrite (dispatch_table n k) by done.
  set (w1 := log (Ran (rowName k)) w).
  rewrite !run_script_cons. change (run_script [] ?x) with x.
  change (run_command (Line "") w1) with w1.
  rewrite (run_add k) by done.
  set (w2 := set_score "terrain_row" "loader" (k + 1) w1).
  rewrite (run_at_least n (k + 1) _ w2) by apply counter_set_score.
  destruct (Z.leb_spec n (k + 1)) as [Hge|Hlt].
  - rewrite (run_at_least n (k + 1)) by apply counter_set_score.
    destruct (Z.leb_spec n (k + 1)); [|lia].
    cbn [run_command]. rewrite bool_decide_eq_true_2 by exact Hobj.
    split; [done|]. split; [lia|]. intros _. split.
    + cbn. by rewrite <- app_assoc.
    + apply counter_set_score.
  - rewrite (run_at_least n (k + 1)) by apply counter_set_score.
    destruct (Z.leb_spec n (k + 1)); [lia|].
    split; [done|]. split; [|lia]. intros _. split; [done | apply counter_set_score].
Qed.

Lemma row_loader_run (m : nat) : ∀ (n k : Z) (script : list command) (w : World),
  rowLoaderCommands (Count n) = Some script →
  "loader" ∈ objectives w → counter w = Some k → 0 <= k → k + Z.of_nat (S m) = n →
  let w' := invoke (S m) script w in
  events w' = events w ++ map (λ i, Ran (rowName i)) (seqZ k (Z.of_nat (S m)))
              ++ [Said "Terrain complete!"]
  ∧ counter w' = Some 0.
Proof.
  induction m as [|m IH]; intros n k script w Hscript Hobj Hk H0 Hn.
  - destruct (row_loader_step n k script w Hscript Hobj Hk ltac:(lia)) as (_ & _ & Hlast).
    destruct (Hlast ltac:(lia)) as [Hev Hc]. cbn [invoke]. cbv zeta.
    rewrite Hev. split; [|done]. by rewrite seqZ_cons by lia.
  - destruct (row_loader_step n k script w Hscript Hobj Hk ltac:(lia)) as (Ho & Hmid & _).
    destruct (Hmid ltac:(lia)) as [Hev Hc].
    change (invoke (S (S m)) ?c w) with (invoke (S m) c (run_script c w)).
    cbv zeta.
    destruct (IH n (k + 1) script (run_script script w)) as [Hev' Hc'];
      [done | by rewrite Ho | done | lia | lia |].
    rewrite Hev', Hev, Hc'. split; [|done].
    rewrite (seqZ_cons k (Z.of_nat (S (S m)))) by lia.
    replace (Z.pred (Z.of_nat (S (S m)))) with (Z.of_nat (S m)) by lia.
    replace (Z.succ k) with (k + 1) by lia.
    by rewrite <- app_assoc.
Qed.

End Protocol.

Section Generator.
Variable path_join : list string → string.

Lemma bind_inv {A B : Type} (m : M A) (f : A → M B) (b : B) (st st' : State) :
  (m ≫= f) st = (Returns b, st') →
  ∃ a st1, m st = (Returns a, st1) ∧ f a st1 = (Returns b, st').
Proof.
  unfold mbind, M_bind. destruct (m st) as [[a|e|] st1]; [|done..].
  intros H. by exists a, st1.
Qed.

(** A run of [generateLoaderFunctions] that returns has written the
    incremental loader with one dispatch line per row script. *)
Lemma generateLoaderFunctions_row_loader (hm : Heightmap.HeightMap Z) (outputDir : string)
    (chunkSize : Z) (st st' : State) :
  generateLoaderFunctions path_join hm outputDir chunkSize st = (Returns (), st') →
  ∃ script,
    rowLoaderCommands (ceil_div (Heightmap.length hm) chunkSize) = Some script
    ∧ (rowLoaderPath path_join outputDir, join script) ∈ written st'.
Proof.
  unfold generateLoaderFunctions. intros Hrun.
  apply bind_inv in Hrun as (u1 & st1 & _ & Hrun).
  apply bind_inv in Hrun as (chunkNames & st2 & _ & Hrun).
  apply bind_inv in Hrun as (u3 & st3 & _ & Hrun).
  apply bind_inv in Hrun as (u4 & st4 & _ & Hrun).
  apply bind_inv in Hrun as (script & st5 & Hscript & Hrun).
  apply bind_inv in Hrun as (u6 & st6 & Hloader & Hrun).
  apply bind_inv in Hrun as (u7 & st7 & Hsetup & Hrun).
  destruct (rowLoaderCommands _) as [script'|]; [|done].
  injection Hscript as -> ->.
  injection Hloader as H6. injection Hsetup as H7. injection Hrun as H8.
  subst st' st7 st6.
  exists script. split; [done|].
  cbn [written]. apply elem_of_app. left. apply elem_of_app. right. by left.
Qed.

(** C4: for a generated grid with [rowCount >= 1] row scripts, starting with
    the counter at 0 and invoking the incremental loader [rowCount] times runs
    row 0, row 1, ... each once and in order, then reports completion once,
    and leaves the counter at 0. *)
Theorem incremental_protocol (hm : Heightmap.HeightMap Z) (outputDir : string)
    (chunkSize rowCount : Z) (st st' : State) (w : World) :
  generateLoaderFunctions path_join hm outputDir chunkSize st = (Returns (), st') →
  ceil_div (Heightmap.length hm) chunkSize = Count rowCount →
  1 <= rowCount →
  "loader" ∈ objectives w → counter w = Some 0 →
  ∃ script,
    rowLoaderCommands (Count rowCount) = Some script
    ∧ (rowLoaderPath path_join outputDir, join script) ∈ written st'
    ∧ events (invoke (Z.to_nat rowCount) script w)
      = events w ++ map (λ i, Ran (rowName i)) (seqZ 0 rowCount) ++ [Said "Terrain complete!"]
    ∧ counter (invoke (Z.to_nat rowCount) script w) = Some 0.
Proof.
  intros Hrun Hrows Hcount Hobj Hzero.
  destruct (generateLoaderFunctions_row_loader hm outputDir chunkSize st st' Hrun)
    as (script & Hscript & Hwritten).
  rewrite Hrows in Hscript. exists script. split; [done|]. split; [done|].
  destruct (Z.to_nat rowCount) as [|m] eqn:Hm; [lia|].
  pose proof (row_loader_run m rowCount 0 script w Hscript Hobj Hzero ltac:(lia) ltac:(lia))
    as Hloop.
  cbv zeta in Hloop. by replace (Z.of_nat (S m)) with rowCount in Hloop by lia.
Qed.

End Generator.

(** * Concrete runs of the loader *)

Lemma incremental_protocol_witness :
  ∃ script,
    rowLoaderCommands (Count 2) = Some script
    ∧ events (invoke 2 script Examples.ready)
      = [ Said "Terrain loader initialized. Run /function load_terrain_row repeatedly.";
          Ran "terrain/row_0"; Ran "terrain/row_1"; Said "Terrain complete!" ]
    ∧ counter (invoke 2 script Examples.ready) = Some 0.
Proof.
  destruct (incremental_protocol Examples.slashes Examples.terraces "out" 1 2 Examples.start
              (snd (generateLoaderFunctions Examples.slashes Examples.terraces "out" 1 Examples.start))
              Examples.ready) as (script & Hscript & _ & Hevents & Hcounter).
  - vm_compute. reflexivity.
  - vm_compute. reflexivity.
  - lia.
  - apply (bool_decide_unpack _). vm_compute. exact I.
  - vm_compute. reflexivity.
  - exists script. split; [exact Hscript|]. split; [|exact Hcounter].
    etrans; [exact Hevents|]. vm_compute. reflexivity.
Defined.

(** The incremental loader of a grid of 10 rows is, line for line, the
    [load_terrain_row.mcfunction] of the repository's behaviour pack. *)
Example load_terrain_row_mcfunction :
  map render <$> rowLoaderCommands (Count 10)
  = Some
    [ "# Progressive row loader - run multiple times";
      "# Each run loads one row of the terrain";
      "";
      "execute if score terrain_row loader matches 0 run function terrain/row_0";
      "execute if score terrain_row loader matches 1 run function terrain/row_1";
      "execute if score terrain_row loader matches 2 run function terrain/row_2";
      "execute if score terrain_row loader matches 3 run function terrain/row_3";
      "execute if score terrain_row loader matches 4 run function terrain/row_4";
      "execute if score terrain_row loader matches 5 run function terrain/row_5";
      "execute if score terrain_row loader matches 6 run function terrain/row_6";
      "execute if score terrain_row loader matches 7 run function terrain/row_7";
      "execute if score terrain_row loader matches 8 run function terrain/row_8";
      "execute if score terrain_row loader matches 9 run function terrain/row_9";
      "";
      "scoreboard players add terrain_row loader 1";
      "execute if score terrain_row loader matches 10.. run say Terrain complete!";
      "execute if score terrain_row loader matches 10.. run scoreboard players set terrain_row loader 0" ].
Proof. vm_compute. reflexivity. Qed.

(** A chunk size of 0 over a height map with cells: the chunk counts are
    infinite and the generation loops have no last iteration.  Over a height
    map without cells the counts are NaN, no loop runs, and the loader files
    are written with NaN in them. *)
Example zero_chunk_size :
  fst (generateLoaderFunctions Examples.slashes Examples.peak "out" 0 Examples.start) = Diverges
  ∧ ∃ st',
      generateLoaderFunctions Examples.slashes (Heightmap.mkHeightMap 0 0 [] 64 64) "out" 0 Examples.start
      = (Returns (), st')
      ∧ (rowLoaderPath Examples.slashes "out",
         String.concat newline
           [ "# Progressive row loader - run multiple times";
             "# Each run loads one row of the terrain";
             "";
             "";
             "scoreboard players add terrain_row loader 1";
             "execute if score terrain_row loader matches NaN.. run say Terrain complete!";
             "execute if score terrain_row loader matches NaN.. run scoreboard players set terrain_row loader 0" ])
        ∈ written st'.
Proof.
  split; [vm_compute; reflexivity|].
  eexists. split; [vm_compute; reflexivity|].
  apply (bool_decide_unpack _). vm_compute. exact I.
Qed.

Import Js Node Srtm SrtmSpec Ranges.

(** *** Comparing integer-valued doubles *)

Lemma digits2_pos_bounds (m : positive) :
  2 ^ (Z.pos (digits2_pos m) - 1) <= Z.pos m < 2 ^ Z.pos (digits2_pos m).
Proof.
  induction m as [m IH|m IH|]; cbn [digits2_pos]; [| |cbn; lia].
  - rewrite Pos2Z.inj_succ.
    replace (Z.succ (Z.pos (digits2_pos m)) - 1) with (Z.succ (Z.pos (digits2_pos m) - 1)) by lia.
    rewrite !Z.pow_succ_r by lia. lia.
  - rewrite Pos2Z.inj_succ.
    replace (Z.succ (Z.pos (digits2_pos m)) - 1) with (Z.succ (Z.pos (digits2_pos m) - 1)) by lia.
    rewrite !Z.pow_succ_r by lia. lia.
Qed.

(** The mantissa of a double has 53 bits, or fewer at the least exponent. *)
Lemma bounded_mantissa (m : positive) (e : Z) :
  bounded prec emax m e = true →
  -1074 <= e ∧ Z.pos m < 2 ^ 53 ∧ (-1074 < e → 2 ^ 52 <= Z.pos m).
Proof.
  unfold bounded, canonical_mantissa, fexp, SpecFloat.emin, prec, emax.
  intros Hb. apply andb_prop in Hb as [Hc _]. apply Z.eqb_eq in Hc.
  pose proof (digits2_pos_bounds m) as [Hlo Hhi].
  assert (Hd : Z.pos (digits2_pos m) <= 53) by lia.
  split; [lia|]. split.
  - eapply Z.lt_le_trans; [exact Hhi|]. apply Z.pow_le_mono_r; lia.
  - intros He. replace (Z.pos (digits2_pos m)) with 53 in Hlo by lia. exact Hlo.
Qed.

Lemma scaled_compare (m1 m2 : positive) (e1 e2 : Z) :
  bounded prec emax m1 e1 = true → bounded prec emax m2 e2 = true →
  match e1 ?= e2 with
  | Eq => Pos.compare_cont Eq m1 m2
  | Lt => Lt
  | Gt => Gt
  end = (scaled m1 e1 ?= scaled m2 e2).
Proof.
  intros H1 H2.
  apply bounded_mantissa in H1 as (He1 & Hm1 & Hn1).
  apply bounded_mantissa in H2 as (He2 & Hm2 & Hn2).
  unfold scaled. symmetry.
  destruct (Z.compare_spec e1 e2) as [->|Hlt|Hgt].
  - pose proof (Z.pow_pos_nonneg 2 (e2 + 1074) ltac:(lia) ltac:(lia)).
    change (Pos.compare_cont Eq m1 m2) with (Z.pos m1 ?= Z.pos m2).
    destruct (Z.compare_spec (Z.pos m1) (Z.pos m2)) as [Heq|Hl|Hg].
    + rewrite Heq. apply Z.compare_refl.
    + apply Z.compare_lt_iff. by apply Z.mul_lt_mono_pos_r.
    + apply Z.compare_gt_iff. by apply Z.mul_lt_mono_pos_r.
  - apply Z.compare_lt_iff.
    pose proof (Z.pow_pos_nonneg 2 (e1 + 1074) ltac:(lia) ltac:(lia)) as Hp.
    replace (e2 + 1074) with ((e1 + 1074) + (e2 - e1)) by lia.
    rewrite (Z.pow_add_r 2 (e1 + 1074) (e2 - e1)) by lia.
    assert (2 <= 2 ^ (e2 - e1)).
    { change 2 with (2 ^ 1) at 1. apply Z.pow_le_mono_r; lia. }
    specialize (Hn2 ltac:(lia)).
    change (2 ^ 53) with (2 ^ 52 * 2) in Hm1.
    assert (Z.pos m1 < Z.pos m2 * 2 ^ (e2 - e1)) by nia.
    rewrite (Z.mul_comm (2 ^ (e1 + 1074))), Z.mul_assoc.
    by apply Z.mul_lt_mono_pos_r.
  - apply Z.compare_gt_iff.
    pose proof (Z.pow_pos_nonneg 2 (e2 + 1074) ltac:(lia) ltac:(lia)) as Hp.
    replace (e1 + 1074) with ((e2 + 1074) + (e1 - e2)) by lia.
    rewrite (Z.pow_add_r 2 (e2 + 1074) (e1 - e2)) by lia.
    assert (2 <= 2 ^ (e1 - e2)).
    { change 2 with (2 ^ 1) at 1. apply Z.pow_le_mono_r; lia. }
    specialize (Hn1 ltac:(lia)).
    change (2 ^ 53) with (2 ^ 52 * 2) in Hm2.
    assert (Z.pos m2 < Z.pos m1 * 2 ^ (e1 - e2)) by nia.
    rewrite (Z.mul_comm (2 ^ (e2 + 1074))), Z.mul_assoc.
    by apply Z.mul_lt_mono_pos_r.
Qed.

(** The integer a double holds, scaled. *)
Lemma to_int_scaled (s : bool) (m : positive) (e a : Z) :
  -1074 <= e →
  (if 0 <=? e then Some (signed s m * 2 ^ e)
   else if signed s m mod 2 ^ (- e) =? 0 then Some (signed s m / 2 ^ (- e))
   else None) = Some a →
  a * 2 ^ 1074 = (if s then - scaled m e else scaled m e).
Proof.
  intros He Ha. unfold scaled.
  assert (Hs : signed s m = if s then - Z.pos m else Z.pos m) by (by destruct s).
  destruct (Z.leb_spec 0 e).
  - injection Ha as <-. rewrite (Z.pow_add_r 2 e 1074) by lia. rewrite Hs. destruct s; lia.
  - destruct (Z.eqb_spec (signed s m mod 2 ^ (- e)) 0) as [Hm|]; [|done].
    injection Ha as <-.
    pose proof (Z.pow_pos_nonneg 2 (- e) ltac:(lia) ltac:(lia)) as Hp.
    apply Z.div_exact in Hm; [|lia].
    replace 1074 with ((- e) + (e + 1074)) at 1 by lia.
    rewrite (Z.pow_add_r 2 (- e) (e + 1074)) by lia.
    set (q := signed s m / 2 ^ (- e)) in *.
    rewrite Z.mul_assoc. replace (q * 2 ^ (- e)) with (signed s m) by lia.
    rewrite Hs. destruct s; lia.
Qed.

Lemma ltb_to_int (x y : number) (a b : Z) :
  to_int x = Some a → to_int y = Some b → (x <? y)%float = (a <? b).
Proof.
  unfold to_int. rewrite FloatAxioms.ltb_spec.
  pose proof (Prim2SF_valid x) as Hx. pose proof (Prim2SF_valid y) as Hy.
  pose proof (Z.pow_pos_nonneg 2 1074 ltac:(lia) ltac:(lia)) as Hp.
  destruct (Prim2SF x) as [sx|sx| |sx mx ex], (Prim2SF y) as [sy|sy| |sy my ey];
    try done; cbn [SpecFloat.valid_binary] in Hx, Hy.
  - intros [= <-] [= <-]. done.
  - intros [= <-] Hb.
    pose proof (bounded_mantissa _ _ Hy) as (He & _).
    apply to_int_scaled in Hb; [|done].
    assert (0 < scaled my ey).
    { unfold scaled. pose proof (Z.pow_pos_nonneg 2 (ey + 1074) ltac:(lia) ltac:(lia)). lia. }
    unfold SFltb. cbn [SFcompare]. destruct sy.
    + symmetry. apply Z.ltb_ge. nia.
    + symmetry. apply Z.ltb_lt. nia.
  - intros Ha [= <-].
    pose proof (bounded_mantissa _ _ Hx) as (He & _).
    apply to_int_scaled in Ha; [|done].
    assert (0 < scaled mx ex).
    { unfold scaled. pose proof (Z.pow_pos_nonneg 2 (ex + 1074) ltac:(lia) ltac:(lia)). lia. }
    unfold SFltb. cbn [SFcompare]. destruct sx.
    + symmetry. apply Z.ltb_lt. nia.
    + symmetry. apply Z.ltb_ge. nia.
  - intros Ha Hb.
    pose proof (bounded_mantissa _ _ Hx) as (Hex & _).
    pose proof (bounded_mantissa _ _ Hy) as (Hey & _).
    apply to_int_scaled in Ha; [|done]. apply to_int_scaled in Hb; [|done].
    assert (0 < scaled mx ex).
    { unfold scaled. pose proof (Z.pow_pos_nonneg 2 (ex + 1074) ltac:(lia) ltac:(lia)). lia. }
    assert (0 < scaled my ey).
    { unfold scaled. pose proof (Z.pow_pos_nonneg 2 (ey + 1074) ltac:(lia) ltac:(lia)). lia. }
    pose proof (scaled_compare mx my ex ey Hx Hy) as Hc.
    unfold SFltb. cbn [SFcompare].
    replace (match ex ?= ey with
             | Eq => CompOpp (Pos.compare_cont Eq mx my)
             | Lt => Gt
             | Gt => Lt
             end)
      with (CompOpp (scaled mx ex ?= scaled my ey))
      by (rewrite <- Hc; by destruct (ex ?= ey)).
    rewrite Hc.
    destruct sx, sy.
    + destruct (Z.compare_spec (scaled mx ex) (scaled my ey)); cbn [CompOpp]; symmetry;
        (apply Z.ltb_ge; nia) || (apply Z.ltb_lt; nia).
    + symmetry. apply Z.ltb_lt. nia.
    + symmetry. apply Z.ltb_ge. nia.
    + destruct (Z.compare_spec (scaled mx ex) (scaled my ey)); symmetry;
        (apply Z.ltb_ge; nia) || (apply Z.ltb_lt; nia).
Qed.

Lemma forall_range_spec (n : nat) (f : Z → bool) : ∀ z k,
  forall_range n z f = true → z <= k < z + Z.of_nat n → f k = true.
Proof.
  induction n as [|n IH]; intros z k Hall Hk; [lia|].
  cbn [forall_range] in Hall. apply andb_prop in Hall as [Hz Hall].
  destruct (decide (k = z)) as [->|Hne]; [done|].
  apply (IH (z + 1)); [done | lia].
Qed.

(** Every 16-bit integer is a double, exactly. *)
Lemma of_Z_int16 (z : Z) : int16 z → to_int (of_Z z) = Some z.
Proof.
  intros Hz.
  assert (Hall : forall_range (Z.to_nat 65536) (-32768)
                   (λ z, bool_decide (to_int (of_Z z) = Some z)) = true)
    by (vm_compute; reflexivity).
  apply (forall_range_spec _ _ _ z) in Hall; [by apply bool_decide_eq_true_1 in Hall|].
  rewrite Z2Nat.id by lia. unfold int16 in Hz. lia.
Qed.

Lemma to_int_not_nan (x : number) (a : Z) : to_int x = Some a → is_nan x = false.
Proof.
  unfold to_int, is_nan. rewrite FloatAxioms.eqb_spec. unfold SFeqb.
  destruct (Prim2SF x) as [s|s| |s m e]; try done. intros _. cbn [SFcompare].
  rewrite Z.compare_refl.
  change (Pos.compare_cont Eq m m) with (Pos.compare m m). rewrite Pos.compare_refl.
  by destruct s.
Qed.

Lemma Math_min_of_Z (x y : Z) :
  int16 x → int16 y → Math_min (of_Z x) (of_Z y) = of_Z (Z.min x y).
Proof.
  intros Hx Hy. unfold Math_min.
  rewrite (to_int_not_nan _ _ (of_Z_int16 x Hx)), (to_int_not_nan _ _ (of_Z_int16 y Hy)).
  cbn [orb].
  rewrite (ltb_to_int _ _ x y (of_Z_int16 x Hx) (of_Z_int16 y Hy)).
  rewrite (ltb_to_int _ _ y x (of_Z_int16 y Hy) (of_Z_int16 x Hx)).
  destruct (Z.ltb_spec x y); [by rewrite Z.min_l by lia|].
  destruct (Z.ltb_spec y x); [by rewrite Z.min_r by lia|].
  assert (x = y) as -> by lia. rewrite Z.min_id. by destruct (get_sign _).
Qed.

Lemma Math_max_of_Z (x y : Z) :
  int16 x → int16 y → Math_max (of_Z x) (of_Z y) = of_Z (Z.max x y).
Proof.
  intros Hx Hy. unfold Math_max.
  rewrite (to_int_not_nan _ _ (of_Z_int16 x Hx)), (to_int_not_nan _ _ (of_Z_int16 y Hy)).
  cbn [orb].
  rewrite (ltb_to_int _ _ x y (of_Z_int16 x Hx) (of_Z_int16 y Hy)).
  rewrite (ltb_to_int _ _ y x (of_Z_int16 y Hy) (of_Z_int16 x Hx)).
  destruct (Z.ltb_spec x y); [by rewrite Z.max_r by lia|].
  destruct (Z.ltb_spec y x); [by rewrite Z.max_l by lia|].
  assert (x = y) as -> by lia. rewrite Z.max_id. by destruct (get_sign _).
Qed.

Lemma Math_min_infinity (y : Z) : int16 y → Math_min infinity (of_Z y) = of_Z y.
Proof.
  intros Hy. pose proof (of_Z_int16 y Hy) as Hint. unfold Math_min.
  rewrite (to_int_not_nan _ _ Hint).
  change (is_nan infinity) with false. cbn [orb].
  rewrite !FloatAxioms.ltb_spec. change (Prim2SF infinity) with (S754_infinity false).
  unfold to_int in Hint. unfold SFltb.
  by destruct (Prim2SF (of_Z y)) as [s|s| |s m e].
Qed.

Lemma Math_max_neg_infinity (y : Z) : int16 y → Math_max neg_infinity (of_Z y) = of_Z y.
Proof.
  intros Hy. pose proof (of_Z_int16 y Hy) as Hint. unfold Math_max.
  rewrite (to_int_not_nan _ _ Hint).
  change (is_nan neg_infinity) with false. cbn [orb].
  rewrite !FloatAxioms.ltb_spec. change (Prim2SF neg_infinity) with (S754_infinity true).
  unfold to_int in Hint. unfold SFltb.
  by destruct (Prim2SF (of_Z y)) as [s|s| |s m e].
Qed.

Lemma foldl_min_of_Z (l : list Z) : ∀ m,
  int16 m → Forall int16 l →
  foldl (λ m e, Math_min m (of_Z e)) (of_Z m) l = of_Z (foldl Z.min m l).
Proof.
  induction l as [|e l IH]; intros m Hm Hl; [done|].
  apply Forall_cons in Hl as [He Hl]. cbn [foldl].
  rewrite Math_min_of_Z by done. apply IH; [|done]. unfold int16 in *. lia.
Qed.

Lemma foldl_max_of_Z (l : list Z) : ∀ m,
  int16 m → Forall int16 l →
  foldl (λ m e, Math_max m (of_Z e)) (of_Z m) l = of_Z (foldl Z.max m l).
Proof.
  induction l as [|e l IH]; intros m Hm Hl; [done|].
  apply Forall_cons in Hl as [He Hl]. cbn [foldl].
  rewrite Math_max_of_Z by done. apply IH; [|done]. unfold int16 in *. lia.
Qed.

Lemma foldl_min_least (l : list Z) : ∀ m,
  foldl Z.min m l ∈ m :: l ∧ ∀ e, e ∈ m :: l → foldl Z.min m l <= e.
Proof.
  induction l as [|x l IH]; intros m; cbn [foldl].
  - split; [by left|]. intros e He. apply list_elem_of_singleton in He. lia.
  - destruct (IH (Z.min m x)) as [Hin Hle]. split.
    + apply elem_of_cons in Hin as [Heq|Hin]; [|by right; right].
      rewrite Heq. destruct (Z.min_spec m x) as [[_ ->]|[_ ->]]; [by left | by right; left].
    + intros e He. apply elem_of_cons in He as [->|He].
      * specialize (Hle (Z.min m x) ltac:(by left)). lia.
      * apply elem_of_cons in He as [->|He].
        -- specialize (Hle (Z.min m x) ltac:(by left)). lia.
        -- apply Hle. by right.
Qed.

Lemma foldl_max_greatest (l : list Z) : ∀ m,
  foldl Z.max m l ∈ m :: l ∧ ∀ e, e ∈ m :: l → e <= foldl Z.max m l.
Proof.
  induction l as [|x l IH]; intros m; cbn [foldl].
  - split; [by left|]. intros e He. apply list_elem_of_singleton in He. lia.
  - destruct (IH (Z.max m x)) as [Hin Hle]. split.
    + apply elem_of_cons in Hin as [Heq|Hin]; [|by right; right].
      rewrite Heq. destruct (Z.max_spec m x) as [[_ ->]|[_ ->]]; [by right; left | by left].
    + intros e He. apply elem_of_cons in He as [->|He].
      * specialize (Hle (Z.max m x) ltac:(by left)). lia.
      * apply elem_of_cons in He as [->|He].
        -- specialize (Hle (Z.max m x) ltac:(by left)). lia.
        -- apply Hle. by right.
Qed.

Import Js Node Srtm SrtmSpec Ranges.

(** * More of the tile store *)

Lemma ToInt16_int16 (z : Z) : int16 (ToInt16 z).
Proof. unfold ToInt16, int16. pose proof (Z.mod_pos_bound (z + 32768) 65536). lia. Qed.

Lemma ToInt16_id (z : Z) : int16 z → ToInt16 z = z.
Proof. unfold ToInt16, int16. intros Hz. rewrite Z.mod_small by lia. lia. Qed.

Lemma parseTile_int16 (buffer : Buffer) (tile : Tile) (i : Z) :
  parseTile buffer = Some tile → int16 (tile i).
Proof.
  unfold parseTile. destruct (_ <=? _); [|done]. intros [= <-].
  unfold readInt16BE. destruct (_ && _); cbn [default]; [apply ToInt16_int16|].
  unfold int16. lia.
Qed.

Section Samples.
Variable path_join : list string → string.
Variable fs : string → option Buffer.
Variable dataDir : string.

(** A sample is a 16-bit integer other than the no-data value. *)
Lemma sample_of_int16 (lat lon : number) (e : Z) :
  sample_of path_join fs dataDir lat lon = Some (Some e) → -32767 <= e <= 32767.
Proof.
  unfold sample_of, tile_of.
  destruct (fs _) as [buffer|]; [|done]. cbn [mbind option_bind].
  destruct (parseTile buffer) as [tile|] eqn:Htile; [|done]. cbn [mbind option_bind].
  unfold sampleTile, tile_get. cbv zeta.
  destruct (to_int _) as [i|]; [|done].
  destruct (_ && _); [|done].
  pose proof (parseTile_int16 buffer tile i Htile) as Hi. unfold int16 in Hi.
  destruct (Z.eqb_spec (tile i) (-32768)) as [Heq|Hne]; intros [= <-]; lia.
Qed.

Lemma stored_int16 (bbox : BoundingBox) (step : number) (row col : Z) :
  int16 (default 0 (stored path_join fs dataDir bbox step row col)).
Proof.
  unfold stored. destruct (sample_of _ _ _ _ _) as [[e|]|] eqn:Hs.
  - apply sample_of_int16 in Hs. change (default 0 (Some e)) with e. unfold int16. lia.
  - unfold int16. cbn. lia.
  - unfold int16. cbn. lia.
Qed.

Lemma ranged_int16 (bbox : BoundingBox) (step : number) (rows cols : list Z) :
  Forall (λ e, -1000 < e <= 32767) (ranged path_join fs dataDir bbox step rows cols).
Proof.
  apply Forall_forall. intros e He. unfold ranged in He.
  apply list_elem_of_bind in He as (row & He & _).
  apply list_elem_of_bind in He as (col & He & _).
  destruct (sample_of _ _ _ _ _) as [[v|]|] eqn:Hs; cbn in He.
  - destruct (Z.ltb_spec (-1000) v); [|by apply elem_of_nil in He].
    apply list_elem_of_singleton in He as ->. apply sample_of_int16 in Hs. lia.
  - by apply elem_of_nil in He.
  - by apply elem_of_nil in He.
Qed.

(** X1: [loadTile] caches what it parses.  A load that returns has the tile
    in the cache, and loading that name again returns the same array without
    reading, logging or changing anything; a load that throws has changed
    nothing, so the next load tries the file again. *)
Theorem loadTile_caches (tileName : string) (st : State) :
  match loadTile path_join fs dataDir tileName st with
  | (Returns tile, st') =>
      tiles st' !! tileName = Some tile
      ∧ loadTile path_join fs dataDir tileName st' = (Returns tile, st')
  | (Throws _, st') => st' = st
  | (Diverges, _) => False
  end.
Proof.
  unfold loadTile at 1.
  destruct (tiles st !! tileName) as [cached|] eqn:Hc.
  - split; [done|]. unfold loadTile. by rewrite Hc.
  - destruct (fs _) as [buffer|]; [|done].
    destruct (parseTile buffer) as [data|]; [|done].
    assert (Hin : <[tileName := data]> (tiles st) !! tileName = Some data)
      by apply lookup_insert_eq.
    split; [exact Hin|]. unfold loadTile. cbn [tiles]. by rewrite Hin.
Qed.

(** X2: a point query that returns a number returns a 16-bit integer other
    than the no-data value: it lies between -32767 and 32767. *)
Theorem getElevation_in_range (lat lon : number) (st st' : State) (e : Z) :
  cache_ok path_join fs dataDir st →
  getElevation path_join fs dataDir lat lon st = (Returns (Some e), st') →
  -32767 <= e <= 32767.
Proof.
  intros Hok Hrun. pose proof (getElevation_spec path_join fs dataDir lat lon st Hok) as Hspec.
  destruct (sample_of path_join fs dataDir lat lon) as [elev|] eqn:Hs.
  - destruct Hspec as (st1 & Hrun1 & _). rewrite Hrun1 in Hrun. injection Hrun as -> _.
    by apply (sample_of_int16 lat lon).
  - destruct Hspec as (err & Hthrow). by rewrite Hthrow in Hrun.
Qed.

(** X3: the field of a region query agrees with the point queries.  After
    [loadBoundingBox] has returned, the cache still holds only tiles parsed
    from the files, and a point query at the position of a cell that returns
    a number returns the number the cell holds. *)
Theorem region_agrees_with_point_queries (bbox : BoundingBox) (st : State)
    (lats lons rows cols : list Z) (n : nat) :
  cache_ok path_join fs dataDir st → region_grid bbox lats lons rows cols n →
  ∃ ed st',
    loadBoundingBox path_join fs dataDir bbox st = (Returns ed, st')
    ∧ cache_ok path_join fs dataDir st'
    ∧ ∀ row col e st'',
        row ∈ rows → col ∈ cols →
        getElevation path_join fs dataDir (north bbox - of_Z row * arcSecond)%float
          (west bbox + of_Z col * arcSecond)%float st' = (Returns (Some e), st'') →
        cell ed row col = Some e.
Proof.
  intros Hok Hgrid.
  destruct (loadBoundingBox_cells path_join fs dataDir bbox st lats lons rows cols n Hok Hgrid)
    as (ed & st' & Hrun & Hok' & _ & _ & _ & _ & _ & Hcells & _).
  exists ed, st'. split; [exact Hrun|]. split; [exact Hok'|].
  intros row col e st'' Hrow Hcol Hpoint.
  rewrite (Hcells row col Hrow Hcol).
  pose proof (getElevation_spec path_join fs dataDir (north bbox - of_Z row * arcSecond)%float
                (west bbox + of_Z col * arcSecond)%float st' Hok') as Hspec.
  unfold stored.
  destruct (sample_of path_join fs dataDir _ _) as [elev|] eqn:Hs.
  - destruct Hspec as (st1 & Hrun1 & _). rewrite Hrun1 in Hpoint. injection Hpoint as -> _.
    change (default 0 (Some e)) with e. apply sample_of_int16 in Hs.
    rewrite ToInt16_id; [done | unfold int16; lia].
  - destruct Hspec as (err & Hthrow). by rewrite Hthrow in Hpoint.
Qed.

(** X4: when at least one sample enters the elevation range of a region
    query, the reported minimum and maximum are the least and the greatest of
    the samples that entered it. *)
Theorem elevation_range_is_least_and_greatest (bbox : BoundingBox) (st : State)
    (lats lons rows cols : list Z) (n : nat) :
  cache_ok path_join fs dataDir st → region_grid bbox lats lons rows cols n →
  ranged path_join fs dataDir bbox arcSecond rows cols ≠ [] →
  ∃ ed st' lo hi,
    loadBoundingBox path_join fs dataDir bbox st = (Returns ed, st')
    ∧ minElevation ed = of_Z lo ∧ maxElevation ed = of_Z hi
    ∧ lo ∈ ranged path_join fs dataDir bbox arcSecond rows cols
    ∧ hi ∈ ranged path_join fs dataDir bbox arcSecond rows cols
    ∧ ∀ e, e ∈ ranged path_join fs dataDir bbox arcSecond rows cols → lo <= e <= hi.
Proof.
  intros Hok Hgrid Hne.
  destruct (loadBoundingBox_cells path_join fs dataDir bbox st lats lons rows cols n Hok Hgrid)
    as (ed & st' & Hrun & _ & _ & _ & _ & _ & _ & _ & Hmin & Hmax).
  pose proof (ranged_int16 bbox arcSecond rows cols) as Hall.
  destruct (ranged path_join fs dataDir bbox arcSecond rows cols) as [|e0 es]; [done|].
  apply Forall_cons in Hall as [He0 Hes].
  assert (Hes' : Forall int16 es).
  { eapply Forall_impl; [exact Hes|]. intros e He. cbn beta in He. unfold int16. lia. }
  assert (He0' : int16 e0) by (cbn beta in He0; unfold int16; lia).
  cbn [foldl] in Hmin, Hmax.
  rewrite Math_min_infinity, foldl_min_of_Z in Hmin by done.
  rewrite Math_max_neg_infinity, foldl_max_of_Z in Hmax by done.
  destruct (foldl_min_least es e0) as [Hlo_in Hlo].
  destruct (foldl_max_greatest es e0) as [Hhi_in Hhi].
  exists ed, st', (foldl Z.min e0 es), (foldl Z.max e0 es).
  repeat (split; [done|]). intros e He. split; [by apply Hlo | by apply Hhi].
Qed.

(** X5: at the native step the height field is built on the field of the
    region query.  With [downsample] 1, [generateHeightmap] has the dimensions
    of the field [loadBoundingBox] returns for the same box, and the level of
    each cell is the level of that field's cell (0 for a cell at or below
    -1000) over that field's minimum elevation. *)
Theorem heightmap_of_region_field (config : Heightmap.TerrainConfig) (st : State)
    (lats lons rows cols : list Z) (n : nat) :
  cache_ok path_join fs dataDir st →
  region_grid (Heightmap.bbox config) lats lons rows cols n →
  Heightmap.downsample config = 1%float →
  ∃ ed st1 hm st2,
    loadBoundingBox path_join fs dataDir (Heightmap.bbox config) st = (Returns ed, st1)
    ∧ Heightmap.generateHeightmap path_join fs dataDir config st1 = (Returns hm, st2)
    ∧ Heightmap.width hm = width ed
    ∧ Heightmap.length hm = height ed
    ∧ ∀ z x e, z ∈ rows → x ∈ cols → cell ed z x = Some e →
        HeightmapSpec.level_at hm z x
        = Some (Heightmap.level config (minElevation ed) (if -1000 <? e then e else 0)).
Proof.
  intros Hok Hgrid Hds.
  destruct (loadBoundingBox_cells path_join fs dataDir _ st lats lons rows cols n Hok Hgrid)
    as (ed & st1 & Hrun & Hok1 & _ & _ & Hw & Hh & _ & Hcells & Hmin & _).
  assert (Hstep : HeightmapSpec.step_of config = arcSecond).
  { unfold HeightmapSpec.step_of. rewrite Hds. reflexivity. }
  destruct Hgrid as (_ & _ & Hrows & Hcols & _). cbv zeta in Hrows, Hcols.
  assert (Hwidth : HeightmapSpec.width_of config
                   = Math_ceil ((east (Heightmap.bbox config) - west (Heightmap.bbox config))
                                / arcSecond)%float)
    by (unfold HeightmapSpec.width_of; by rewrite Hstep).
  assert (Hlength : HeightmapSpec.length_of config
                    = Math_ceil ((north (Heightmap.bbox config) - south (Heightmap.bbox config))
                                 / arcSecond)%float)
    by (unfold HeightmapSpec.length_of; by rewrite Hstep).
  rewrite <- Hlength in Hrows. rewrite <- Hwidth in Hcols.
  destruct (generateHeightmap_spec path_join fs dataDir config rows cols st1 Hok1 Hrows Hcols)
    as (st2 & Hbuild & _).
  eexists ed, st1, _, st2. split; [exact Hrun|]. split; [exact Hbuild|].
  cbn [Heightmap.width Heightmap.length Heightmap.heights].
  split; [by rewrite Hw, Hwidth|]. split; [by rewrite Hh, Hlength|].
  intros z x e Hz Hx Hcell. unfold HeightmapSpec.level_at. cbn [Heightmap.heights].
  rewrite (at_index_map_counter _ _ _ _ Hrows Hz). cbn [mbind option_bind].
  rewrite (at_index_map_counter _ _ _ _ Hcols Hx).
  unfold HeightmapSpec.minElev_of. rewrite Hstep, <- Hmin. do 2 f_equal.
  rewrite (Hcells z x Hz Hx) in Hcell. injection Hcell as <-.
  unfold HeightmapSpec.pushed, stored.
  destruct (sample_of path_join fs dataDir _ _) as [[v|]|] eqn:Hs.
  - change (default 0 (Some v)) with v. apply sample_of_int16 in Hs.
    rewrite ToInt16_id by (unfold int16; lia). done.
  - done.
  - done.
Qed.

End Samples.

(** * Concrete runs of the tile store, continued *)

Lemma getElevation_in_range_witness :
  fst (getElevation Examples.slashes (Examples.oneTile (Examples.flatBuffer x00 x96)) "srtm"
         0.5%float 0.5%float Examples.start) = Returns (Some 150)
  ∧ -32767 <= 150 <= 32767.
Proof.
  assert (Hfst : fst (getElevation Examples.slashes (Examples.oneTile (Examples.flatBuffer x00 x96)) "srtm"
                        0.5%float 0.5%float Examples.start) = Returns (Some 150))
    by (vm_compute; reflexivity).
  split; [exact Hfst|].
  destruct (getElevation Examples.slashes (Examples.oneTile (Examples.flatBuffer x00 x96)) "srtm"
              0.5%float 0.5%float Examples.start) as [r st'] eqn:Hrun.
  cbn [fst] in Hfst. subst r.
  exact (getElevation_in_range Examples.slashes (Examples.oneTile (Examples.flatBuffer x00 x96)) "srtm"
           0.5%float 0.5%float Examples.start st' 150 (cache_ok_start _ _ _) Hrun).
Defined.

Lemma edge_field :
  fst (loadBoundingBox Examples.slashes (Examples.oneTile (Examples.flatBuffer x00 x96)) "srtm" Examples.edge
         Examples.start) = Returns Examples.edgeField.
Proof. vm_compute. reflexivity. Qed.

Lemma region_agrees_with_point_queries_witness :
  ∃ ed st',
    loadBoundingBox Examples.slashes (Examples.oneTile (Examples.flatBuffer x00 x96)) "srtm" Examples.edge
      Examples.start = (Returns ed, st')
    ∧ cell ed 0 0 = Some 150.
Proof.
  destruct (region_agrees_with_point_queries Examples.slashes (Examples.oneTile (Examples.flatBuffer x00 x96))
              "srtm" Examples.edge Examples.start [0] [0; 1] [0] [0; 1] 2
              (cache_ok_start _ _ _) region_grid_edge) as (ed & st' & Hrun & Hok & Hagree).
  exists ed, st'. split; [exact Hrun|].
  pose proof (getElevation_spec Examples.slashes (Examples.oneTile (Examples.flatBuffer x00 x96)) "srtm"
                (north Examples.edge - of_Z 0 * arcSecond)%float
                (west Examples.edge + of_Z 0 * arcSecond)%float st' Hok) as Hpoint.
  replace (sample_of _ _ _ _ _) with (Some (Some 150)) in Hpoint by (vm_compute; reflexivity).
  destruct Hpoint as (st'' & Hpoint & _).
  exact (Hagree 0 0 150 st'' ltac:(by left) ltac:(by left) Hpoint).
Defined.

Lemma elevation_range_is_least_and_greatest_witness :
  ∃ ed st',
    loadBoundingBox Examples.slashes (Examples.oneTile (Examples.flatBuffer x00 x96)) "srtm" Examples.edge
      Examples.start = (Returns ed, st')
    ∧ minElevation ed = 150%float ∧ maxElevation ed = 150%float.
Proof.
  destruct (elevation_range_is_least_and_greatest
              Examples.slashes (Examples.oneTile (Examples.flatBuffer x00 x96)) "srtm" Examples.edge
              Examples.start [0] [0; 1] [0] [0; 1] 2 (cache_ok_start _ _ _) region_grid_edge)
    as (ed & st' & lo & hi & Hrun & Hmin & Hmax & Hlo & Hhi & _).
  - vm_compute. discriminate.
  - exists ed, st'. split; [exact Hrun|].
    assert (Hranged : ranged Examples.slashes (Examples.oneTile (Examples.flatBuffer x00 x96)) "srtm"
                        Examples.edge arcSecond [0] [0; 1] = [150])
      by (vm_compute; reflexivity).
    rewrite Hranged in Hlo, Hhi.
    apply list_elem_of_singleton in Hlo as ->. apply list_elem_of_singleton in Hhi as ->.
    split; [rewrite Hmin | rewrite Hmax]; vm_compute; reflexivity.
Defined.

Lemma heightmap_of_region_field_witness :
  ∃ ed st1 hm st2,
    loadBoundingBox Examples.slashes (Examples.oneTile (Examples.flatBuffer x00 x96)) "srtm" Examples.edge
      Examples.start = (Returns ed, st1)
    ∧ Heightmap.generateHeightmap Examples.slashes (Examples.oneTile (Examples.flatBuffer x00 x96)) "srtm"
        Examples.config st1 = (Returns hm, st2)
    ∧ cell ed 0 0 = Some 150
    ∧ HeightmapSpec.level_at hm 0 0 = Some 64%float.
Proof.
  destruct (heightmap_of_region_field Examples.slashes (Examples.oneTile (Examples.flatBuffer x00 x96)) "srtm"
              Examples.config Examples.start [0] [0; 1] [0] [0; 1] 2
              (cache_ok_start _ _ _) region_grid_edge eq_refl)
    as (ed & st1 & hm & st2 & Hrun & Hbuild & _ & _ & Hlevel).
  exists ed, st1, hm, st2. split; [exact Hrun|]. split; [exact Hbuild|].
  assert (Hed : ed = Examples.edgeField).
  { pose proof edge_field as Hfield. cbn [Examples.config Heightmap.bbox] in Hrun.
    rewrite Hrun in Hfield. by injection Hfield. }
  assert (Hcell : cell ed 0 0 = Some 150) by (rewrite Hed; vm_compute; reflexivity).
  split; [exact Hcell|].
  rewrite (Hlevel 0 0 150 ltac:(by left) ltac:(by left) Hcell), Hed.
  vm_compute. reflexivity.
Defined.

Import Js Node Srtm SrtmSpec.

(** * The per-block generator *)

(** A loop whose body returns a function of the counter and the variables,
    and changes the state by a function of the counter, is a fold. *)
Lemma for_each_fold {S : Type} (f : Z → S → S) (g : Z → State → State)
    (body : Z → S → M S) (ks : list Z) :
  (∀ k s st, body k s st = (Returns (f k s), g k st)) →
  ∀ s st,
    for_each ks body s st
    = (Returns (foldl (λ s k, f k s) s ks), foldl (λ st k, g k st) st ks).
Proof.
  intros Hbody. induction ks as [|k ks IH]; intros s st; [done|].
  cbn [for_each foldl]. unfold mbind, M_bind. rewrite Hbody. apply IH.
Qed.

(** What a loop that only reads keeps of a property of its variables. *)
Lemma foldl_invariant {S : Type} (P : S → Prop) (f : S → Z → S) (ks : list Z) :
  (∀ s k, k ∈ ks → P s → P (f s k)) → ∀ s, P s → P (foldl f s ks).
Proof.
  induction ks as [|k ks IH]; intros Hstep s Hs; [done|].
  cbn [foldl]. apply IH.
  - intros s' k' Hk'. apply Hstep. by right.
  - apply Hstep; [by left | done].
Qed.

Lemma foldl_same {A B : Type} (s : A) (l : list B) : foldl (λ s _, s) s l = s.
Proof. by induction l. Qed.

Section TerrainBlocks.
Import Terrain TerrainSpec.
Variables (elevation : ElevationData) (config : TerrainConfig).

Lemma terrainRow_fold (sampleStep width length : number) (cols : list Z) (z : Z) (acc : Acc)
    (st : State) :
  counter_values 0%float width false = Some cols →
  ∃ st', terrainRow elevation config sampleStep width length z acc st
         = (Returns (row_fold elevation config sampleStep cols acc z), st').
Proof.
  intros Hcols. unfold terrainRow, for_counter. rewrite Hcols.
  unfold mbind at 1, M_bind at 1.
  rewrite (for_each_fold (terrainCell elevation config sampleStep z) (λ _ st, st))
    by done.
  rewrite foldl_same.
  unfold mbind, M_bind. destruct (z mod 50 =? 0); by eexists.
Qed.

Lemma terrainRegion_fold (sampleStep width length : number) (rows cols : list Z) (st : State) :
  counter_values 0%float length false = Some rows →
  counter_values 0%float width false = Some cols →
  ∃ st', terrainRegion elevation config sampleStep width length st
         = (Returns (region_fold elevation config sampleStep rows cols), st').
Proof.
  intros Hrows Hcols. unfold terrainRegion, for_counter, region_fold. rewrite Hrows.
  clear Hrows. generalize ({| acc_blocks := []; acc_minY := infinity; acc_maxY := neg_infinity |}).
  revert st. induction rows as [|z rows IH]; intros st acc; [by eexists|].
  cbn [for_each foldl]. unfold mbind, M_bind.
  destruct (terrainRow_fold sampleStep width length cols z acc st Hcols) as (st1 & ->).
  apply IH.
Qed.

Lemma generateTerrain_fold (rows cols : list Z) (st : State) :
  counter_values 0%float (Math_ceil (Srtm.height elevation / sampleStep_of config)%float) false
  = Some rows →
  counter_values 0%float (Math_ceil (Srtm.width elevation / sampleStep_of config)%float) false
  = Some cols →
  let acc := region_fold elevation config (sampleStep_of config) rows cols in
  ∃ st',
    generateTerrain elevation config st
    = (Returns {| blocks := acc_blocks acc;
                  Terrain.width := Math_ceil (Srtm.width elevation / sampleStep_of config)%float;
                  length := Math_ceil (Srtm.height elevation / sampleStep_of config)%float;
                  minY := acc_minY acc;
                  maxY := acc_maxY acc;
                  blockCount := List.length (acc_blocks acc) |}, st').
Proof.
  intros Hrows Hcols acc. unfold generateTerrain. fold (sampleStep_of config).
  unfold mbind, M_bind, print.
  match goal with
  | |- context [terrainRegion ?e ?c ?s ?w ?l ?st0] =>
      destruct (terrainRegion_fold s w l rows cols st0 Hrows Hcols) as (st1 & ->)
  end.
  by eexists.
Qed.

Lemma getBlockType_names (elev surfaceY y : number) :
  getBlockType elev surfaceY y ∈ block_names.
Proof.
  unfold getBlockType, block_names.
  destruct (strict_eq y surfaceY).
  - destruct (elev <? 50)%float; [by left|].
    destruct (elev <? 150)%float; [by left|].
    destruct (elev <? 250)%float; [by right; left | by right; right; left].
  - destruct (ge y (surfaceY - 3)%float); [by right; right; right; left | by right; right; left].
Qed.

Lemma column_blocks (elev surfaceY : number) (x0 z0 : Z) :
  cell_blocks x0 z0 (column elev surfaceY x0 z0).
Proof.
  unfold column. change (seqZ 0 5) with [0; 1; 2; 3; 4]. cbn [flat_map].
  split.
  - rewrite !length_app.
    repeat match goal with
           | |- context [if ?c then _ else _] => destruct c
           end; cbn; lia.
  - intros b Hb.
    repeat (apply elem_of_app in Hb as [Hb|Hb]);
      (destruct (_ <? 0)%float eqn:Hy in Hb;
       [by apply elem_of_nil in Hb
       | apply list_elem_of_singleton in Hb as ->; cbn [x y z block];
         repeat split; [exact Hy | apply getBlockType_names]])
      || by apply elem_of_nil in Hb.
Qed.

Lemma terrainCell_blocks (sampleStep : number) (z0 x0 : Z) (acc : Acc) :
  ∃ bs, acc_blocks (terrainCell elevation config sampleStep z0 x0 acc) = acc_blocks acc ++ bs
        ∧ cell_blocks x0 z0 bs.
Proof.
  unfold terrainCell. cbv zeta. destruct (le _ _).
  - exists []. split; [by rewrite app_nil_r|]. split; [cbn; lia|].
    intros b Hb. by apply elem_of_nil in Hb.
  - eexists. split; [done|]. apply column_blocks.
Qed.

Lemma row_fold_blocks (sampleStep : number) (z0 : Z) (cols : list Z) : ∀ acc,
  ∃ bs, acc_blocks (row_fold elevation config sampleStep cols acc z0) = acc_blocks acc ++ bs
        ∧ (List.length bs <= 5 * List.length cols)%nat
        ∧ grid_blocks [z0] cols bs.
Proof.
  unfold row_fold. induction cols as [|x0 cols IH]; intros acc.
  - exists []. split; [by rewrite app_nil_r|]. split; [cbn; lia|].
    intros b Hb. by apply elem_of_nil in Hb.
  - cbn [foldl].
    destruct (terrainCell_blocks sampleStep z0 x0 acc) as (bs1 & Hbs1 & Hlen1 & Hall1).
    destruct (IH (terrainCell elevation config sampleStep z0 x0 acc))
      as (bs2 & Hbs2 & Hlen2 & Hall2).
    exists (bs1 ++ bs2). split; [by rewrite Hbs2, Hbs1, app_assoc|]. split.
    + rewrite length_app. cbn [List.length]. lia.
    + intros b Hb. apply elem_of_app in Hb as [Hb|Hb].
      * destruct (Hall1 b Hb) as (-> & -> & Hy & Hname).
        split; [by left|]. split; [by left | done].
      * destruct (Hall2 b Hb) as (Hz & Hx & Hy & Hname).
        split; [done|]. split; [by right | done].
Qed.

Lemma region_fold_blocks (sampleStep : number) (cols : list Z) (rows : list Z) : ∀ acc,
  ∃ bs, acc_blocks (foldl (row_fold elevation config sampleStep cols) acc rows)
        = acc_blocks acc ++ bs
        ∧ (List.length bs <= 5 * (List.length rows * List.length cols))%nat
        ∧ grid_blocks rows cols bs.
Proof.
  induction rows as [|z0 rows IH]; intros acc.
  - exists []. split; [by rewrite app_nil_r|]. split; [cbn; lia|].
    intros b Hb. by apply elem_of_nil in Hb.
  - cbn [foldl].
    destruct (row_fold_blocks sampleStep z0 cols acc) as (bs1 & Hbs1 & Hlen1 & Hall1).
    destruct (IH (row_fold elevation config sampleStep cols acc z0))
      as (bs2 & Hbs2 & Hlen2 & Hall2).
    exists (bs1 ++ bs2). split; [by rewrite Hbs2, Hbs1, app_assoc|]. split.
    + rewrite length_app. cbn [List.length]. lia.
    + intros b Hb. apply elem_of_app in Hb as [Hb|Hb].
      * destruct (Hall1 b Hb) as (Hz & Hx & Hy & Hname).
        apply list_elem_of_singleton in Hz. split; [rewrite Hz; by left | done].
      * destruct (Hall2 b Hb) as (Hz & Hx & Hy & Hname).
        split; [by right | done].
Qed.

(** X6: what [generateTerrain] places.  When its grid loops end, it returns
    at most five blocks per cell of the grid; every block stands at a column
    of the grid, none has y below 0, every block is one of the four block
    names, and [blockCount] counts the blocks. *)
Theorem generateTerrain_blocks (rows cols : list Z) (st : State) :
  counter_values 0%float (Math_ceil (Srtm.height elevation / sampleStep_of config)%float) false
  = Some rows →
  counter_values 0%float (Math_ceil (Srtm.width elevation / sampleStep_of config)%float) false
  = Some cols →
  ∃ result st',
    generateTerrain elevation config st = (Returns result, st')
    ∧ blockCount result = List.length (blocks result)
    ∧ (blockCount result <= 5 * (List.length rows * List.length cols))%nat
    ∧ ∀ b, b ∈ blocks result →
        z b ∈ rows ∧ x b ∈ cols ∧ (y b <? 0)%float = false ∧ block b ∈ block_names.
Proof.
  intros Hrows Hcols.
  destruct (generateTerrain_fold rows cols st Hrows Hcols) as (st' & Hrun).
  cbv zeta in Hrun. eexists _, st'. split; [exact Hrun|].
  cbn [blockCount blocks]. split; [done|].
  unfold region_fold.
  destruct (region_fold_blocks (sampleStep_of config) cols rows
              {| acc_blocks := []; acc_minY := infinity; acc_maxY := neg_infinity |})
    as (bs & -> & Hlen & Hall).
  cbn [acc_blocks app]. split; [exact Hlen | exact Hall].
Qed.

Lemma row_fold_skipped (sampleStep : number) (z0 : Z) (cols : list Z) (acc : Acc) :
  (∀ x0, x0 ∈ cols → le (sampled elevation sampleStep z0 x0) (-1000)%float = true) →
  row_fold elevation config sampleStep cols acc z0 = acc.
Proof.
  unfold row_fold. induction cols as [|x0 cols IH]; intros Hskip; [done|].
  cbn [foldl]. unfold terrainCell at 2. cbv zeta.
  fold (sampled elevation sampleStep z0 x0). rewrite (Hskip x0) by (by left).
  apply IH. intros x1 Hx1. apply Hskip. by right.
Qed.

(** X7: a field without a sample above -1000.  When every elevation
    [generateTerrain] reads is at or below -1000, every cell is skipped: the
    result has no block, and its [minY] and [maxY] are the untouched
    +Infinity and -Infinity. *)
Theorem generateTerrain_all_skipped (rows cols : list Z) (st : State) :
  counter_values 0%float (Math_ceil (Srtm.height elevation / sampleStep_of config)%float) false
  = Some rows →
  counter_values 0%float (Math_ceil (Srtm.width elevation / sampleStep_of config)%float) false
  = Some cols →
  (∀ z0 x0, z0 ∈ rows → x0 ∈ cols →
     le (sampled elevation (sampleStep_of config) z0 x0) (-1000)%float = true) →
  ∃ result st',
    generateTerrain elevation config st = (Returns result, st')
    ∧ blocks result = [] ∧ blockCount result = 0%nat
    ∧ minY result = infinity ∧ maxY result = neg_infinity.
Proof.
  intros Hrows Hcols Hskip.
  destruct (generateTerrain_fold rows cols st Hrows Hcols) as (st' & Hrun).
  cbv zeta in Hrun. eexists _, st'. split; [exact Hrun|].
  cbn [blockCount blocks minY maxY].
  assert (Hfold : region_fold elevation config (sampleStep_of config) rows cols
                  = {| acc_blocks := []; acc_minY := infinity; acc_maxY := neg_infinity |}).
  { unfold region_fold.
    generalize ({| acc_blocks := []; acc_minY := infinity; acc_maxY := neg_infinity |}).
    clear Hrows Hrun. induction rows as [|z0 rows' IH]; intros acc; [done|].
    cbn [foldl]. rewrite row_fold_skipped.
    - apply IH. intros z1 x1 Hz1. apply Hskip. by right.
    - intros x0 Hx0. apply Hskip; [by left | done]. }
  by rewrite Hfold.
Qed.

End TerrainBlocks.

(** * Concrete runs of the per-block generator *)

Lemma generateTerrain_blocks_witness :
  ∃ result st',
    Terrain.generateTerrain Examples.edgeField MoreExamples.perBlock Examples.start
    = (Returns result, st')
    ∧ (Terrain.blockCount result <= 10)%nat.
Proof.
  destruct (generateTerrain_blocks Examples.edgeField MoreExamples.perBlock [0] [0; 1]
              Examples.start) as (result & st' & Hrun & _ & Hcount & _).
  - vm_compute. reflexivity.
  - vm_compute. reflexivity.
  - exists result, st'. split; [exact Hrun | exact Hcount].
Defined.

Lemma generateTerrain_all_skipped_witness :
  ∃ result st',
    Terrain.generateTerrain MoreExamples.trench MoreExamples.perBlock Examples.start
    = (Returns result, st')
    ∧ Terrain.blocks result = [] ∧ Terrain.minY result = infinity.
Proof.
  destruct (generateTerrain_all_skipped MoreExamples.trench MoreExamples.perBlock [0] [0; 1]
              Examples.start) as (result & st' & Hrun & Hblocks & _ & HminY & _).
  - vm_compute. reflexivity.
  - vm_compute. reflexivity.
  - intros z0 x0 Hz Hx. apply list_elem_of_singleton in Hz as ->.
    apply elem_of_cons in Hx as [->|Hx]; [vm_compute; reflexivity|].
    apply list_elem_of_singleton in Hx as ->. vm_compute. reflexivity.
  - exists result, st'. split; [exact Hrun|]. split; [exact Hblocks | exact HminY].
Defined.

Import Js Node.

(** * The exporter *)

Lemma foldl_snoc_map {A B : Type} (p : A → B) (ks : list A) (init : list B) :
  foldl (λ acc k, acc ++ [p k]) init ks = init ++ map p ks.
Proof.
  revert init. induction ks as [|k ks IH]; intros init; cbn [foldl map].
  - by rewrite app_nil_r.
  - by rewrite IH, <- app_assoc.
Qed.

(** The ceiling of a quotient by a positive divisor. *)
Lemma ceil_div_bounds (n d : Z) :
  0 < d → let c := - ((- n) / d) in (c - 1) * d < n <= c * d.
Proof.
  intros Hd c. subst c.
  pose proof (Z.div_mod (- n) d ltac:(lia)) as Hdm.
  pose proof (Z.mod_pos_bound (- n) d Hd) as Hm. nia.
Qed.

Section Slices.
Import Exporter.
Context {A : Type}.

Lemma Array_slice_chunk (a : list A) (chunkSize i : Z) :
  0 <= i → 0 < chunkSize → i * chunkSize <= Z.of_nat (List.length a) →
  Array_slice a (i * chunkSize) (Z.min (i * chunkSize + chunkSize) (Z.of_nat (List.length a)))
  = take (Z.to_nat (Z.min chunkSize (Z.of_nat (List.length a) - i * chunkSize)))
      (drop (Z.to_nat (i * chunkSize)) a).
Proof.
  intros Hi Hc Hle. unfold Array_slice. cbv zeta.
  assert (0 <= i * chunkSize) by nia.
  replace (i * chunkSize <? 0) with false by (symmetry; apply Z.ltb_ge; lia).
  replace (Z.min (i * chunkSize + chunkSize) (Z.of_nat (List.length a)) <? 0) with false
    by (symmetry; apply Z.ltb_ge; lia).
  f_equal; [|f_equal]; lia.
Qed.

(** The first [k] chunks of an array, one after the other, are its first
    [k * chunkSize] entries. *)
Lemma chunks_take (a : list A) (chunkSize : Z) (k : nat) :
  0 < chunkSize → (Z.of_nat k - 1) * chunkSize < Z.of_nat (List.length a) →
  concat (map (λ i, Array_slice a (i * chunkSize)
                      (Z.min (i * chunkSize + chunkSize) (Z.of_nat (List.length a))))
            (seqZ 0 (Z.of_nat k)))
  = take (Z.to_nat (Z.of_nat k * chunkSize)) a.
Proof.
  intros Hc. induction k as [|k IH]; intros Hk; [done|].
  rewrite Nat2Z.inj_succ, <- Z.add_1_r, seqZ_app by lia.
  rewrite map_app, concat_app, IH by lia.
  change (seqZ (0 + Z.of_nat k) 1) with [0 + Z.of_nat k]. cbn [map concat].
  rewrite Z.add_0_l, app_nil_r, Array_slice_chunk by lia.
  rewrite take_take_drop. 
  destruct (Z.le_gt_cases ((Z.of_nat k + 1) * chunkSize) (Z.of_nat (List.length a))).
  - f_equal. lia.
  - rewrite !take_ge by lia. done.
Qed.

End Slices.

Section Exported.
Import Exporter Terrain.
Variable basename : string → string.
Variable basename_ext : string → string → string.
Variable dirname : string → string.
Variable join : string → string → string.
Variable toString : number → string.

Local Notation "'exportAsMcfunction'" :=
  (Exporter.exportAsMcfunction basename basename_ext dirname join toString).
Local Notation "'exportChunk'" :=
  (Exporter.exportChunk basename basename_ext dirname join toString).
Local Notation "'chunkPath'" := (Exporter.chunkPath basename basename_ext dirname join).
Local Notation "'chunkContent'" := (Exporter.chunkContent toString).
Local Notation "'setblock'" := (Exporter.setblock toString).

Lemma exportChunks_run (terrain : TerrainResult) (outputPath : string) (chunkSize : Z)
    (chunks : count) (ks : list Z) : ∀ (files : list string) (st : State),
  ∃ st',
    for_each ks (exportChunk terrain outputPath chunkSize chunks) files st
    = (Returns (files ++ map (chunkPath outputPath chunks) ks), st')
    ∧ written st'
      = written st ++ map (λ i, (chunkPath outputPath chunks i,
                                 chunkContent terrain chunkSize i)) ks
    ∧ tiles st' = tiles st.
Proof.
  induction ks as [|i ks IH]; intros files st.
  - exists st. by rewrite !app_nil_r.
  - cbn [for_each]. unfold mbind at 1, M_bind at 1.
    unfold exportChunk at 1. cbv zeta.
    unfold mbind, M_bind, writeFileSync, print, mret, M_ret.
    match goal with
    | |- context [for_each ks _ ?fs ?st0] => destruct (IH fs st0) as (st' & -> & Hw & Ht)
    end.
    exists st'. split; [by rewrite <- app_assoc|]. split; [|done].
    rewrite Hw. cbn [written map]. by rewrite <- app_assoc.
Qed.

(** X8: the export splits the blocks into files without losing or repeating
    one.  For a chunk size of at least 1, [exportAsMcfunction] returns after
    writing ceil(n / chunkSize) files, in order; the blocks of the files, one
    file after the other, are the blocks of the terrain; no file is empty and
    none holds more than [chunkSize] blocks; and the paths returned are those
    of the files written. *)
Theorem exportAsMcfunction_split (terrain : TerrainResult) (outputPath : string)
    (chunkSize : Z) (st : State) :
  1 <= chunkSize →
  let n := Z.of_nat (List.length (blocks terrain)) in
  let chunks := - ((- n) / chunkSize) in
  let parts := map (chunkBlocks terrain chunkSize) (seqZ 0 chunks) in
  ∃ files st',
    exportAsMcfunction terrain outputPath chunkSize st = (Returns files, st')
    ∧ files = map (chunkPath outputPath (Count chunks)) (seqZ 0 chunks)
    ∧ written st'
      = written st
        ++ zip files (map (λ part, String.concat Mcfunction.newline (map setblock part)) parts)
    ∧ concat parts = blocks terrain
    ∧ Forall (λ part, 0 < Z.of_nat (List.length part) <= chunkSize) parts.
Proof.
  intros Hc n chunks parts.
  pose proof (ceil_div_bounds n chunkSize ltac:(lia)) as Hceil. cbv zeta in Hceil.
  fold chunks in Hceil.
  assert (Hchunks : 0 <= chunks) by (subst n; nia).
  unfold Exporter.exportAsMcfunction, Loader.ceil_div. cbv zeta.
  replace (chunkSize =? 0) with false by (symmetry; apply Z.eqb_neq; lia).
  fold n. fold chunks. cbn [for_count].
  destruct (exportChunks_run terrain outputPath chunkSize (Count chunks) (seqZ 0 chunks) [] st)
    as (st' & Hrun & Hw & _).
  eexists _, st'. split; [exact Hrun|]. split; [done|]. split; [|split].
  - rewrite Hw. f_equal. cbn [app]. subst parts. rewrite !List.map_map.
    generalize (seqZ 0 chunks). intros ks. induction ks as [|k ks IH]; [done|].
    cbn [map zip zip_with]. by rewrite IH.
  - subst parts. unfold chunkBlocks. fold n.
    rewrite <- (Z2Nat.id chunks) by lia. subst n.
    rewrite chunks_take by lia.
    apply take_ge. nia.
  - subst parts. apply Forall_forall. intros part Hpart.
    apply list_elem_of_In, in_map_iff in Hpart as (i & <- & Hi).
    apply list_elem_of_In, elem_of_seqZ in Hi.
    unfold chunkBlocks. fold n. subst n.
    rewrite Array_slice_chunk by nia.
    rewrite length_take, length_drop. nia.
Qed.

(** X9: the edges of the export.  A terrain without blocks, or a negative
    chunk size, writes no file and returns no path, whatever the blocks; a
    chunk size of 0 over a terrain with blocks has no last file. *)
Theorem exportAsMcfunction_edges (terrain : TerrainResult) (outputPath : string)
    (chunkSize : Z) (st : State) :
  (blocks terrain = [] ∨ chunkSize < 0 →
   exportAsMcfunction terrain outputPath chunkSize st = (Returns [], st))
  ∧ (blocks terrain ≠ [] → chunkSize = 0 →
     exportAsMcfunction terrain outputPath chunkSize st = (Diverges, st)).
Proof.
  unfold Exporter.exportAsMcfunction, Loader.ceil_div. cbv zeta. split.
  - intros [Hnil|Hneg].
    + rewrite Hnil. cbn [List.length Z.of_nat].
      destruct (Z.eqb_spec chunkSize 0) as [Hz|Hnz]; [done|].
      change (- 0) with 0. by rewrite Z.div_0_l.
    + replace (chunkSize =? 0) with false by (symmetry; apply Z.eqb_neq; lia).
      cbn [for_count].
      assert (- (- Z.of_nat (List.length (blocks terrain)) / chunkSize) <= 0).
      { pose proof (Z.div_pos (Z.of_nat (List.length (blocks terrain))) (- chunkSize)
                      ltac:(lia) ltac:(lia)) as Hq.
        rewrite <- Z.div_opp_opp in Hq by lia.
        rewrite Z.opp_involutive in Hq. lia. }
      by rewrite seqZ_nil by lia.
  - intros Hne ->. cbn [Z.eqb].
    destruct (blocks terrain) as [|b bs]; [done|]. done.
Qed.

End Exported.

(** * Concrete runs of the exporter *)

Lemma exportAsMcfunction_split_witness :
  ∃ files st',
    Exporter.exportAsMcfunction (λ _, "t.mcfunction") (λ _ _, "t") (λ _, "out") Examples.slash
      Number_toString MoreExamples.stack "out/t.mcfunction" 2 Examples.start
    = (Returns files, st')
    ∧ files = ["out/t_1.mcfunction"; "out/t_2.mcfunction"]
    ∧ written st'
      = [ ("out/t_1.mcfunction",
           String.concat Mcfunction.newline
             ["setblock ~0 ~64 ~0 minecraft:grass_block"; "setblock ~0 ~63 ~0 minecraft:dirt"]);
          ("out/t_2.mcfunction", "setblock ~0 ~62 ~0 minecraft:dirt") ].
Proof.
  destruct (exportAsMcfunction_split (λ _, "t.mcfunction") (λ _ _, "t") (λ _, "out") Examples.slash
              Number_toString MoreExamples.stack "out/t.mcfunction" 2 Examples.start
              ltac:(lia)) as (files & st' & Hrun & Hfiles & Hwritten & _).
  exists files, st'. split; [exact Hrun|]. split.
  - rewrite Hfiles. vm_compute. reflexivity.
  - rewrite Hwritten, Hfiles. vm_compute. reflexivity.
Defined.

Import Js Node Mcfunction Emitter EmitterSpec.

(** * More of the command emitter *)

Lemma bind_length_const {A B : Type} (f : A → list B) (l : list A) (n : nat) :
  (∀ a, a ∈ l → List.length (f a) = n) → List.length (l ≫= f) = (List.length l * n)%nat.
Proof.
  induction l as [|a l IH]; intros Hf; [done|].
  rewrite bind_cons, length_app, IH, Hf; [cbn; lia | by left |].
  intros b Hb. apply Hf. by right.
Qed.

Lemma threeFills_length (minY z : Z) (run : Z * Z * Z) :
  List.length (threeFills minY z run) = 3%nat.
Proof. by destruct run as [[a b] h]. Qed.

(** The runs of a stretch of cells: at least one, at most one per cell, each
    within the stretch. *)
Lemma runs_from_length (rest : list Z) : ∀ s h x,
  (1 <= List.length (runs_from s h x rest) <= 1 + List.length rest)%nat.
Proof.
  induction rest as [|c rest IH]; intros s h x; cbn [runs_from]; [cbn; lia|].
  case_bool_decide.
  - specialize (IH s h (x + 1)). cbn [List.length]. lia.
  - specialize (IH x c (x + 1)). cbn [List.length]. lia.
Qed.

Lemma runs_from_bounds (rest : list Z) : ∀ s h x a b l,
  s < x → (a, b, l) ∈ runs_from s h x rest →
  s <= a ∧ a <= b ∧ b <= x - 1 + Z.of_nat (List.length rest).
Proof.
  induction rest as [|c rest IH]; intros s h x a b l Hsx Hin; cbn [runs_from] in Hin.
  - apply list_elem_of_singleton in Hin. injection Hin as -> -> ->. cbn. lia.
  - case_bool_decide.
    + apply IH in Hin; [|lia]. cbn [List.length]. lia.
    + apply elem_of_cons in Hin as [Hin|Hin].
      * injection Hin as -> -> ->. cbn [List.length]. lia.
      * apply IH in Hin; [|lia]. cbn [List.length]. lia.
Qed.

Lemma runs_from_flat (rest : list Z) : ∀ s h x,
  Forall (λ c, c = h) rest →
  runs_from s h x rest = [(s, x - 1 + Z.of_nat (List.length rest), h)].
Proof.
  induction rest as [|c rest IH]; intros s h x Hall; cbn [runs_from].
  - cbn. do 3 f_equal. lia.
  - apply Forall_cons in Hall as [-> Hall].
    rewrite bool_decide_eq_true_2 by done. rewrite IH by done.
    cbn [List.length]. do 3 f_equal. lia.
Qed.

Section Chunk.
Variables (hm : Heightmap.HeightMap Z) (startX startZ chunkSize : Z).
Hypothesis Hwf : well_formed hm.
Hypothesis HstartX : 0 <= startX.
Hypothesis HstartZ : 0 <= startZ.

Let endX := Z.min (startX + chunkSize) (Heightmap.width hm).
Let endZ := Z.min (startZ + chunkSize) (Heightmap.length hm).

Lemma row_runs_segment (z : Z) :
  startZ <= z < endZ →
  ∃ row, at_index (Heightmap.heights hm) z = Some row
         ∧ row_runs hm startX endX z = runs startX (segment row startX endX)
         ∧ List.length (segment row startX endX) = Z.to_nat (endX - startX).
Proof.
  intros Hz.
  destruct (at_index_well_formed hm z Hwf ltac:(subst endZ; lia)) as (row & Hrow & Hw).
  exists row. split; [done|]. split; [unfold row_runs; by rewrite Hrow|].
  apply segment_length; [done | subst endX; lia].
Qed.

Lemma row_runs_length (z : Z) :
  startZ <= z < endZ → 0 < endX - startX →
  (1 <= List.length (row_runs hm startX endX z) <= Z.to_nat (endX - startX))%nat.
Proof.
  intros Hz Hw. destruct (row_runs_segment z Hz) as (row & _ & -> & Hlen).
  destruct (segment row startX endX) as [|c rest]; [cbn in Hlen; lia|].
  cbn [runs]. pose proof (runs_from_length rest startX c (startX + 1)).
  cbn [List.length] in Hlen. lia.
Qed.

Lemma row_runs_bounds (z a b l : Z) :
  startZ <= z < endZ → (a, b, l) ∈ row_runs hm startX endX z →
  startX <= a ∧ a <= b ∧ b < endX.
Proof.
  intros Hz Hin. destruct (row_runs_segment z Hz) as (row & _ & Hruns & Hlen).
  rewrite Hruns in Hin.
  destruct (segment row startX endX) as [|c rest]; [by apply elem_of_nil in Hin|].
  cbn [runs] in Hin. apply runs_from_bounds in Hin; [|lia].
  cbn [List.length] in Hlen. lia.
Qed.

End Chunk.

Lemma bind_length_bounds {A B : Type} (f : A → list B) (l : list A) (lo hi : nat) :
  (∀ a, a ∈ l → (lo <= List.length (f a) <= hi)%nat) →
  (lo * List.length l <= List.length (l ≫= f) <= hi * List.length l)%nat.
Proof.
  induction l as [|a l IH]; intros Hf; [cbn; lia|].
  rewrite bind_cons, length_app. cbn [List.length].
  specialize (Hf a ltac:(by left)) as Ha.
  specialize (IH ltac:(intros b Hb; apply Hf; by right)). lia.
Qed.

Lemma bind_all_nil {A B : Type} (f : A → list B) (l : list A) :
  (∀ a, a ∈ l → f a = []) → l ≫= f = [].
Proof.
  induction l as [|a l IH]; intros Hf; [done|].
  rewrite bind_cons, Hf by (by left). apply IH. intros b Hb. apply Hf. by right.
Qed.

(** X10: how many fills a chunk costs.  The emitter returns three fills per
    run: nothing for a chunk without columns or rows, at least three fills
    per row and at most three per cell otherwise, and exactly three per row,
    each spanning the whole width of the chunk, when the chunk is flat. *)
Theorem chunk_fill_count (hm : Heightmap.HeightMap Z) (startX startZ chunkSize : Z) :
  well_formed hm → 0 <= startX → 0 <= startZ →
  let endX := Z.min (startX + chunkSize) (Heightmap.width hm) in
  let endZ := Z.min (startZ + chunkSize) (Heightmap.length hm) in
  ∃ commands,
    generateChunkCommands hm startX startZ chunkSize = Some commands
    ∧ (endX <= startX ∨ endZ <= startZ → commands = [])
    ∧ (startX < endX → startZ < endZ →
       3 * (endZ - startZ) <= Z.of_nat (List.length commands)
                           <= 3 * (endZ - startZ) * (endX - startX))
    ∧ ∀ h, startX < endX →
        (∀ z x, startZ <= z < endZ → startX <= x < endX →
           HeightmapSpec.level_at hm z x = Some h) →
        commands
        = seqZ startZ (endZ - startZ) ≫= λ z,
            threeFills (Heightmap.minY hm) z (startX, endX - 1, h).
Proof.
  intros Hwf Hx Hz endX endZ. eexists. split; [by apply generateChunkCommands_runs|].
  fold endX endZ. split; [|split].
  - intros [Hempty|Hempty]; [|by rewrite seqZ_nil by lia].
    apply bind_all_nil. intros z Hin. apply elem_of_seqZ in Hin.
    destruct (row_runs_segment hm startX startZ chunkSize Hwf Hx Hz z ltac:(lia))
      as (row & _ & Hruns & Hlen).
    cbv zeta in Hruns, Hlen. fold endX in Hruns, Hlen. rewrite Hruns.
    destruct (segment row startX endX); [done | cbn in Hlen; lia].
  - intros Hw Hl.
    pose proof (bind_length_bounds
                  (λ z, row_runs hm startX endX z ≫= threeFills (Heightmap.minY hm) z)
                  (seqZ startZ (endZ - startZ)) 3 (3 * Z.to_nat (endX - startX))) as Hb.
    rewrite length_seqZ in Hb.
    destruct Hb as [Hlo Hhi]; [|nia].
    intros z Hin. apply elem_of_seqZ in Hin.
    rewrite (bind_length_const _ _ 3) by (intros run _; apply threeFills_length).
    pose proof (row_runs_length hm startX startZ chunkSize Hwf Hx Hz z ltac:(lia)) as Hr.
    cbv zeta in Hr. fold endX in Hr. specialize (Hr ltac:(lia)). lia.
  - intros h Hw Hflat. apply bind_ext_in. intros z Hin. apply elem_of_seqZ in Hin.
    destruct (row_runs_segment hm startX startZ chunkSize Hwf Hx Hz z ltac:(lia))
      as (row & Hrow & Hruns & Hlen).
    cbv zeta in Hruns, Hlen. fold endX in Hruns, Hlen. rewrite Hruns.
    assert (Hall : Forall (λ c, c = h) (segment row startX endX)).
    { apply Forall_lookup. intros i c Hc.
      assert (Hi : (i < List.length (segment row startX endX))%nat)
        by (by eapply lookup_lt_Some).
      rewrite <- segment_lookup in Hc by done.
      specialize (Hflat z (startX + Z.of_nat i) ltac:(lia) ltac:(lia)).
      unfold HeightmapSpec.level_at in Hflat. rewrite Hrow in Hflat.
      cbn [mbind option_bind] in Hflat. unfold at_index in Hflat.
      replace (startX + Z.of_nat i <? 0) with false in Hflat
        by (symmetry; apply Z.ltb_ge; lia).
      replace (Z.to_nat (startX + Z.of_nat i)) with (Z.to_nat startX + i)%nat in Hflat by lia.
      congruence. }
    destruct (segment row startX endX) as [|c rest]; [cbn in Hlen; lia|].
    apply Forall_cons in Hall as [-> Hall]. cbn [runs].
    rewrite runs_from_flat by done. cbn [mbind list_bind]. rewrite app_nil_r.
    cbn [List.length] in Hlen. do 3 f_equal. lia.
Qed.

(** X11: the fills of a chunk stay in the chunk.  Every command the emitter
    returns is a fill of stone, dirt or grass_block over columns and a row of
    the chunk, between two integer levels. *)
Theorem fills_stay_in_chunk (hm : Heightmap.HeightMap Z) (startX startZ chunkSize : Z) :
  well_formed hm → 0 <= startX → 0 <= startZ →
  let endX := Z.min (startX + chunkSize) (Heightmap.width hm) in
  let endZ := Z.min (startZ + chunkSize) (Heightmap.length hm) in
  ∃ commands,
    generateChunkCommands hm startX startZ chunkSize = Some commands
    ∧ ∀ c, c ∈ commands →
        ∃ x1 x2 z y1 y2 block,
          c = Fill x1 (At y1) z x2 (At y2) z block
          ∧ startX <= x1 ∧ x1 <= x2 ∧ x2 < endX ∧ startZ <= z < endZ
          ∧ block ∈ ["stone"; "dirt"; "grass_block"].
Proof.
  intros Hwf Hx Hz endX endZ. eexists. split; [by apply generateChunkCommands_runs|].
  fold endX endZ. intros c Hc.
  apply list_elem_of_bind in Hc as (z & Hc & Hin). apply elem_of_seqZ in Hin.
  apply list_elem_of_bind in Hc as ([[a b] l] & Hc & Hrun).
  apply (row_runs_bounds hm startX startZ chunkSize Hwf Hx Hz) in Hrun; [|lia].
  cbv zeta in Hrun. fold endX in Hrun.
  cbn [threeFills] in Hc.
  apply elem_of_cons in Hc as [->|Hc]; [|apply elem_of_cons in Hc as [->|Hc]];
    [| |apply list_elem_of_singleton in Hc as ->].
  - eexists _, _, _, _, _, _. split; [done|]. repeat (split; [lia|]). by left.
  - eexists _, _, _, _, _, _. split; [done|]. repeat (split; [lia|]). by right; left.
  - eexists _, _, _, _, _, _. split; [done|]. repeat (split; [lia|]). by right; right; left.
Qed.

Lemma scan_rows_None (hm : Heightmap.HeightMap Z) (startX endX : Z) (zs : list Z) :
  foldl (λ commands z, commands ← commands; scanRow hm startX endX commands z) None zs = None.
Proof. by induction zs. Qed.

(** X12: a height map with a row missing.  When the rows of a chunk reach a
    [z] for which [heights[z]] is undefined, the emitter throws (a TypeError
    in the source) instead of returning commands. *)
Theorem missing_row_throws (hm : Heightmap.HeightMap Z) (startX startZ chunkSize z : Z) :
  startZ <= z < Z.min (startZ + chunkSize) (Heightmap.length hm) →
  at_index (Heightmap.heights hm) z = None →
  generateChunkCommands hm startX startZ chunkSize = None.
Proof.
  intros Hz Hrow. unfold generateChunkCommands. cbv zeta.
  set (endZ := Z.min (startZ + chunkSize) (Heightmap.length hm)) in *.
  replace (endZ - startZ) with ((z - startZ) + (1 + (endZ - z - 1))) by lia.
  rewrite seqZ_app, (seqZ_cons (startZ + (z - startZ))) by lia.
  replace (startZ + (z - startZ)) with z by lia.
  rewrite foldl_app. cbn [foldl].
  destruct (foldl _ (Some []) (seqZ startZ (z - startZ))) as [cmds|];
    cbn [mbind option_bind]; [|apply scan_rows_None].
  unfold scanRow. rewrite Hrow. cbn [mbind option_bind]. apply scan_rows_None.
Qed.

(** * Concrete runs of the emitter, continued *)

Lemma chunk_fill_count_witness :
  ∃ commands,
    generateChunkCommands Examples.terraces 0 0 16 = Some commands
    ∧ 6 <= Z.of_nat (List.length commands) <= 24.
Proof.
  destruct (chunk_fill_count Examples.terraces 0 0 16 terraces_well_formed
              ltac:(lia) ltac:(lia)) as (commands & Hrun & _ & Hcount & _).
  exists commands. split; [exact Hrun|].
  apply (Hcount ltac:(vm_compute; reflexivity) ltac:(vm_compute; reflexivity)).
Defined.

Lemma fills_stay_in_chunk_witness :
  ∃ commands,
    generateChunkCommands Examples.terraces 2 1 16 = Some commands
    ∧ ∀ c, c ∈ commands →
        ∃ x1 x2 z y1 y2 block,
          c = Fill x1 (At y1) z x2 (At y2) z block
          ∧ 2 <= x1 ∧ x1 <= x2 ∧ x2 < 4 ∧ 1 <= z < 2
          ∧ block ∈ ["stone"; "dirt"; "grass_block"].
Proof.
  exact (fills_stay_in_chunk Examples.terraces 2 1 16 terraces_well_formed
           ltac:(lia) ltac:(lia)).
Defined.

Lemma missing_row_throws_witness :
  generateChunkCommands MoreExamples.torn 0 0 16 = None.
Proof.
  apply (missing_row_throws MoreExamples.torn 0 0 16 1); [vm_compute; split; discriminate || reflexivity | reflexivity].
Defined.

Import Js Node Mcfunction Emitter EmitterSpec Loader LoaderSpec.

(** * More of the loader generator *)

Lemma chunk_cells_elem (hm : Heightmap.HeightMap Z) (startX startZ chunkSize x z h : Z) :
  (x, z, h) ∈ chunk_cells hm startX startZ chunkSize
  ↔ startZ <= z < Z.min (startZ + chunkSize) (Heightmap.length hm)
    ∧ startX <= x < Z.min (startX + chunkSize) (Heightmap.width hm)
    ∧ HeightmapSpec.level_at hm z x = Some h.
Proof.
  unfold chunk_cells, HeightmapSpec.level_at. cbv zeta. split.
  - intros Hin. apply list_elem_of_bind in Hin as (z' & Hin & Hz).
    apply list_elem_of_bind in Hin as (x' & Hin & Hx).
    apply elem_of_seqZ in Hz, Hx.
    destruct (at_index (Heightmap.heights hm) z' ≫= _) as [h'|] eqn:Hl;
      [|by apply elem_of_nil in Hin].
    apply list_elem_of_singleton in Hin. injection Hin as -> -> ->.
    split; [lia|]. split; [lia | done].
  - intros (Hz & Hx & Hl).
    apply list_elem_of_bind. exists z. split; [|apply elem_of_seqZ; lia].
    apply list_elem_of_bind. exists x. split; [|apply elem_of_seqZ; lia].
    rewrite Hl. by left.
Qed.

Lemma decode_chunk (hm : Heightmap.HeightMap Z) (startX startZ chunkSize : Z) :
  well_formed hm → 0 <= startX → 0 <= startZ →
  ∃ commands,
    generateChunkCommands hm startX startZ chunkSize = Some commands
    ∧ decode commands = chunk_cells hm startX startZ chunkSize.
Proof.
  intros Hwf Hx Hz. eexists. split; [by apply generateChunkCommands_runs|].
  rewrite chunk_cells_rows by done.
  rewrite decode_bind. apply bind_ext_in. intros z _.
  unfold row_runs. destruct (at_index _ z); [apply decode_runs | done].
Qed.

Lemma div_chunk (x cs c : Z) :
  1 <= cs → (x / cs = c ↔ c * cs <= x < c * cs + cs).
Proof.
  intros Hcs. pose proof (Z.div_mod x cs ltac:(lia)) as Hdm.
  pose proof (Z.mod_pos_bound x cs ltac:(lia)) as Hm. split.
  - intros <-. nia.
  - intros Hx. symmetry. apply (Z.div_unique x cs c (x - c * cs)); lia.
Qed.

(** X13: every cell of the height map is in exactly one chunk.  For a chunk
    size of at least 1, the surface cells that the commands of chunk
    (cx, cz) place are the cells (x, z) of the map with x div chunkSize = cx
    and z div chunkSize = cz; and the chunk of every cell is one of the
    chunks the generation loops visit. *)
Theorem each_cell_in_one_chunk (hm : Heightmap.HeightMap Z) (chunkSize cx cz : Z) :
  well_formed hm → 1 <= chunkSize → 0 <= cx → 0 <= cz →
  (∃ commands,
     generateChunkCommands hm (cx * chunkSize) (cz * chunkSize) chunkSize = Some commands
     ∧ ∀ x z h,
         (x, z, h) ∈ decode commands
         ↔ 0 <= x < Heightmap.width hm ∧ 0 <= z < Heightmap.length hm
           ∧ x / chunkSize = cx ∧ z / chunkSize = cz
           ∧ HeightmapSpec.level_at hm z x = Some h)
  ∧ (∀ x chunksX, 0 <= x < Heightmap.width hm →
       ceil_div (Heightmap.width hm) chunkSize = Count chunksX →
       0 <= x / chunkSize < chunksX)
  ∧ (∀ z chunksZ, 0 <= z < Heightmap.length hm →
       ceil_div (Heightmap.length hm) chunkSize = Count chunksZ →
       0 <= z / chunkSize < chunksZ).
Proof.
  intros Hwf Hcs Hcx Hcz. split; [|split].
  - destruct (decode_chunk hm (cx * chunkSize) (cz * chunkSize) chunkSize Hwf
                ltac:(nia) ltac:(nia)) as (commands & Hrun & Hdecode).
    exists commands. split; [exact Hrun|]. intros x z h.
    rewrite Hdecode, chunk_cells_elem.
    pose proof (div_chunk x chunkSize cx Hcs) as Hdx.
    pose proof (div_chunk z chunkSize cz Hcs) as Hdz.
    split.
    + intros (Hz & Hx & Hl). apply proj2 in Hdx, Hdz.
      specialize (Hdx ltac:(lia)). specialize (Hdz ltac:(lia)).
      repeat split; try done; nia.
    + intros (Hx & Hz & Hqx & Hqz & Hl). apply Hdx in Hqx. apply Hdz in Hqz.
      repeat split; try done; lia.
  - intros x chunksX Hx Hceil. unfold ceil_div in Hceil.
    replace (chunkSize =? 0) with false in Hceil by (symmetry; apply Z.eqb_neq; lia).
    injection Hceil as <-.
    pose proof (ceil_div_bounds (Heightmap.width hm) chunkSize ltac:(lia)) as Hb.
    cbv zeta in Hb.
    pose proof (Z.div_mod x chunkSize ltac:(lia)) as Hdm.
    pose proof (Z.mod_pos_bound x chunkSize ltac:(lia)) as Hm.
    split; [apply Z.div_pos; lia | nia].
  - intros z chunksZ Hz Hceil. unfold ceil_div in Hceil.
    replace (chunkSize =? 0) with false in Hceil by (symmetry; apply Z.eqb_neq; lia).
    injection Hceil as <-.
    pose proof (ceil_div_bounds (Heightmap.length hm) chunkSize ltac:(lia)) as Hb.
    cbv zeta in Hb.
    pose proof (Z.div_mod z chunkSize ltac:(lia)) as Hdm.
    pose proof (Z.mod_pos_bound z chunkSize ltac:(lia)) as Hm.
    split; [apply Z.div_pos; lia | nia].
Qed.

(** A loop whose iterations return, write their files and leave the tile
    cache alone. *)
Lemma for_each_writes {S : Type} (f : Z → S → S) (w : Z → list (string * string))
    (body : Z → S → M S) (ks : list Z) :
  (∀ k, k ∈ ks → ∀ s st,
     ∃ st', body k s st = (Returns (f k s), st')
            ∧ written st' = written st ++ w k ∧ tiles st' = tiles st) →
  ∀ s st,
    ∃ st', for_each ks body s st = (Returns (foldl (λ s k, f k s) s ks), st')
           ∧ written st' = written st ++ (ks ≫= w) ∧ tiles st' = tiles st.
Proof.
  induction ks as [|k ks IH]; intros Hbody s st.
  - exists st. by rewrite app_nil_r.
  - cbn [for_each foldl]. unfold mbind at 1, M_bind at 1.
    destruct (Hbody k ltac:(by left) s st) as (st1 & -> & Hw1 & Ht1).
    destruct (IH ltac:(intros k' Hk'; apply Hbody; by right) (f k s) st1)
      as (st2 & -> & Hw2 & Ht2).
    exists st2. split; [done|]. split; [|congruence].
    by rewrite Hw2, Hw1, bind_cons, app_assoc.
Qed.

Lemma foldl_ext_eq {A B : Type} (f g : A → B → A) (l : list B) :
  (∀ a b, f a b = g a b) → ∀ a, foldl f a l = foldl g a l.
Proof.
  intros Hfg. induction l as [|b l IH]; intros a; [done|].
  cbn [foldl]. by rewrite Hfg, IH.
Qed.

Lemma foldl_snoc_bind {A B : Type} (g : A → list B) (ks : list A) (init : list B) :
  foldl (λ acc k, acc ++ g k) init ks = init ++ (ks ≫= g).
Proof.
  revert init. induction ks as [|k ks IH]; intros init; cbn [foldl].
  - by rewrite app_nil_r.
  - by rewrite IH, bind_cons, app_assoc.
Qed.

Section Files.
Variable path_join : list string → string.
Variables (hm : Heightmap.HeightMap Z) (outputDir : string) (chunkSize : Z).
Hypothesis Hwf : well_formed hm.
Hypothesis Hcs : 1 <= chunkSize.

Lemma writeChunk_run (totalChunks : count) (cz cx : Z) (names : list string) (st : State) :
  0 <= cz → 0 <= cx →
  ∃ st',
    writeChunk path_join hm (functionsDir path_join outputDir) chunkSize totalChunks cz cx names st
    = (Returns (names ++ [chunkName cx cz]), st')
    ∧ written st' = written st ++ [chunkFile path_join hm outputDir chunkSize cz cx]
    ∧ tiles st' = tiles st.
Proof.
  intros Hcz Hcx. unfold writeChunk, chunkFile. cbv zeta.
  destruct (decode_chunk hm (cx * chunkSize) (cz * chunkSize) chunkSize Hwf
              ltac:(nia) ltac:(nia)) as (commands & -> & _).
  unfold mbind, M_bind, mret, M_ret, writeFileSync.
  destruct (_ =? 0); by eexists.
Qed.

Lemma rowCommands_run (chunksX chunksZ cz : Z) (st : State) :
  rowCommands (Count chunksX) (Count chunksZ) cz st
  = (Returns (rowLines chunksX chunksZ cz), st).
Proof.
  unfold rowCommands, rowLines. cbn [for_count count_toString].
  rewrite (for_each_fold (λ cx cmds, cmds ++ [Function ("terrain/" +:+ chunkName cx cz)])
             (λ _ st, st)) by done.
  by rewrite foldl_same, foldl_snoc_map.
Qed.

(** X14: the files of the generator.  For a height map with all its rows
    and cells, a chunk size of at least 1 and fewer than 2^32 rows of chunks,
    [generateLoaderFunctions] returns, having written, in this order: a file
    per chunk, row of chunks by row of chunks; the master loader, which calls
    the chunks in that order; a file per row of chunks; the incremental
    loader; and the setup script, each under the path that [path.join] makes
    of its directory and name. *)
Theorem generateLoaderFunctions_files (st : State) :
  let chunksX := - ((- Heightmap.width hm) / chunkSize) in
  let chunksZ := - ((- Heightmap.length hm) / chunkSize) in
  chunksZ < 2 ^ 32 →
  ∃ script st',
    rowLoaderCommands (Count chunksZ) = Some script
    ∧ generateLoaderFunctions path_join hm outputDir chunkSize st = (Returns (), st')
    ∧ written st'
      = written st
        ++ (cz ← seqZ 0 chunksZ; cx ← seqZ 0 chunksX;
            [chunkFile path_join hm outputDir chunkSize cz cx])
        ++ [(path_join [outputDir; "functions"; "load_terrain.mcfunction"],
             join (loaderCommands (Heightmap.width hm) (Heightmap.length hm)
                     (Count (chunksX * chunksZ)) (chunkNames chunksX chunksZ)))]
        ++ map (rowFile path_join outputDir chunksX chunksZ) (seqZ 0 chunksZ)
        ++ [(rowLoaderPath path_join outputDir, join script);
            (path_join [outputDir; "functions"; "setup_terrain.mcfunction"],
             join setupCommands)].
Proof.
  intros chunksX chunksZ Hrows.
  assert (Hscript : is_Some (rowLoaderCommands (Count chunksZ))).
  { unfold rowLoaderCommands, Array_from_length.
    replace (chunksZ <? 2 ^ 32) with true by (symmetry; apply Z.ltb_lt; lia).
    by eexists. }
  destruct Hscript as [script Hscript]. exists script.
  unfold generateLoaderFunctions, ceil_div. cbv zeta.
  replace (chunkSize =? 0) with false by (symmetry; apply Z.eqb_neq; lia).
  fold chunksX chunksZ. cbn [count_mul for_count]. rewrite Hscript.
  fold (functionsDir path_join outputDir).
  unfold mbind at 1, M_bind at 1, print at 1.
  set (st0 := {| tiles := tiles st; console := _; written := written st |}).
  (* the chunk files *)
  destruct (for_each_writes
              (λ cz names, foldl (λ s cx, s ++ [chunkName cx cz]) names (seqZ 0 chunksX))
              (λ cz, seqZ 0 chunksX ≫= λ cx, [chunkFile path_join hm outputDir chunkSize cz cx])
              (λ cz names,
                 for_each (seqZ 0 chunksX)
                   (writeChunk path_join hm (functionsDir path_join outputDir) chunkSize
                      (Count (chunksX * chunksZ)) cz) names)
              (seqZ 0 chunksZ)) with (s := @nil string) (st := st0)
    as (st1 & Hchunks & Hw1 & _).
  { intros cz Hcz names st'. apply elem_of_seqZ in Hcz.
    apply (for_each_writes (λ cx s, s ++ [chunkName cx cz])
             (λ cx, [chunkFile path_join hm outputDir chunkSize cz cx])).
    intros cx Hcx s st''. apply elem_of_seqZ in Hcx.
    apply writeChunk_run; lia. }
  unfold mbind at 1, M_bind at 1. rewrite Hchunks.
  assert (Hnames : foldl (λ names cz,
                     foldl (λ s cx, s ++ [chunkName cx cz]) names (seqZ 0 chunksX))
                     [] (seqZ 0 chunksZ) = chunkNames chunksX chunksZ).
  { unfold chunkNames.
    rewrite <- (app_nil_l (seqZ 0 chunksZ ≫= _)), <- foldl_snoc_bind.
    apply foldl_ext_eq. intros names cz. rewrite foldl_snoc_map.
    f_equal. }
  rewrite Hnames.
  unfold mbind at 1, M_bind at 1, writeFileSync at 1.
  (* the row files *)
  match goal with
  | |- context [{| tiles := tiles st1; console := console st1; written := ?w |}] =>
      set (st2 := {| tiles := tiles st1; console := console st1; written := w |})
  end.
  match goal with
  | |- context [for_each (seqZ 0 chunksZ) ?body ()] =>
      destruct (for_each_writes (λ _ (u : ()), u)
                  (λ cz, [rowFile path_join outputDir chunksX chunksZ cz]) body (seqZ 0 chunksZ))
        with (s := ()) (st := st2) as (st3 & Hrowsrun & Hw3 & _)
  end.
  { intros cz _ [] st'. unfold mbind, M_bind. rewrite rowCommands_run.
    unfold writeFileSync, rowFile. by eexists. }
  rewrite foldl_same in Hrowsrun.
  erewrite bind_returns by exact Hrowsrun.
  unfold mbind, M_bind, mret, M_ret, writeFileSync, print.
  eexists. split; [done|]. split; [done|].
  cbn [written]. rewrite Hw3. subst st2. cbn [written]. rewrite Hw1. subst st0. cbn [written].
  rewrite <- !app_assoc. by do 3 f_equal.
Qed.

End Files.

(** * More of the loader protocol *)

Section Scripts.
Import Host.

Lemma run_functions (names : list string) (w : World) :
  run_script (map (λ name, Function ("terrain/" +:+ name)) names) w
  = {| objectives := objectives w;
       scores := scores w;
       events := events w ++ map (λ name, Ran ("terrain/" +:+ name)) names |}.
Proof.
  revert w. induction names as [|name names IH]; intros w.
  - cbn. rewrite app_nil_r. by destruct w.
  - cbn [map]. rewrite run_script_cons, IH. cbn [run_command log objectives scores events].
    by rewrite <- app_assoc.
Qed.

Lemma run_rows (chunksX chunksZ : Z) (w : World) :
  foldl (λ w cz, run_script (rowLines chunksX chunksZ cz) w) w (seqZ 0 chunksZ)
  = {| objectives := objectives w; scores := scores w;
       events := events w
         ++ map (λ name, Ran ("terrain/" +:+ name)) (chunkNames chunksX chunksZ) |}.
Proof.
  unfold chunkNames. generalize (seqZ 0 chunksZ). intros czs.
  revert w. induction czs as [|cz czs IH]; intros w.
  - cbn. rewrite app_nil_r. by destruct w.
  - cbn [foldl]. rewrite IH. unfold rowLines.
    rewrite run_script_cons. cbn [run_command].
    rewrite <- (List.map_map (λ cx, chunkName cx cz) (λ name, Function ("terrain/" +:+ name))).
    rewrite run_functions. cbn [objectives scores events].
    rewrite bind_cons, map_app, app_assoc. by do 3 f_equal.
Qed.

(** X15: loading row by row is loading all at once.  The master loader
    calls every chunk function once, row of chunks by row of chunks, between
    its two messages; the row scripts, run in order, call the same functions
    in the same order; neither touches the scoreboard. *)
Theorem rows_call_what_the_master_calls (width length chunksX chunksZ : Z) (total : count)
    (w : World) :
  let calls := map (λ name, Ran ("terrain/" +:+ name)) (chunkNames chunksX chunksZ) in
  let master := run_script (loaderCommands width length total (chunkNames chunksX chunksZ)) w in
  let rows := foldl (λ w cz, run_script (rowLines chunksX chunksZ cz) w) w (seqZ 0 chunksZ) in
  events master
  = events w
    ++ [Said ("Loading Moldova terrain (" +:+ count_toString total +:+ " chunks)...")]
    ++ calls ++ [Said "Terrain generation complete!"]
  ∧ events rows = events w ++ calls
  ∧ scores master = scores w ∧ scores rows = scores w
  ∧ objectives master = objectives w ∧ objectives rows = objectives w.
Proof.
  intros calls master rows.
  assert (Hmaster : master
          = {| objectives := objectives w; scores := scores w;
               events := events w
                 ++ [Said ("Loading Moldova terrain (" +:+ count_toString total
                           +:+ " chunks)...")]
                 ++ calls ++ [Said "Terrain generation complete!"] |}).
  { subst master. unfold loaderCommands. rewrite !run_script_app, run_functions.
    unfold run_script. cbn [foldl run_command log objectives scores events].
    subst calls. unfold log. cbn [objectives scores events]. by rewrite <- !app_assoc. }
  assert (Hrows : rows = {| objectives := objectives w; scores := scores w;
                            events := events w ++ calls |})
    by apply run_rows.
  by rewrite Hmaster, Hrows.
Qed.

Lemma setup_run (w : World) :
  let w' := run_script setupCommands w in
  "loader" ∈ objectives w' ∧ counter w' = Some 0
  ∧ events w'
    = events w ++ [Said "Terrain loader initialized. Run /function load_terrain_row repeatedly."].
Proof.
  unfold setupCommands. cbv zeta. rewrite !run_script_cons.
  change (run_script [] ?x) with x. change (run_command (Line _) w) with w.
  cbn [run_command].
  destruct (decide ("loader" ∈ objectives w)) as [Hin|Hout].
  - rewrite !(bool_decide_eq_true_2 _ Hin). cbn [objectives set_score log events].
    split; [done|]. split; [apply lookup_insert_eq | done].
  - rewrite (bool_decide_eq_false_2 _ Hout). cbn [objectives].
    rewrite bool_decide_eq_true_2 by set_solver.
    cbn [objectives set_score log events].
    split; [set_solver|]. split; [apply lookup_insert_eq | done].
Qed.

(** X16: the setup script starts the protocol from any world.  Whatever the
    scoreboard held, after [setup_terrain] the incremental loader of a grid
    of [rowCount >= 1] rows, invoked [rowCount] times, runs row 0, row 1,
    ... once each in order, reports completion once, and leaves the counter
    at 0. *)
Theorem setup_starts_the_protocol (rowCount : Z) (script : list command) (w : World) :
  1 <= rowCount → rowLoaderCommands (Count rowCount) = Some script →
  let done := invoke (Z.to_nat rowCount) script (run_script setupCommands w) in
  events done
  = events w
    ++ [Said "Terrain loader initialized. Run /function load_terrain_row repeatedly."]
    ++ map (λ i, Ran (rowName i)) (seqZ 0 rowCount) ++ [Said "Terrain complete!"]
  ∧ counter done = Some 0.
Proof.
  intros Hcount Hscript done. subst done.
  destruct (setup_run w) as (Hobj & Hzero & Hevents).
  destruct (Z.to_nat rowCount) as [|m] eqn:Hm; [lia|].
  pose proof (row_loader_run m rowCount 0 script (run_script setupCommands w)
                Hscript Hobj Hzero ltac:(lia) ltac:(lia)) as Hloop.
  cbv zeta in Hloop.
  replace (Z.of_nat (S m)) with rowCount in Hloop by lia.
  destruct Hloop as [-> ->]. by rewrite Hevents, <- !app_assoc.
Qed.

End Scripts.

(** * Concrete runs of the loader, continued *)

Lemma each_cell_in_one_chunk_witness :
  ∃ commands,
    generateChunkCommands Examples.terraces 2 0 2 = Some commands
    ∧ decode commands = [(2, 0, 65); (3, 0, 65); (2, 1, 64); (3, 1, 66)].
Proof.
  destruct (each_cell_in_one_chunk Examples.terraces 2 1 0 terraces_well_formed
              ltac:(lia) ltac:(lia) ltac:(lia)) as [(commands & Hrun & _) _].
  exists commands. split; [exact Hrun|].
  change (1 * 2) with 2 in Hrun. change (0 * 2) with 0 in Hrun.
  assert (Hval : generateChunkCommands Examples.terraces 2 0 2
                 = Some (default [] (generateChunkCommands Examples.terraces 2 0 2)))
    by (vm_compute; reflexivity).
  rewrite Hval in Hrun. injection Hrun as <-. vm_compute. reflexivity.
Defined.

Lemma generateLoaderFunctions_files_witness :
  ∃ st',
    generateLoaderFunctions Examples.slashes Examples.terraces "out" 2 Examples.start = (Returns (), st')
    ∧ map fst (written st')
      = [ "out/functions/terrain/chunk_0_0.mcfunction";
          "out/functions/terrain/chunk_1_0.mcfunction";
          "out/functions/load_terrain.mcfunction";
          "out/functions/terrain/row_0.mcfunction";
          "out/functions/load_terrain_row.mcfunction";
          "out/functions/setup_terrain.mcfunction" ].
Proof.
  destruct (generateLoaderFunctions_files Examples.slashes Examples.terraces "out" 2 terraces_well_formed
              ltac:(lia) Examples.start ltac:(vm_compute; reflexivity))
    as (script & st' & _ & Hrun & Hwritten).
  exists st'. split; [exact Hrun|]. rewrite Hwritten. vm_compute. reflexivity.
Defined.

Lemma setup_starts_the_protocol_witness :
  ∃ script,
    rowLoaderCommands (Count 2) = Some script
    ∧ Host.events (Host.invoke 2 script
                     (Host.run_script setupCommands
                        {| Host.objectives := ∅; Host.scores := ∅; Host.events := [] |}))
      = [ Host.Said "Terrain loader initialized. Run /function load_terrain_row repeatedly.";
          Host.Ran "terrain/row_0"; Host.Ran "terrain/row_1"; Host.Said "Terrain complete!" ].
Proof.
  eexists. split; [vm_compute; reflexivity|].
  refine (proj1 (setup_starts_the_protocol 2 _
                   {| Host.objectives := ∅; Host.scores := ∅; Host.events := [] |}
                   ltac:(lia) ltac:(vm_compute; reflexivity))).
Defined.

Import Js Node WorldManager.

(** * The world manager *)

Lemma Z_of_byte_of_Z (z : Z) : Z_of_byte (byte_of_Z z) = z mod 256.
Proof.
  unfold Z_of_byte, byte_of_Z. pose proof (Z.mod_pos_bound z 256 ltac:(lia)) as Hb.
  destruct (Byte.of_N (Z.to_N (z mod 256))) as [b|] eqn:Hof.
  - apply Byte.to_of_N in Hof. change (default x00 (Some b)) with b. rewrite Hof. lia.
  - apply Byte.of_N_None_iff in Hof. lia.
Qed.

Lemma Z_of_byte_bounds (b : Byte.byte) : 0 <= Z_of_byte b < 256.
Proof. unfold Z_of_byte. pose proof (Byte.to_N_bounded b). lia. Qed.

(** The four bytes of a signed 32-bit integer, little end first, give the
    integer back. *)
Lemma little_endian_int32 (v : Z) :
  - 2 ^ 31 <= v < 2 ^ 31 →
  ToInt32 (v mod 256 + 256 * ((v / 256) mod 256) + 65536 * ((v / 65536) mod 256)
           + 16777216 * ((v / 16777216) mod 256)) = v.
Proof.
  intros Hv. unfold ToInt32.
  assert (Hsum : v mod 256 + 256 * ((v / 256) mod 256) + 65536 * ((v / 65536) mod 256)
                 + 16777216 * ((v / 16777216) mod 256) = v mod 2 ^ 32).
  { change 65536 with (256 * 256). change 16777216 with (256 * 256 * 256).
    change (2 ^ 32) with (256 * (256 * (256 * 256))).
    rewrite <- !Z.div_div by lia.
    rewrite !Z.rem_mul_r by lia. lia. }
  rewrite Hsum.
  destruct (Z.ltb_spec v 0).
  - replace (v mod 2 ^ 32) with (v + 2 ^ 32)
      by (apply Z.mod_unique with (-1); lia).
    replace (v + 2 ^ 32 + 2 ^ 31) with (v + 2 ^ 31 + 1 * 2 ^ 32) by lia.
    rewrite Z.mod_add by lia. rewrite Z.mod_small; lia.
  - rewrite (Z.mod_small v) by lia. rewrite Z.mod_small; lia.
Qed.

Section LevelDat.

Variable join : string → string → string.
Context {Nbt : Type}.
Variable nbt_write : Nbt → list Byte.byte.
Variable nbt_parse : list Byte.byte → error + Nbt.

(** The header [writeLevelDat] builds, and what [readLevelDat] reads in it. *)
Lemma header_written (version len : Z) :
  - 2 ^ 31 <= version < 2 ^ 31 → - 2 ^ 31 <= len < 2 ^ 31 →
  ∃ header,
    (header' ← writeInt32LE (replicate 8 x00) version 0; writeInt32LE header' len 4)
    = Some header
    ∧ List.length header = 8%nat
    ∧ ∀ rest, readInt32LE (header ++ rest) 0 = Some version
              ∧ readInt32LE (header ++ rest) 4 = Some len.
Proof.
  intros Hv Hl.
  exists [byte_of_Z version; byte_of_Z (version / 256); byte_of_Z (version / 65536);
          byte_of_Z (version / 16777216);
          byte_of_Z len; byte_of_Z (len / 256); byte_of_Z (len / 65536);
          byte_of_Z (len / 16777216)].
  split; [|split; [reflexivity|]].
  - unfold writeInt32LE.
    replace ((- 2 ^ 31 <=? version) && (version <? 2 ^ 31)) with true by lia.
    replace ((- 2 ^ 31 <=? len) && (len <? 2 ^ 31)) with true by lia.
    reflexivity.
  - intros rest. unfold readInt32LE. rewrite length_app.
    replace (0 + 4 <=? Z.of_nat (_ + List.length rest)) with true
      by (symmetry; apply Z.leb_le; cbn [List.length]; lia).
    replace (4 + 4 <=? Z.of_nat (_ + List.length rest)) with true
      by (symmetry; apply Z.leb_le; cbn [List.length]; lia).
    change (0 <=? 0) with true. change (0 <=? 4) with true. cbn [andb].
    change (Z.to_nat 0) with 0%nat. change (Z.to_nat 4) with 4%nat.
    cbn [drop app]. rewrite !Z_of_byte_of_Z. by rewrite !little_endian_int32.
Qed.

Lemma payload_slice (header rest : list Byte.byte) :
  List.length header = 8%nat →
  Exporter.Array_slice (header ++ rest) 8 (8 + Z.of_nat (List.length rest)) = rest.
Proof.
  intros Hh. unfold Exporter.Array_slice. rewrite length_app, Hh.
  replace (8 <? 0) with false by lia.
  replace (8 + Z.of_nat (List.length rest) <? 0) with false
    by (symmetry; apply Z.ltb_ge; lia).
  rewrite !Z.min_r by lia.
  replace (Z.of_nat (8 + List.length rest) - Z.of_nat (8 + List.length rest))
    with 0 by lia.
  rewrite Z.min_l by lia.
  replace (Z.of_nat (8 + List.length rest) - 8) with (Z.of_nat (List.length rest)) by lia.
  rewrite Nat2Z.id. change (Z.to_nat 8) with 8%nat.
  rewrite drop_app_length' by done. by rewrite firstn_all.
Qed.

(** X17: what [writeLevelDat] writes, [readLevelDat] reads back.  For a
    version that is a signed 32-bit integer and a payload shorter than 2^31
    bytes, [writeLevelDat] writes one file, [level.dat] of the world, and
    prints nothing; [readLevelDat] on a world holding that file returns the
    same version and what the parser makes of the payload the writer
    serialized, or rejects as the parser does. *)
Theorem level_dat_round_trip (worldPath : string) (data : Nbt) (version : Z) (st : State) :
  - 2 ^ 31 <= version < 2 ^ 31 →
  Z.of_nat (List.length (nbt_write data)) < 2 ^ 31 →
  ∃ content st',
    writeLevelDat join nbt_write worldPath data version st = (Returns (), st')
    ∧ console st' = console st
    ∧ written st' = written st ++ [(join worldPath "level.dat", content)]
    ∧ List.length (bytes_of content) = (8 + List.length (nbt_write data))%nat
    ∧ ∀ fs st0,
        fs (join worldPath "level.dat") = Some (bytes_of content) →
        readLevelDat fs join nbt_parse worldPath st0
        = match nbt_parse (nbt_write data) with
          | inr parsed => (Returns (version, parsed), st0)
          | inl e => (Throws e, st0)
          end.
Proof.
  intros Hv Hn.
  destruct (header_written version (Z.of_nat (List.length (nbt_write data))) Hv
              ltac:(lia)) as (header & Hw & Hlen & Hread).
  destruct (writeInt32LE (replicate 8 x00) version 0) as [header'|] eqn:Hw1; [|done].
  cbn [mbind option_bind] in Hw.
  exists (text_of (header ++ nbt_write data)). eexists.
  split.
  { unfold writeLevelDat. rewrite Hw1. cbn [in_range]. unfold mbind at 1, M_bind, mret, M_ret.
    rewrite Hw. cbn [in_range]. unfold mbind, M_bind, mret, M_ret, writeFileSync.
    reflexivity. }
  cbn [console written]. split; [done|]. split; [done|].
  unfold bytes_of, text_of. rewrite list_byte_of_string_of_list_byte.
  split; [by rewrite length_app, Hlen|].
  intros fs st0 Hfs. unfold readLevelDat, readFileSync.
  unfold mbind at 1, M_bind. rewrite Hfs.
  destruct (Hread (nbt_write data)) as [-> ->]. cbn [in_range].
  unfold mbind, M_bind, mret, M_ret. rewrite payload_slice by done.
  by destruct (nbt_parse (nbt_write data)).
Qed.

(** X18: the errors of the functions on [level.dat].  A version that is not
    a signed 32-bit integer makes [writeLevelDat] throw a RangeError before
    anything is written; [readLevelDat] and [enableCheats] throw, and write
    nothing, when the file is absent; and [readLevelDat] throws a RangeError,
    without calling the parser, when the file is shorter than its 8-byte
    header. *)
Theorem level_dat_errors (worldPath : string) (st : State) :
  (∀ data version, ¬ (- 2 ^ 31 <= version < 2 ^ 31) →
     ∃ message,
       writeLevelDat join nbt_write worldPath data version st
       = (Throws (RangeError message), st))
  ∧ (∀ fs, fs (join worldPath "level.dat") = None →
       ∃ message,
         readLevelDat fs join nbt_parse worldPath st = (Throws (Error message), st)
         ∧ enableCheats fs join worldPath st = (Throws (Error message), st))
  ∧ (∀ fs buffer, fs (join worldPath "level.dat") = Some buffer →
       (List.length buffer < 8)%nat →
       ∃ message,
         readLevelDat fs join nbt_parse worldPath st = (Throws (RangeError message), st)).
Proof.
  split; [|split].
  - intros data version Hv. eexists. unfold writeLevelDat, writeInt32LE.
    replace ((- 2 ^ 31 <=? version) && (version <? 2 ^ 31)) with false by lia.
    reflexivity.
  - intros fs Hfs. eexists.
    unfold readLevelDat, enableCheats, readFileSync, mbind, M_bind.
    rewrite Hfs. split; reflexivity.
  - intros fs buffer Hfs Hlen. eexists. unfold readLevelDat, readFileSync.
    unfold mbind at 1, M_bind. rewrite Hfs.
    destruct (readInt32LE buffer 0) as [version|] eqn:H0; [|reflexivity].
    cbn [in_range]. unfold mbind at 1, M_bind, mret, M_ret.
    assert (H4 : readInt32LE buffer 4 = None).
    { unfold readInt32LE.
      replace (4 + 4 <=? Z.of_nat (List.length buffer)) with false
        by (symmetry; apply Z.leb_gt; lia).
      by rewrite andb_false_r. }
    rewrite H4. reflexivity.
Qed.

End LevelDat.

(** * Concrete runs of the world manager *)

Lemma level_dat_round_trip_witness :
  ∃ content st',
    writeLevelDat Examples.slash (λ data : list Byte.byte, data) "world" [x0a; x00; x00; x00] 10
      Examples.start = (Returns (), st')
    ∧ written st' = [("world/level.dat", content)]
    ∧ List.length (bytes_of content) = 12%nat
    ∧ ∀ fs st0,
        fs "world/level.dat" = Some (bytes_of content) →
        readLevelDat fs Examples.slash inr "world" st0
        = (Returns (10, [x0a; x00; x00; x00]), st0).
Proof.
  destruct (level_dat_round_trip Examples.slash (λ data : list Byte.byte, data) inr "world"
              [x0a; x00; x00; x00] 10 Examples.start ltac:(lia) ltac:(cbn; lia))
    as (content & st' & Hrun & _ & Hwritten & Hlen & Hread).
  exists content, st'. split; [exact Hrun|]. split; [exact Hwritten|].
  split; [exact Hlen|]. exact Hread.
Defined.

Import Js Node WorldManager WorldManagerSpec.

(** ** The binary patch of [enableCheats] *)

Lemma starts_with_spec (needle data : list Byte.byte) :
  starts_with needle data = true ↔ ∀ (j : nat) c, needle !! j = Some c → data !! j = Some c.
Proof.
  revert data. induction needle as [|n needle IH]; intros data.
  - split; [intros _ j c Hj; by destruct j | done].
  - destruct data as [|d data]; cbn [starts_with].
    + split; [done|]. intros H. by specialize (H 0%nat n eq_refl).
    + rewrite andb_true_iff, IH. split.
      * intros [Heq H] [|j] c Hj.
        -- apply Byte.byte_dec_bl in Heq. cbn in Hj |- *. congruence.
        -- apply (H j c Hj).
      * intros H. split.
        -- apply Byte.byte_dec_lb. specialize (H 0%nat n eq_refl). cbn in H. congruence.
        -- intros j c Hj. apply (H (S j) c Hj).
Qed.

Lemma take_eq_spec (needle l : list Byte.byte) :
  take (List.length needle) l = needle
  ↔ ∀ (j : nat) c, needle !! j = Some c → l !! j = Some c.
Proof.
  split.
  - intros Heq j c Hj. rewrite <- Heq in Hj. by apply lookup_take_Some in Hj as [? _].
  - intros H. apply list_eq. intros j.
    destruct (needle !! j) as [c|] eqn:Hj.
    + apply lookup_take_Some. split; [by apply H|]. by apply lookup_lt_Some in Hj.
    + apply lookup_take_None. right. by apply lookup_ge_None in Hj.
Qed.

Lemma occurs_spec (name : string) (data : list Byte.byte) (i : Z) :
  occurs name data i
  ↔ 0 <= i ∧ ∀ (j : nat) c, bytes_of name !! j = Some c →
               data !! (Z.to_nat i + j)%nat = Some c.
Proof.
  unfold occurs. rewrite take_eq_spec.
  split; intros [Hi H]; (split; [done|]); intros j c Hj.
  - rewrite <- lookup_drop. by apply H.
  - rewrite lookup_drop. by apply H.
Qed.

Lemma occurs_starts_with (name : string) (data : list Byte.byte) (k : nat) :
  occurs name data (Z.of_nat k) ↔ starts_with (bytes_of name) (drop k data) = true.
Proof.
  unfold occurs. rewrite take_eq_spec, starts_with_spec, Nat2Z.id.
  split; [by intros [_ H] | intros H; split; [lia | done]].
Qed.

Lemma indexOf_from_spec (needle data : list Byte.byte) (i0 : Z) :
  0 <= i0 →
  (indexOf_from data needle i0 = -1 ∧ ∀ k, starts_with needle (drop k data) = false)
  ∨ ∃ k : nat,
      indexOf_from data needle i0 = i0 + Z.of_nat k
      ∧ starts_with needle (drop k data) = true
      ∧ ∀ k' : nat, (k' < k)%nat → starts_with needle (drop k' data) = false.
Proof.
  revert i0. induction data as [|d data IH]; intros i0 Hi0.
  - cbn [indexOf_from]. destruct (starts_with needle []) eqn:Hs.
    + right. exists 0%nat. split; [lia|]. split; [done|]. intros; lia.
    + left. split; [done|]. intros k. by rewrite drop_nil.
  - cbn [indexOf_from]. destruct (starts_with needle (d :: data)) eqn:Hs.
    + right. exists 0%nat. split; [lia|]. split; [done|]. intros; lia.
    + destruct (IH (i0 + 1) ltac:(lia)) as [[Hnone Hall]|(k & Hk & Hat & Hbefore)].
      * left. split; [done|]. intros [|k]; [done | apply Hall].
      * right. exists (S k). split; [lia|]. split; [done|].
        intros [|k'] Hlt; [done|]. apply Hbefore. lia.
Qed.

Lemma indexOf_spec (name : string) (data : list Byte.byte) :
  (indexOf data name = -1 ∧ ∀ i, ¬ occurs name data i)
  ∨ (indexOf data name ≠ -1 ∧ first_at name data (indexOf data name)).
Proof.
  unfold indexOf.
  destruct (indexOf_from_spec (bytes_of name) data 0 ltac:(lia))
    as [[Hnone Hall]|(k & Hk & Hat & Hbefore)].
  - left. split; [done|]. intros i Hocc.
    assert (Hi : 0 <= i) by apply Hocc.
    replace i with (Z.of_nat (Z.to_nat i)) in Hocc by lia.
    apply occurs_starts_with in Hocc. by rewrite Hall in Hocc.
  - right. rewrite Hk, Z.add_0_l. split; [lia|]. split.
    + by apply occurs_starts_with.
    + intros j Hocc. assert (Hj : 0 <= j) by apply Hocc.
      replace j with (Z.of_nat (Z.to_nat j)) in Hocc by lia.
      apply occurs_starts_with in Hocc.
      destruct (Nat.lt_ge_cases (Z.to_nat j) k) as [Hlt|Hge]; [|lia].
      by rewrite (Hbefore _ Hlt) in Hocc.
Qed.

Lemma first_at_unique (name : string) (data : list Byte.byte) (i j : Z) :
  first_at name data i → first_at name data j → i = j.
Proof. intros [Hi Hmin] [Hj Hmin']. specialize (Hmin j Hj). specialize (Hmin' i Hi). lia. Qed.

Lemma length_set_byte (data : list Byte.byte) (i : Z) (v : Byte.byte) :
  List.length (set_byte data i v) = List.length data.
Proof. unfold set_byte. destruct (i <? 0); [done | apply length_insert]. Qed.

Lemma lookup_set_byte_ne (data : list Byte.byte) (i : Z) (v : Byte.byte) (k : nat) :
  Z.of_nat k ≠ i → set_byte data i v !! k = data !! k.
Proof.
  intros Hne. unfold set_byte. destruct (Z.ltb_spec i 0); [done|].
  apply list_lookup_insert_ne. lia.
Qed.

Lemma lookup_set_byte_eq (data : list Byte.byte) (i : Z) (v : Byte.byte) :
  0 <= i < Z.of_nat (List.length data) → set_byte data i v !! Z.to_nat i = Some v.
Proof.
  intros Hi. unfold set_byte. destruct (Z.ltb_spec i 0); [lia|].
  apply list_lookup_insert_eq. lia.
Qed.

Lemma lookup_set_byte (data : list Byte.byte) (i : Z) (v : Byte.byte) (k : nat) :
  set_byte data i v !! k = data !! k
  ∨ (Z.of_nat k = i ∧ set_byte data i v !! k = Some v).
Proof.
  destruct (Z.eq_dec (Z.of_nat k) i) as [Heq|Hne]; [|left; by apply lookup_set_byte_ne].
  destruct (data !! k) as [b|] eqn:Hk.
  - right. split; [done|]. subst i.
    pose proof (lookup_set_byte_eq data (Z.of_nat k) v) as Hset.
    rewrite Nat2Z.id in Hset. apply Hset. apply lookup_lt_Some in Hk. lia.
  - left. apply lookup_ge_None. rewrite length_set_byte. by apply lookup_ge_None.
Qed.

(** Setting a byte that no name holds creates no occurrence of the name, and
    leaves the occurrences it does not hit. *)
Lemma occurs_set_byte_inv (name : string) (data : list Byte.byte) (p i : Z) (v : Byte.byte) :
  v ∉ bytes_of name → occurs name (set_byte data p v) i →
  occurs name data i ∧ ¬ (i <= p < i + Z.of_nat (List.length (bytes_of name))).
Proof.
  intros Hv Hocc. apply occurs_spec in Hocc as [Hi H].
  assert (Hout : ¬ (i <= p < i + Z.of_nat (List.length (bytes_of name)))).
  { intros Hp.
    destruct (lookup_lt_is_Some_2 (bytes_of name) (Z.to_nat (p - i)) ltac:(lia)) as [c Hc].
    specialize (H _ _ Hc).
    replace (Z.to_nat i + Z.to_nat (p - i))%nat with (Z.to_nat p) in H by lia.
    assert (Hlt := lookup_lt_Some _ _ _ H). rewrite length_set_byte in Hlt.
    rewrite lookup_set_byte_eq in H by lia. injection H as ->.
    apply Hv. eapply list_elem_of_lookup_2, Hc. }
  split; [|exact Hout]. apply occurs_spec. split; [done|]. intros j c Hc.
  specialize (H j c Hc). rewrite lookup_set_byte_ne in H; [done|].
  apply lookup_lt_Some in Hc. lia.
Qed.

Lemma occurs_set_byte (name : string) (data : list Byte.byte) (p i : Z) (v : Byte.byte) :
  occurs name data i → ¬ (i <= p < i + Z.of_nat (List.length (bytes_of name))) →
  occurs name (set_byte data p v) i.
Proof.
  intros Hocc Hout. apply occurs_spec in Hocc as [Hi H]. apply occurs_spec.
  split; [done|]. intros j c Hc. rewrite lookup_set_byte_ne; [by apply H|].
  apply lookup_lt_Some in Hc. lia.
Qed.

Lemma first_at_set_byte (name : string) (data : list Byte.byte) (p i : Z) (v : Byte.byte) :
  v ∉ bytes_of name → first_at name data i →
  ¬ (i <= p < i + Z.of_nat (List.length (bytes_of name))) →
  first_at name (set_byte data p v) i.
Proof.
  intros Hv [Hocc Hmin] Hout. split; [by apply occurs_set_byte|].
  intros j Hj. apply Hmin. by apply (occurs_set_byte_inv name data p j v).
Qed.

Lemma patch_run (name : string) (offset : Z) (data : list Byte.byte) (st : State) :
  ∃ st',
    patch name offset data st
    = (Returns (if indexOf data name =? -1 then data
                else set_byte data (indexOf data name + offset) x01), st')
    ∧ tiles st' = tiles st ∧ written st' = written st
    ∧ (indexOf data name = -1 → console st' = console st).
Proof.
  unfold patch. destruct (Z.eqb_spec (indexOf data name) (-1)) as [Heq|Hne].
  - by exists st.
  - eexists. split; [reflexivity|]. by cbn.
Qed.

Lemma first_at_after_patch (buffer : list Byte.byte) (i : Z) :
  first_at "commandsEnabled"
    (if indexOf buffer "cheatsEnabled" =? -1 then buffer
     else set_byte buffer (indexOf buffer "cheatsEnabled" + 13) x01) i
  ↔ left_standing buffer i ∧ ∀ j, left_standing buffer j → i <= j.
Proof.
  assert (Hx : x01 ∉ bytes_of "commandsEnabled").
  { intros Hin. set (name := bytes_of "commandsEnabled") in Hin. vm_compute in name.
    subst name. repeat (apply elem_of_cons in Hin as [Hin|Hin]; [discriminate|]).
    by apply elem_of_nil in Hin. }
  destruct (indexOf_spec "cheatsEnabled" buffer) as [[Hn Ha]|[Hn Hf]].
  - rewrite Hn. change (-1 =? -1) with true. cbv iota.
    assert (Hnone : ∀ q, ¬ first_patch buffer q).
    { intros q (i0 & [Hocc _] & _). by apply Ha in Hocc. }
    assert (Hleft : ∀ j, left_standing buffer j ↔ occurs "commandsEnabled" buffer j).
    { intros j. split; [by intros [? _]|]. intros Hocc. split; [done|].
      intros q Hq. by apply Hnone in Hq. }
    unfold first_at. split; intros [Hocc Hmin].
    + split; [by apply Hleft in Hocc|]. intros j Hj. apply Hleft in Hj. by apply Hmin.
    + split; [by apply Hleft in Hocc|]. intros j Hj. apply Hleft in Hj. by apply Hmin.
  - destruct (Z.eqb_spec (indexOf buffer "cheatsEnabled") (-1)) as [|_]; [done|].
    set (i1 := indexOf buffer "cheatsEnabled") in *.
    assert (Hleft : ∀ j, left_standing buffer j
                         ↔ occurs "commandsEnabled" (set_byte buffer (i1 + 13) x01) j).
    { intros j. split.
      - intros [Hocc Hclear]. apply occurs_set_byte; [done|].
        apply (Hclear (i1 + 13)). by exists i1.
      - intros Hocc. apply (occurs_set_byte_inv _ _ _ _ _ Hx) in Hocc as [Hocc Hout].
        split; [done|]. intros q (i0 & Hf0 & ->).
        by rewrite (first_at_unique _ _ _ _ Hf0 Hf). }
    unfold first_at. split; intros [Hocc Hmin].
    + split; [by apply Hleft in Hocc|]. intros j Hj. apply Hleft in Hj. by apply Hmin.
    + split; [by apply Hleft in Hocc|]. intros j Hj. apply Hleft in Hj. by apply Hmin.
Qed.

Section Cheats.

Variable fs : string → option (list Byte.byte).
Variable join : string → string → string.

(** X19: what [enableCheats] changes.  On a world whose [level.dat] is
    present it rewrites that one file, with the same length and every byte
    kept but at most two, which become 1: the byte 13 after the start of the
    first [cheatsEnabled], and the byte 15 after the start of the first
    [commandsEnabled] that the first patch leaves standing (a
    [commandsEnabled] that holds the byte of the first patch is passed over).
    Both are set whenever they lie in the file; when neither name stands in
    the file, the file is rewritten as it was and nothing is printed. *)
Theorem enableCheats_patches (worldPath : string) (buffer : list Byte.byte) (st : State) :
  fs (join worldPath "level.dat") = Some buffer →
  ∃ (data : list Byte.byte) st',
    enableCheats fs join worldPath st = (Returns (), st')
    ∧ written st' = written st ++ [(join worldPath "level.dat", text_of data)]
    ∧ List.length data = List.length buffer
    ∧ (∀ k : nat, data !! k ≠ buffer !! k →
         data !! k = Some x01
         ∧ (first_patch buffer (Z.of_nat k) ∨ second_patch buffer (Z.of_nat k)))
    ∧ (∀ p, first_patch buffer p ∨ second_patch buffer p →
         p < Z.of_nat (List.length buffer) →
         data !! Z.to_nat p = Some x01)
    ∧ ((∀ i, ¬ occurs "cheatsEnabled" buffer i) →
       (∀ i, ¬ occurs "commandsEnabled" buffer i) →
       data = buffer ∧ console st' = console st).
Proof.
  intros Hfs.
  set (i1 := indexOf buffer "cheatsEnabled").
  set (data1 := if i1 =? -1 then buffer else set_byte buffer (i1 + 13) x01).
  set (i2 := indexOf data1 "commandsEnabled").
  set (data := if i2 =? -1 then data1 else set_byte data1 (i2 + 15) x01).
  destruct (patch_run "cheatsEnabled" 13 buffer st) as (st1 & Hrun1 & _ & Hw1 & Hc1).
  destruct (patch_run "commandsEnabled" 15 data1 st1) as (st2 & Hrun2 & _ & Hw2 & Hc2).
  fold i1 in Hrun1, Hc1. fold data1 in Hrun1. fold i2 in Hrun2, Hc2. fold data in Hrun2.
  assert (Hlen1 : List.length data1 = List.length buffer).
  { subst data1. destruct (i1 =? -1); [done | apply length_set_byte]. }
  assert (Hlen : List.length data = List.length buffer).
  { subst data. destruct (i2 =? -1); [done | by rewrite length_set_byte]. }
  (* what the first patch does *)
  assert (H1 : (i1 = -1 ∧ (∀ i, ¬ occurs "cheatsEnabled" buffer i) ∧ data1 = buffer)
               ∨ (i1 ≠ -1 ∧ first_at "cheatsEnabled" buffer i1
                  ∧ data1 = set_byte buffer (i1 + 13) x01)).
  { destruct (indexOf_spec "cheatsEnabled" buffer) as [[Hn Ha]|[Hn Hf]]; fold i1 in Hn.
    - left. subst data1. by rewrite Hn.
    - right. fold i1 in Hf. subst data1. by destruct (Z.eqb_spec i1 (-1)). }
  (* what the second patch does, in terms of the file read *)
  assert (H2 : (i2 = -1 ∧ (∀ p, ¬ second_patch buffer p) ∧ data = data1)
               ∨ (i2 ≠ -1 ∧ (∀ p, second_patch buffer p ↔ p = i2 + 15) ∧ 0 <= i2
                  ∧ data = set_byte data1 (i2 + 15) x01)).
  { destruct (indexOf_spec "commandsEnabled" data1) as [[Hn Ha]|[Hn Hf]]; fold i2 in Hn.
    - left. split; [done|]. split; [|subst data; by rewrite Hn].
      intros p (i & Hleft & Hmin & _).
      destruct (proj2 (first_at_after_patch buffer i) (conj Hleft Hmin)) as [Hocc _].
      by apply Ha in Hocc.
    - right. fold i2 in Hf. split; [done|]. split; [|split].
      + intros p. split.
        * intros (i & Hleft & Hmin & ->).
          pose proof (proj2 (first_at_after_patch buffer i) (conj Hleft Hmin)) as Hi.
          by rewrite (first_at_unique _ _ _ _ Hi Hf).
        * intros ->. exists i2.
          destruct (proj1 (first_at_after_patch buffer i2) Hf) as [Hleft Hmin]. done.
      + apply Hf.
      + subst data. by destruct (Z.eqb_spec i2 (-1)). }
  exists data. eexists. split.
  { unfold enableCheats, readFileSync. unfold mbind at 1, M_bind. rewrite Hfs.
    rewrite (bind_returns _ _ _ _ _ Hrun1). rewrite (bind_returns _ _ _ _ _ Hrun2).
    reflexivity. }
  cbn [written console]. split; [by rewrite Hw2, Hw1|]. split; [exact Hlen|].
  split; [|split].
  - intros k Hk.
    assert (Hstep2 : data !! k = data1 !! k
                     ∨ (data !! k = Some x01 ∧ second_patch buffer (Z.of_nat k))).
    { destruct H2 as [(_ & _ & Heq)|(_ & Hp & _ & Heq)]; rewrite Heq; [by left|].
      destruct (lookup_set_byte data1 (i2 + 15) x01 k) as [Hs|[Hpos Hs]]; [by left|].
      right. split; [done|]. by apply Hp. }
    assert (Hstep1 : data1 !! k = buffer !! k
                     ∨ (data1 !! k = Some x01 ∧ first_patch buffer (Z.of_nat k))).
    { destruct H1 as [(_ & _ & Heq)|(_ & Hf & Heq)]; rewrite Heq; [by left|].
      destruct (lookup_set_byte buffer (i1 + 13) x01 k) as [Hs|[Hpos Hs]]; [by left|].
      right. split; [done|]. by exists i1. }
    destruct Hstep2 as [Hs2|[Hs2 Hi2]]; [|split; [done | by right]].
    rewrite Hs2 in Hk |- *.
    destruct Hstep1 as [Hs1|[Hs1 Hi1]]; [done | split; [done | by left]].
  - intros p Hp Hin.
    assert (Hkeep : ∀ k : nat, data1 !! k = Some x01 → data !! k = Some x01).
    { intros k Hk. destruct H2 as [(_ & _ & Heq)|(_ & _ & _ & Heq)]; rewrite Heq; [done|].
      destruct (lookup_set_byte data1 (i2 + 15) x01 k) as [Hs|[_ Hs]]; [by rewrite Hs | done]. }
    destruct Hp as [(i & Hf & ->)|Hp].
    + destruct H1 as [(_ & Ha & _)|(_ & Hf1 & Heq1)];
        [by destruct Hf as [Hocc _]; apply Ha in Hocc|].
      rewrite (first_at_unique _ _ _ _ Hf Hf1) in Hin |- *.
      assert (Hi1 : 0 <= i1) by apply Hf1.
      apply Hkeep. rewrite Heq1. apply lookup_set_byte_eq. lia.
    + destruct H2 as [(_ & Hnone & _)|(_ & Hiff & Hi2 & Heq)]; [by apply Hnone in Hp|].
      apply Hiff in Hp as ->. rewrite Heq. apply lookup_set_byte_eq. lia.
  - intros Hno1 Hno2.
    destruct H1 as [(Hn1 & _ & Heq1)|(_ & [Hocc _] & _)]; [|by apply Hno1 in Hocc].
    assert (Hn2 : i2 = -1).
    { destruct (indexOf_spec "commandsEnabled" data1) as [[Hn _]|[_ [Hocc _]]]; [done|].
      rewrite Heq1 in Hocc. by apply Hno2 in Hocc. }
    split; [|by rewrite (Hc2 Hn2), (Hc1 Hn1)].
    subst data. by rewrite Hn2, Heq1.
Qed.

End Cheats.

(** * Concrete runs of the patch *)

Lemma enableCheats_patches_witness :
  ∃ (data : list Byte.byte) st',
    enableCheats (λ _, Some (bytes_of "cheatsEnabled0commandsEnabled0")) Examples.slash "world"
      Examples.start = (Returns (), st')
    ∧ written st' = [("world/level.dat", text_of data)]
    ∧ List.length data = 30%nat.
Proof.
  destruct (enableCheats_patches (λ _, Some (bytes_of "cheatsEnabled0commandsEnabled0"))
              Examples.slash "world" (bytes_of "cheatsEnabled0commandsEnabled0") Examples.start
              eq_refl)
    as (data & st' & Hrun & Hwritten & Hlen & _).
  exists data, st'. split; [exact Hrun|]. split; [exact Hwritten | exact Hlen].
Defined.

(** [cheatsEnabled] directly followed by [commandsEnabled]: the first patch
    overwrites the [c], and the second goes to the next [commandsEnabled]. *)
Example enableCheats_passes_over :
  map snd (written (snd (enableCheats
     (λ _, Some (bytes_of "cheatsEnabledcommandsEnabledXYcommandsEnabledZW"))
     Examples.slash "world" Examples.start)))
  = ["cheatsEnabled" +:+ String (ascii_of_byte x01)
       ("ommandsEnabledXYcommandsEnabled" +:+ String (ascii_of_byte x01) "W")].
Proof. vm_compute. reflexivity. Qed.

Import Js Node WorldManager WorldManagerSpec.

(** ** The world ids *)

Lemma pretty_N_char_code (d : N) :
  (d < 10)%N → Z_of_byte (byte_of_ascii (pretty_N_char d)) = 48 + Z.of_N d.
Proof.
  intros Hd.
  assert (Hc : (d = 0 ∨ d = 1 ∨ d = 2 ∨ d = 3 ∨ d = 4 ∨ d = 5 ∨ d = 6 ∨ d = 7 ∨ d = 8
                ∨ d = 9)%N) by lia.
  repeat (destruct Hc as [->|Hc]; [reflexivity|]). by subst d.
Qed.

Lemma bytes_of_String (c : ascii) (s : string) :
  bytes_of (String c s) = byte_of_ascii c :: bytes_of s.
Proof. reflexivity. Qed.

(** The decimal digits stdpp prints are the ones [codes] lists. *)
Lemma pretty_N_go_codes (n : nat) : ∀ (x : N) (s : string),
  (10 ^ N.of_nat n <= x < 10 ^ N.of_nat (S n))%N →
  map Z_of_byte (bytes_of (pretty_N_go x s))
  = codes (S n) (Z.of_N x) ++ map Z_of_byte (bytes_of s).
Proof.
  induction n as [|n IH]; intros x s Hx.
  - change (10 ^ N.of_nat 0)%N with 1%N in Hx. change (10 ^ N.of_nat 1)%N with 10%N in Hx.
    rewrite pretty_N_go_step by lia.
    rewrite (N.div_small x 10) by lia. rewrite pretty_N_go_0, bytes_of_String.
    cbn [codes map app]. rewrite pretty_N_char_code by (apply N.mod_lt; lia).
    rewrite N2Z.inj_mod. reflexivity.
  - assert (Hpow : ∀ k, (10 ^ N.of_nat (S k) = 10 * 10 ^ N.of_nat k)%N).
    { intros k. rewrite Nat2N.inj_succ, N.pow_succ_r'. reflexivity. }
    rewrite (Hpow (S n)), (Hpow n) in Hx.
    assert (H0 : (0 < 10 ^ N.of_nat n)%N)
      by (apply N.neq_0_lt_0, N.pow_nonzero; lia).
    rewrite pretty_N_go_step by lia.
    rewrite IH.
    + rewrite bytes_of_String. cbn [map]. cbn [codes]. rewrite <- !app_assoc. cbn [app].
      rewrite pretty_N_char_code by (apply N.mod_lt; lia).
      by rewrite N2Z.inj_mod, !N2Z.inj_div.
    + rewrite Hpow. split.
      * apply N.div_le_lower_bound; lia.
      * apply N.Div0.div_lt_upper_bound; lia.
Qed.

Lemma pretty_codes (n : nat) (t : Z) :
  10 ^ Z.of_nat n <= t < 10 ^ Z.of_nat (S n) →
  map Z_of_byte (bytes_of (pretty t)) = codes (S n) t.
Proof.
  intros Ht. assert (H0 : 0 < 10 ^ Z.of_nat n) by (apply Z.pow_pos_nonneg; lia).
  destruct t as [|p|p]; [lia| |lia].
  change (pretty (Z.pos p)) with (pretty (N.pos p)).
  unfold pretty, pretty_N. destruct (decide (N.pos p = 0%N)) as [|_]; [done|].
  rewrite (pretty_N_go_codes n).
  - by rewrite app_nil_r.
  - change (Z.pos p) with (Z.of_N (N.pos p)) in Ht.
    replace 10 with (Z.of_N 10) in Ht by reflexivity.
    rewrite <- !nat_N_Z, <- !N2Z.inj_pow in Ht. lia.
Qed.

Lemma codes_app (n m : nat) : ∀ x,
  codes (n + m) x = codes n (x / 10 ^ Z.of_nat m) ++ codes m x.
Proof.
  induction m as [|m IH]; intros x.
  - rewrite Nat.add_0_r, Z.div_1_r. cbn [codes]. by rewrite app_nil_r.
  - rewrite Nat.add_succ_r. cbn [codes]. rewrite IH, app_assoc.
    rewrite Z.div_div by (try apply Z.pow_pos_nonneg; lia).
    rewrite Nat2Z.inj_succ, Z.pow_succ_r by lia. reflexivity.
Qed.

Lemma codes_length (n : nat) : ∀ x, List.length (codes n x) = n.
Proof.
  induction n as [|n IH]; intros x; [done|].
  cbn [codes]. rewrite length_app, IH. cbn. lia.
Qed.

Lemma codes_digits (n : nat) : ∀ x, Forall (λ c, 48 <= c <= 57) (codes n x).
Proof.
  induction n as [|n IH]; intros x; [by constructor|].
  cbn [codes]. apply Forall_app. split; [apply IH|].
  constructor; [|by constructor]. pose proof (Z.mod_pos_bound x 10 ltac:(lia)). lia.
Qed.

Lemma codes_inj (n : nat) : ∀ x y,
  codes n x = codes n y → x mod 10 ^ Z.of_nat n = y mod 10 ^ Z.of_nat n.
Proof.
  induction n as [|n IH]; intros x y Heq.
  - by rewrite !Z.mod_1_r.
  - cbn [codes] in Heq. apply app_inj_tail in Heq as [Hhigh Hlow].
    apply IH in Hhigh. rewrite Nat2Z.inj_succ, Z.pow_succ_r by lia.
    assert (H0 : 0 < 10 ^ Z.of_nat n) by (apply Z.pow_pos_nonneg; lia).
    rewrite !Z.rem_mul_r by lia. lia.
Qed.

(** Three digits give four characters of the alphabet other than [+] and
    [/], from which the digits can be read back. *)
Lemma group_digits (a b c : Z) :
  48 <= a <= 57 → 48 <= b <= 57 → 48 <= c <= 57 →
  List.filter kept (group a b c) = group a b c ∧ ungroup (group a b c) = [a; b; c].
Proof.
  intros Ha Hb Hc.
  assert (Hall : Ranges.forall_range 10 48 (λ a,
            Ranges.forall_range 10 48 (λ b,
              Ranges.forall_range 10 48 (λ c,
                forallb kept (group a b c)
                && match ungroup (group a b c) with
                   | [a'; b'; c'] => (a' =? a) && (b' =? b) && (c' =? c)
                   | _ => false
                   end))) = true) by (vm_compute; reflexivity).
  pose proof (forall_range_spec _ _ _ a Hall ltac:(lia)) as Hall_a. cbv beta in Hall_a.
  pose proof (forall_range_spec _ _ _ b Hall_a ltac:(lia)) as Hall_b. cbv beta in Hall_b.
  pose proof (forall_range_spec _ _ _ c Hall_b ltac:(lia)) as Hall_c. cbv beta in Hall_c.
  clear Hall Hall_a Hall_b.
  apply andb_prop in Hall_c as [Hkept Hback]. split.
  - clear Hback. revert Hkept. unfold group. cbn [forallb List.filter].
    repeat (destruct (kept _); [|done]). done.
  - clear Hkept. generalize dependent (ungroup (group a b c)).
    intros [|a' [|b' [|c' [|]]]] Hback; try done.
    apply andb_prop in Hback as [Hback Hc']. apply andb_prop in Hback as [Ha' Hb'].
    apply Z.eqb_eq in Ha', Hb', Hc'. by subst.
Qed.

Lemma base64_group (a b c : Z) (l : list Z) :
  base64 (a :: b :: c :: l) = group a b c ++ base64 l.
Proof. reflexivity. Qed.

Lemma base64_digits (k : nat) : ∀ cs rest,
  List.length cs = (3 * k)%nat → Forall (λ c, 48 <= c <= 57) cs →
  base64 (cs ++ rest) = base64 cs ++ base64 rest
  ∧ List.filter kept (base64 cs) = base64 cs
  ∧ List.length (base64 cs) = (4 * k)%nat.
Proof.
  induction k as [|k IH]; intros cs rest Hlen Hdig.
  - destruct cs; [done | cbn in Hlen; lia].
  - destruct cs as [|a [|b [|c cs]]]; [cbn in Hlen; lia..|].
    apply Forall_cons in Hdig as [Ha Hdig]. apply Forall_cons in Hdig as [Hb Hdig].
    apply Forall_cons in Hdig as [Hc Hdig].
    destruct (IH cs rest) as (Happ & Hkept & Hl); [cbn in Hlen; lia | done|].
    destruct (group_digits a b c Ha Hb Hc) as [Hg _].
    change ((a :: b :: c :: cs) ++ rest) with (a :: b :: c :: cs ++ rest).
    rewrite !base64_group, Happ, List.filter_app, Hg, Hkept, length_app, Hl.
    split; [by rewrite app_assoc|]. split; [done|]. cbn [group List.length]. lia.
Qed.

Lemma base64_inj (k : nat) : ∀ cs cs',
  List.length cs = (3 * k)%nat → List.length cs' = (3 * k)%nat →
  Forall (λ c, 48 <= c <= 57) cs → Forall (λ c, 48 <= c <= 57) cs' →
  base64 cs = base64 cs' → cs = cs'.
Proof.
  induction k as [|k IH]; intros cs cs' Hlen Hlen' Hdig Hdig' Heq.
  - destruct cs, cs'; cbn in Hlen, Hlen'; (done || lia).
  - destruct cs as [|a [|b [|c cs]]]; [cbn in Hlen; lia..|].
    destruct cs' as [|a' [|b' [|c' cs']]]; [cbn in Hlen'; lia..|].
    apply Forall_cons in Hdig as [Ha Hdig]. apply Forall_cons in Hdig as [Hb Hdig].
    apply Forall_cons in Hdig as [Hc Hdig].
    apply Forall_cons in Hdig' as [Ha' Hdig']. apply Forall_cons in Hdig' as [Hb' Hdig'].
    apply Forall_cons in Hdig' as [Hc' Hdig'].
    rewrite !base64_group in Heq.
    apply app_inj_1 in Heq as [Hg Hrest]; [|done].
    apply IH in Hrest; [|cbn in Hlen, Hlen'; lia..|done|done].
    destruct (group_digits a b c Ha Hb Hc) as [_ Hu].
    destruct (group_digits a' b' c' Ha' Hb' Hc') as [_ Hu'].
    rewrite Hg, Hu' in Hu. by simplify_eq.
Qed.

Lemma slice_prefix {A : Type} (l rest : list A) :
  Exporter.Array_slice (l ++ rest) 0 (Z.of_nat (List.length l)) = l.
Proof.
  unfold Exporter.Array_slice. rewrite length_app.
  change (0 <? 0) with false. cbv iota.
  replace (Z.of_nat (List.length l) <? 0) with false by (symmetry; apply Z.ltb_ge; lia).
  rewrite !Z.min_l by lia. rewrite Z.sub_0_r, Nat2Z.id.
  change (Z.to_nat 0) with 0%nat. rewrite drop_0. by rewrite take_app_length.
Qed.

(** The stamp of a time of [3 k + m] digits starts with the encoding of its
    [3 k] leading digits. *)
Lemma stamp_leading (k m : nat) (t : Z) :
  (0 < 3 * k + m)%nat →
  10 ^ Z.of_nat (3 * k + m - 1) <= t < 10 ^ Z.of_nat (3 * k + m) →
  ∃ rest,
    stamp t = base64 (codes (3 * k) (t / 10 ^ Z.of_nat m)) ++ rest
    ∧ List.length (base64 (codes (3 * k) (t / 10 ^ Z.of_nat m))) = (4 * k)%nat.
Proof.
  intros Hpos Ht. unfold stamp.
  replace (3 * k + m)%nat with (S (3 * k + m - 1)) in Ht at 2 by lia.
  rewrite (pretty_codes _ _ Ht).
  replace (S (3 * k + m - 1)) with (3 * k + m)%nat by lia.
  rewrite codes_app.
  destruct (base64_digits k (codes (3 * k) (t / 10 ^ Z.of_nat m)) (codes m t))
    as (Happ & Hkept & Hlen); [apply codes_length | apply codes_digits|].
  rewrite Happ, List.filter_app, Hkept. by eexists.
Qed.

Lemma leading_inj (n m : nat) (t1 t2 : Z) :
  0 <= t1 < 10 ^ Z.of_nat (n + m) → 0 <= t2 < 10 ^ Z.of_nat (n + m) →
  codes n (t1 / 10 ^ Z.of_nat m) = codes n (t2 / 10 ^ Z.of_nat m) →
  t1 / 10 ^ Z.of_nat m = t2 / 10 ^ Z.of_nat m.
Proof.
  intros H1 H2 Heq. apply codes_inj in Heq.
  assert (Hm : 0 < 10 ^ Z.of_nat m) by (apply Z.pow_pos_nonneg; lia).
  rewrite Nat2Z.inj_add, Z.pow_add_r, Z.mul_comm in H1, H2 by lia.
  rewrite !Z.mod_small in Heq; [done|..].
  - split; [apply Z.div_pos; lia | apply Z.div_lt_upper_bound; lia].
  - split; [apply Z.div_pos; lia | apply Z.div_lt_upper_bound; lia].
Qed.

(** X20: the ids of worlds are not unique.  For times of 13 digits (from
    2001 to 2286), the id [createWorld] derives from [Date.now()] holds the 9
    leading digits of the time and nothing else: two calls get the same id
    exactly when their times have the same quotient by 10000, that is when
    they fall in the same window of 10 seconds.  The id of
    [cloneAndConfigureWorld] holds the 6 leading digits: it is the same
    throughout a window of 10000 seconds. *)
Theorem world_ids_repeat (t1 t2 : Z) :
  10 ^ 12 <= t1 < 10 ^ 13 → 10 ^ 12 <= t2 < 10 ^ 13 →
  (worldId t1 = worldId t2 ↔ t1 / 10000 = t2 / 10000)
  ∧ (cloneId t1 = cloneId t2 ↔ t1 / 10000000 = t2 / 10000000).
Proof.
  intros H1 H2.
  assert (Hid : ∀ (k m : nat) (t : Z),
            (3 * k + m = 13)%nat → 10 ^ 12 <= t < 10 ^ 13 →
            Exporter.Array_slice (stamp t) 0 (Z.of_nat (4 * k))
            = base64 (codes (3 * k) (t / 10 ^ Z.of_nat m))).
  { intros k m t Hkm Ht.
    destruct (stamp_leading k m t ltac:(lia)) as (rest & -> & Hlen).
    - rewrite Hkm. exact Ht.
    - rewrite <- Hlen. apply slice_prefix. }
  assert (Hsame : ∀ (k m : nat), (3 * k + m = 13)%nat →
            Exporter.Array_slice (stamp t1) 0 (Z.of_nat (4 * k))
            = Exporter.Array_slice (stamp t2) 0 (Z.of_nat (4 * k))
            ↔ t1 / 10 ^ Z.of_nat m = t2 / 10 ^ Z.of_nat m).
  { intros k m Hkm. rewrite !(Hid k m) by done. split.
    - intros Heq. apply (leading_inj (3 * k) m); [rewrite Hkm; lia..|].
      apply (base64_inj k);
        [apply codes_length | apply codes_length | apply codes_digits | apply codes_digits
        | exact Heq].
    - by intros ->. }
  split.
  - unfold worldId. rewrite <- (Hsame 3%nat 4%nat eq_refl).
    change (Z.of_nat (4 * 3)) with 12. split; [|by intros ->].
    intros Heq. apply (f_equal list_ascii_of_string) in Heq.
    by rewrite !list_ascii_of_string_of_list_ascii in Heq.
  - unfold cloneId. rewrite <- (Hsame 2%nat 7%nat eq_refl).
    change (Z.of_nat (4 * 2)) with 8. split; [|by intros ->].
    intros Heq. cbn [String.app append] in Heq. simplify_eq.
    apply (f_equal list_ascii_of_string) in Heq.
    by rewrite !list_ascii_of_string_of_list_ascii in Heq.
Qed.

(** * Concrete world ids *)

Lemma world_ids_repeat_witness :
  worldId 1700000000000 = worldId 1700000009999
  ∧ cloneId 1700000000000 = cloneId 1700000009999.
Proof.
  destruct (world_ids_repeat 1700000000000 1700000009999 ltac:(lia) ltac:(lia))
    as [[_ Hworld] [_ Hclone]].
  split; [apply Hworld | apply Hclone]; reflexivity.
Defined.
